(** * Canvas assignments script: a shallow embedding and its properties

    The development follows [canvas_assignments.py]: the text helpers
    ([clean_course_name], [parse_iso8601], [format_date_only],
    [next_link_from_headers]), the transport ([_get_with_retries]), the
    paginator ([paginate]), the course listing ([list_courses_generic],
    [list_my_courses_for_term]), the sorter ([sort_assignments]) and the
    renderers ([render_text], [render_csv]).

    Python values are embedded as follows.
    - [str] is a list of characters; a character is an [ascii], read as a
      code point below 256.  The character classes ([\s], [\d], the case
      of letters) are Python's on that range.
    - Decoded JSON is the inductive [Json]; its numbers are integers.
      Records are accessed as the script does, with [get] and indexing,
      and an access that Python refuses is an exception here too.
    - A computation that can raise returns an [outcome].
    - The HTTP session is a [world]: the responses that the session is
      going to give, in order, and the log of the requests and sleeps done
      so far.  A request takes the next response.  Failures of the
      connection itself are not part of the model.
    - The parser of ISO 8601 dates of the Python library is a parameter,
      the class [DateLib].  So is the answer of the host clock to a long
      [time.sleep], the class [Host].
    - The dict of the assignments is a finite map on the values that Python
      can hash: [None], integers (with [True] as 1 and [False] as 0) and
      strings.
    - A generator is the state it is suspended in, and [next] is a function
      of that state and of the world.

    The definitions come first, the properties after them. *)

From Stdlib Require Import ZArith List Ascii String Bool Lia Permutation Sorted.
From stdpp Require Import base option list gmap.

Import ListNotations.
Local Open Scope string_scope.
Local Open Scope Z_scope.
Local Open Scope list_scope.

(** ** Strings *)

Definition str : Type := list ascii.

(** String literals are written as Rocq strings and read as [str]. *)
Definition lit (s : string) : list ascii := list_ascii_of_string s.
Coercion lit : string >-> list.

Definition code (c : ascii) : Z := Z.of_N (N_of_ascii c).

Definition chr (z : Z) : ascii := ascii_of_N (Z.to_N z).

(** The double quote and the line feed, which Rocq literals cannot hold. *)
Definition dquote : str := [chr 34].
Definition newline : str := [chr 10].

(** [str.isspace] on one character, which is also the class [\s]. *)
Definition is_space (c : ascii) : bool :=
  let n := code c in
  ((9 <=? n) && (n <=? 13)) || ((28 <=? n) && (n <=? 32))
  || (n =? 133) || (n =? 160).

(** The class [\d]. *)
Definition is_digit (c : ascii) : bool :=
  let n := code c in (48 <=? n) && (n <=? 57).

(** [str.lower] on one character. *)
Definition lower_char (c : ascii) : ascii :=
  let n := code c in
  if ((65 <=? n) && (n <=? 90))
     || ((192 <=? n) && (n <=? 222) && negb (n =? 215))
  then chr (n + 32) else c.

Definition lower (s : str) : str := map lower_char s.

Definition str_eqb (a b : str) : bool :=
  bool_decide (a = b).

(** The string without its leading characters of a class. *)
Fixpoint lstrip_by (p : ascii -> bool) (s : str) : str :=
  match s with
  | c :: s' => if p c then lstrip_by p s' else s
  | [] => []
  end.

(** [s.lstrip()], [s.rstrip()] and [s.strip()]. *)
Definition lstrip (s : str) : str := lstrip_by is_space s.

Definition rstrip (s : str) : str := rev (lstrip (rev s)).

Definition strip (s : str) : str := rstrip (lstrip s).

(** [needle in hay] for strings. *)
Fixpoint starts_with (p s : str) : bool :=
  match p, s with
  | [], _ => true
  | a :: p', b :: s' => Ascii.eqb a b && starts_with p' s'
  | _ :: _, [] => false
  end.

Fixpoint contains (needle hay : str) : bool :=
  starts_with needle hay ||
  match hay with
  | [] => false
  | _ :: hay' => contains needle hay'
  end.

(** [s.replace(old, new)] where [old] is one character. *)
Definition replace_char (old : ascii) (new : str) (s : str) : str :=
  flat_map (fun c => if Ascii.eqb c old then new else [c]) s.

(** [s.split(sep)] where [sep] is one character. *)
Fixpoint split_char (sep : ascii) (s : str) : list str :=
  match s with
  | [] => [[]]
  | c :: s' =>
      if Ascii.eqb c sep then [] :: split_char sep s'
      else match split_char sep s' with
           | p :: ps => (c :: p) :: ps
           | [] => [[c]]
           end
  end.

(** [sep.join(parts)]. *)
Fixpoint join (sep : str) (parts : list str) : str :=
  match parts with
  | [] => []
  | [p] => p
  | p :: ps => p ++ sep ++ join sep ps
  end.

(** ** Regular expressions

    The patterns of the program quantify character classes only, so the
    syntax has a repetition of a class with its bounds and its greediness.
    Matching is by backtracking, in the order of Python's [re]: the first
    alternative first, a greedy repetition longest first, a lazy one
    shortest first. *)

Inductive regex : Type :=
| Chr (p : ascii -> bool)
| Rep (p : ascii -> bool) (lo : nat) (hi : option nat) (greedy : bool)
| Cat (r1 r2 : regex)
| Alt (r1 r2 : regex)
| Eps
| Eos.

Definition may_take (hi : option nat) : bool :=
  match hi with Some O => false | _ => true end.

Definition dec_hi (hi : option nat) : option nat :=
  match hi with Some n => Some (Nat.pred n) | None => None end.

Definition or_else {A} (x : option A) (y : option A) : option A :=
  match x with Some _ => x | None => y end.

(** A repetition, given the continuation [k] of the match. *)
Fixpoint rep_match (p : ascii -> bool) (lo : nat) (hi : option nat)
    (greedy : bool) (s : str) (k : str -> option str) : option str :=
  let stop := match lo with O => k s | S _ => None end in
  match s with
  | c :: s' =>
      if p c && may_take hi then
        let more := rep_match p (Nat.pred lo) (dec_hi hi) greedy s' k in
        if greedy then or_else more stop
        else match lo with O => or_else stop more | S _ => more end
      else stop
  | [] => stop
  end.

(** [$]: the end of the string, or just before a final line feed. *)
Definition at_end (s : str) : bool :=
  match s with
  | [] => true
  | [c] => code c =? 10
  | _ => false
  end.

(** [rmatch r s k]: match [r] at the start of [s] and hand the rest of the
    input to [k]; the result is the input left after the whole match. *)
Fixpoint rmatch (r : regex) (s : str) (k : str -> option str) : option str :=
  match r with
  | Chr p =>
      match s with
      | c :: s' => if p c then k s' else None
      | [] => None
      end
  | Rep p lo hi greedy => rep_match p lo hi greedy s k
  | Cat r1 r2 => rmatch r1 s (fun s1 => rmatch r2 s1 k)
  | Alt r1 r2 => or_else (rmatch r1 s k) (rmatch r2 s k)
  | Eps => k s
  | Eos => if at_end s then k s else None
  end.

(** Number of characters of [s] consumed when [rest] is left. *)
Definition consumed (s rest : str) : nat := (length s - length rest)%nat.

(** [re.search(r, s)]: the text before the leftmost match, the match and
    the text after it. *)
Fixpoint re_search (r : regex) (s : str) : option (str * str * str) :=
  match rmatch r s Some with
  | Some rest => Some ([], take (consumed s rest) s, rest)
  | None =>
      match s with
      | [] => None
      | c :: s' =>
          match re_search r s' with
          | Some (pre, m, post) => Some (c :: pre, m, post)
          | None => None
          end
      end
  end.

(** [re.sub(r, repl, s)] with a literal replacement.  [skip] counts the
    characters of the current match still to be dropped.  An empty match is
    replaced too, after which the next match at that position has to
    consume something. *)
Fixpoint sub_from (r : regex) (repl : str) (s : str) (skip : nat) : str :=
  let advance k :=
    match s with
    | c :: s' => k c s'
    | [] => []
    end in
  match skip with
  | S n => advance (fun _ s' => sub_from r repl s' n)
  | O =>
      let copy := advance (fun c s' => c :: sub_from r repl s' O) in
      let drop rest :=
        match consumed s rest with
        | S n => Some (repl ++ advance (fun _ s' => sub_from r repl s' n))
        | O => None
        end in
      match rmatch r s Some with
      | None => copy
      | Some rest =>
          match drop rest with
          | Some out => out
          | None =>
              let nonempty rest' :=
                match consumed s rest' with
                | S _ => Some rest'
                | O => None
                end in
              repl ++
              match rmatch r s nonempty with
              | Some rest' => default copy (drop rest')
              | None => copy
              end
          end
      end
  end.

Definition re_sub (r : regex) (repl : str) (s : str) : str :=
  sub_from r repl s O.

(** Pattern constructors. *)
Definition ch (c : ascii) : regex := Chr (Ascii.eqb c).

(** One character, case ignored ([re.I]). *)
Definition chi (c : ascii) : regex :=
  Chr (fun x => Ascii.eqb (lower_char x) (lower_char c)).

Definition not_ch (c : ascii) : ascii -> bool := fun x => negb (Ascii.eqb x c).

Fixpoint word (mk : ascii -> regex) (w : str) : regex :=
  match w with
  | [] => Eps
  | [c] => mk c
  | c :: w' => Cat (mk c) (word mk w')
  end.

Fixpoint cat (rs : list regex) : regex :=
  match rs with
  | [] => Eps
  | [r] => r
  | r :: rs' => Cat r (cat rs')
  end.

Definition star (p : ascii -> bool) : regex := Rep p 0 None true.
Definition plus (p : ascii -> bool) : regex := Rep p 1 None true.
Definition plus_lazy (p : ascii -> bool) : regex := Rep p 1 None false.
Definition exactly (n : nat) (p : ascii -> bool) : regex := Rep p n (Some n) true.
Definition at_least (n : nat) (p : ascii -> bool) : regex := Rep p n None true.
Definition opt (p : ascii -> bool) : regex := Rep p 0 (Some 1%nat) true.

(** ** clean_course_name *)

(** [\s*\([^)]+?\d{4}\)\s*$] *)
Definition re_year_annotation : regex :=
  cat [star is_space; ch "("%char; plus_lazy (not_ch ")"%char); exactly 4 is_digit;
       ch ")"%char; star is_space; Eos].

(** [\s*\((?:Spring|Fall|Summer|Winter)[^)]+\)\s*$] with [re.I] *)
Definition re_term_annotation : regex :=
  cat [star is_space; ch "("%char;
       Alt (word chi "Spring")
         (Alt (word chi "Fall") (Alt (word chi "Summer") (word chi "Winter")));
       plus (not_ch ")"%char); ch ")"%char; star is_space; Eos].

(** [-(?:\d{2}|ON\d?)-\d{5,}] with [re.I] *)
Definition re_section_suffix : regex :=
  cat [ch "-"%char;
       Alt (exactly 2 is_digit) (Cat (word chi "ON") (opt is_digit));
       ch "-"%char; at_least 5 is_digit].

(** [\s{2,}] *)
Definition re_spaces : regex := at_least 2 is_space.

(** The three substitutions that drop annotations and suffixes. *)
Definition strip_noise (n : str) : str :=
  let n := re_sub re_year_annotation "" n in
  let n := re_sub re_term_annotation "" n in
  re_sub re_section_suffix "" n.

(** The last line of the function body: runs of blanks, then [strip]. *)
Definition collapse (n : str) : str :=
  strip (re_sub re_spaces " " n).

Definition clean_course_name (name : option str) : str :=
  match name with
  | None | Some [] => "Untitled"
  | Some n => collapse (strip_noise n)
  end.

(** ** Integers and text *)

Fixpoint uint_chars (d : Decimal.uint) : str :=
  match d with
  | Decimal.Nil => []
  | Decimal.D0 d => "0"%char :: uint_chars d
  | Decimal.D1 d => "1"%char :: uint_chars d
  | Decimal.D2 d => "2"%char :: uint_chars d
  | Decimal.D3 d => "3"%char :: uint_chars d
  | Decimal.D4 d => "4"%char :: uint_chars d
  | Decimal.D5 d => "5"%char :: uint_chars d
  | Decimal.D6 d => "6"%char :: uint_chars d
  | Decimal.D7 d => "7"%char :: uint_chars d
  | Decimal.D8 d => "8"%char :: uint_chars d
  | Decimal.D9 d => "9"%char :: uint_chars d
  end.

(** [str(n)] for an integer. *)
Definition str_of_int (n : Z) : str :=
  match n with
  | Zneg p => "-"%char :: uint_chars (Pos.to_uint p)
  | _ => uint_chars (N.to_uint (Z.to_N n))
  end.

(** A non-negative number on at least [width] digits: [%04d], [%02d]. *)
Definition zero_pad (width : nat) (n : Z) : str :=
  let d := str_of_int n in
  repeat "0"%char (width - length d)%nat ++ d.

(** The blanks that [int] drops around a numeral. *)
Definition is_int_space (c : ascii) : bool :=
  let n := code c in
  ((9 <=? n) && (n <=? 13)) || (n =? 32) || (n =? 133) || (n =? 160).

(** Decimal digits, single underscores allowed between two digits. *)
Fixpoint digits_val (acc : Z) (after_digit : bool) (s : str) : option Z :=
  match s with
  | [] => if after_digit then Some acc else None
  | c :: s' =>
      if is_digit c then digits_val (10 * acc + (code c - 48)) true s'
      else if Ascii.eqb c "_" && after_digit then digits_val acc false s'
      else None
  end.

(** The longest numeral that [int] converts, in digits: the default of
    [sys.get_int_max_str_digits()] since Python 3.11.  Signs, blanks and
    underscores do not count, leading zeros do. *)
Definition int_max_str_digits : nat := 4300.

Definition digit_count (s : str) : nat := length (List.filter is_digit s).

(** [int(s)] for a string; [None] stands for [ValueError]. *)
Definition py_int (s : str) : option Z :=
  let t := rev (lstrip_by is_int_space (rev (lstrip_by is_int_space s))) in
  if (int_max_str_digits <? digit_count t)%nat then None
  else
    match t with
    | c :: t' =>
        if Ascii.eqb c "+" then digits_val 0 false t'
        else if Ascii.eqb c "-" then Z.opp <$> digits_val 0 false t'
        else digits_val 0 false t
    | [] => None
    end.

(** ** JSON values, exceptions *)

#[warnings="-register-all"]
Inductive Json : Type :=
| JNull
| JBool (b : bool)
| JNum (n : Z)
| JStr (s : str)
| JList (items : list Json)
| JObj (fields : list (str * Json)).

(** [d.get(key)] on a decoded object: the first binding of the key. *)
Fixpoint fields_get (key : str) (fields : list (str * Json)) : option Json :=
  match fields with
  | [] => None
  | (k, v) :: rest => if str_eqb k key then Some v else fields_get key rest
  end.

(** Truth value of a Python object. *)
Definition truthy (v : Json) : bool :=
  match v with
  | JNull => false
  | JBool b => b
  | JNum n => negb (n =? 0)
  | JStr s => negb (str_eqb s [])
  | JList l => match l with [] => false | _ => true end
  | JObj f => match f with [] => false | _ => true end
  end.

(** The exceptions of the script.  [HTTPError] is the one of
    [raise_for_status], with the status of its response.  [OverflowError]
    and [OSError] are those of [time.sleep] on a duration that is too
    long.  [NoResponse] is the session running out of responses. *)
Inductive exn : Type :=
| HTTPError (status : Z)
| ValueError
| JSONDecodeError
| AttributeError
| TypeError
| KeyError
| OverflowError
| OSError
| NoResponse.

Inductive outcome (A : Type) : Type :=
| Ok (a : A)
| Raise (e : exn).
Arguments Ok {A} a.
Arguments Raise {A} e.

Definition bind {A B} (x : outcome A) (f : A -> outcome B) : outcome B :=
  match x with
  | Ok a => f a
  | Raise e => Raise e
  end.

Notation "'let*' x ':=' c 'in' k" := (bind c (fun x => k))
  (at level 10, x name, c at level 100, k at level 200).

(** [v.get(key)]: only a dict has the method. *)
Definition py_get (v : Json) (key : str) : outcome (option Json) :=
  match v with
  | JObj fields => Ok (fields_get key fields)
  | _ => Raise AttributeError
  end.

(** [v.get(key)] with [None] for a missing key. *)
Definition py_get_none (v : Json) (key : str) : outcome Json :=
  let* r := py_get v key in Ok (default JNull r).

(** [v[key]] for a string key. *)
Definition py_index (v : Json) (key : str) : outcome Json :=
  match v with
  | JObj fields =>
      match fields_get key fields with
      | Some x => Ok x
      | None => Raise KeyError
      end
  | _ => Raise TypeError
  end.

(** ** Dates

    A [datetime] is an aware date and time in UTC.  Two of them with the
    same [tzinfo] compare field by field. *)

Record datetime : Type := mk_datetime {
  year : Z; month : Z; day : Z;
  hour : Z; minute : Z; second : Z; microsecond : Z
}.

Definition dt_fields (d : datetime) : list Z :=
  [year d; month d; day d; hour d; minute d; second d; microsecond d].

(** [datetime.max.replace(tzinfo=timezone.utc)] *)
Definition datetime_max : datetime :=
  mk_datetime 9999 12 31 23 59 59 999999.

(** The part of [datetime] that depends on the interpreter and on the
    host: [fromisoformat_utc s] is
    [datetime.fromisoformat(s).astimezone(timezone.utc)], and [None] when
    either call raises. *)
Class DateLib : Type := {
  fromisoformat_utc : str -> option datetime
}.

Definition parse_iso8601 `{DateLib} (due_at : Json) : option datetime :=
  if truthy due_at then
    match due_at with
    | JStr s => fromisoformat_utc (replace_char "Z" "+00:00" s)
    | _ => None
    end
  else None.

(** [dt.date().isoformat()] *)
Definition date_isoformat (dt : datetime) : str :=
  zero_pad 4 (year dt) ++ "-" ++ zero_pad 2 (month dt) ++ "-"
  ++ zero_pad 2 (day dt).

Definition format_date_only (dt : option datetime) : str :=
  match dt with
  | Some d => date_isoformat d
  | None => "No due date"
  end.

(** ** Responses and the session *)

Definition headers : Type := list (str * str).

(** Lookup in the headers of a response, whatever the case of the name. *)
Fixpoint header_get (name : str) (hs : headers) : option str :=
  match hs with
  | [] => None
  | (k, v) :: rest =>
      if str_eqb (lower k) (lower name) then Some v else header_get name rest
  end.

(** [a or b] where [a] is a string or [None]. *)
Definition str_or (a : option str) (b : str) : str :=
  match a with
  | Some (c :: s) => c :: s
  | _ => b
  end.

(** [<([^>]+)>] *)
Definition re_angle : regex :=
  cat [ch "<"%char; plus (not_ch ">"%char); ch ">"%char].

Definition rel_next : str := "rel=" ++ dquote ++ "next" ++ dquote.

Fixpoint first_next_link (parts : list str) : option str :=
  match parts with
  | [] => None
  | part :: rest =>
      if contains rel_next part then
        match re_search re_angle part with
        | Some (_, m, _) => Some (removelast (tl m))
        | None => first_next_link rest
        end
      else first_next_link rest
  end.

Definition next_link_from_headers (hs : headers) : option str :=
  let link_val := str_or (header_get "Link" hs) (str_or (header_get "link" hs) "") in
  first_next_link (split_char "," link_val).

Record response : Type := mk_response {
  status_code : Z;
  resp_headers : headers;
  resp_json : option Json
}.

Definition params : Type := list (str * str).

Inductive event : Type :=
| EGet (url : str) (query : option params) (timeout : Z)
| ESleep (seconds : Z).

(** The session: the responses still to come and what was done so far. *)
Record world : Type := mk_world {
  script : list response;
  log : list event
}.

(** The part of [time.sleep] that depends on the host.  The deadline of a
    sleep is a time of the monotonic clock, and a deadline beyond the range
    of that clock is refused: how long a sleep may be depends on how long
    the host has been up.  [clock_accepts s] says whether the clock takes a
    sleep of [s] seconds; every host takes a sleep of a day. *)
Class Host : Type := {
  clock_accepts : Z -> bool;
  clock_accepts_day : forall s, 0 <= s <= 86400 -> clock_accepts s = true
}.

(** The seconds whose nanoseconds still fit the 64 bits of the
    interpreter's time type. *)
Definition sleep_overflow : Z := 9223372036.

(** The exception of [time.sleep(seconds)] for an integer, if any: the
    conversion to nanoseconds comes first, then the sign, then the
    clock. *)
Definition sleep_error `{Host} (seconds : Z) : option exn :=
  if (seconds <? - sleep_overflow) || (sleep_overflow <? seconds)
  then Some OverflowError
  else if seconds <? 0 then Some ValueError
  else if clock_accepts seconds then None
  else Some OSError.

(** [time.sleep(seconds)] *)
Definition time_sleep `{Host} (seconds : Z) (lg : list event)
    : outcome (list event) :=
  match sleep_error seconds with
  | Some e => Raise e
  | None => Ok (lg ++ [ESleep seconds])
  end.

(** [int(resp.headers.get("Retry-After", "3"))]; [None] when [int]
    raises. *)
Definition retry_after (resp : response) : option Z :=
  py_int (default (lit "3") (header_get "Retry-After" (resp_headers resp))).

Definition is_transient (status : Z) : bool :=
  (status =? 500) || (status =? 502) || (status =? 503) || (status =? 504).

(** The loop of [_get_with_retries], on the responses still to come. *)
Fixpoint retry_loop `{Host} (url : str) (query : option params)
    (max_retries timeout : Z) (attempt : Z) (responses : list response)
    (lg : list event)
    : outcome response * world :=
  let lg := lg ++ [EGet url query timeout] in
  match responses with
  | [] => (Raise NoResponse, mk_world [] lg)
  | resp :: rest =>
      if status_code resp =? 429 then
        match retry_after resp with
        | None => (Raise ValueError, mk_world rest lg)
        | Some seconds =>
            match time_sleep seconds lg with
            | Raise e => (Raise e, mk_world rest lg)
            | Ok lg' =>
                retry_loop url query max_retries timeout (attempt + 1) rest lg'
            end
        end
      else if is_transient (status_code resp) then
        if attempt >=? max_retries then (Ok resp, mk_world rest lg)
        else
          match time_sleep (2 ^ attempt) lg with
          | Raise e => (Raise e, mk_world rest lg)
          | Ok lg' =>
              retry_loop url query max_retries timeout (attempt + 1) rest lg'
          end
      else (Ok resp, mk_world rest lg)
  end.

Definition _get_with_retries `{Host} (url : str) (query : option params)
    (max_retries timeout : Z) (w : world) : outcome response * world :=
  retry_loop url query max_retries timeout 0 (script w) (log w).

(** ** paginate

    The generator is its suspended state: at the head of the [while] loop
    with the URL and the parameters of the next request, or inside a page
    with the items still to be yielded and the response they came from. *)

Inductive generator : Type :=
| AtLoop (url : option str) (query : option params)
| InPage (remaining : list Json) (resp : response).

Inductive step : Type :=
| Yield (item : Json) (g : generator)
| Stop
| Throw (e : exn).

(** [resp.ok]: [raise_for_status] raises from 400 to 599. *)
Definition resp_ok (resp : response) : bool :=
  negb ((400 <=? status_code resp) && (status_code resp <? 600)).

(** What a decoded body yields: its elements, or itself. *)
Definition page_items (data : Json) : list Json :=
  match data with
  | JList items => items
  | _ => [data]
  end.

Definition url_truthy (url : option str) : bool :=
  match url with
  | Some (_ :: _) => true
  | _ => false
  end.

(** Default arguments of [_get_with_retries]. *)
Definition default_max_retries : Z := 4.
Definition default_timeout : Z := 20.

(** The [while url:] loop up to the next [yield].  Every turn takes at
    least one response, which is what [fuel] counts. *)
Fixpoint fetch_loop `{Host} (fuel : nat) (url : option str)
    (query : option params) (w : world) : step * world :=
  if url_truthy url then
    match fuel with
    | O => (Throw NoResponse, w)
    | S fuel' =>
        match _get_with_retries (default [] url) query
                default_max_retries default_timeout w with
        | (Raise e, w') => (Throw e, w')
        | (Ok resp, w') =>
            if resp_ok resp then
              match resp_json resp with
              | None => (Throw JSONDecodeError, w')
              | Some data =>
                  match page_items data with
                  | item :: rest => (Yield item (InPage rest resp), w')
                  | [] =>
                      fetch_loop fuel'
                        (next_link_from_headers (resp_headers resp)) None w'
                  end
              end
            else (Throw (HTTPError (status_code resp)), w')
        end
    end
  else (Stop, w).

(** [next(g)] *)
Definition gen_next `{Host} (g : generator) (w : world) : step * world :=
  let fuel := S (length (script w)) in
  match g with
  | InPage (item :: rest) resp => (Yield item (InPage rest resp), w)
  | InPage [] resp =>
      fetch_loop fuel (next_link_from_headers (resp_headers resp)) None w
  | AtLoop url query => fetch_loop fuel url query w
  end.

Definition paginate (url : str) (query : params) : generator :=
  AtLoop (Some url) (Some query).

(** A [for] loop over a generator; the body says whether to [break]. *)
Inductive flow (A : Type) : Type :=
| Continue (a : A)
| Break (a : A).
Arguments Continue {A} a.
Arguments Break {A} a.

Fixpoint for_gen `{Host} {A} (fuel : nat) (body : A -> Json -> outcome (flow A))
    (g : generator) (acc : A) (w : world) : outcome A * world :=
  match fuel with
  | O => (Raise NoResponse, w)
  | S fuel' =>
      match gen_next g w with
      | (Stop, w') => (Ok acc, w')
      | (Throw e, w') => (Raise e, w')
      | (Yield item g', w') =>
          match body acc item with
          | Raise e => (Raise e, w')
          | Ok (Break a) => (Ok a, w')
          | Ok (Continue a) => for_gen fuel' body g' a w'
          end
      end
  end.

(** A bound on the number of items a generator can still yield. *)
Definition page_len (resp : response) : nat :=
  match resp_json resp with
  | Some data => length (page_items data)
  | None => 0
  end.

Definition remaining_items (g : generator) : nat :=
  match g with
  | InPage rest _ => length rest
  | AtLoop _ _ => 0
  end.

Definition pages_weight (rs : list response) : nat :=
  sum_list_with (fun r => S (page_len r)) rs.

Definition budget (g : generator) (w : world) : nat :=
  S (remaining_items g + pages_weight (script w)).

Definition for_each `{Host} {A} (body : A -> Json -> outcome (flow A))
    (g : generator) (acc : A) (w : world) : outcome A * world :=
  for_gen (budget g w) body g acc w.

(** [list(paginate(url, query))] *)
Definition paginate_all `{Host} (url : str) (query : params) (w : world)
    : outcome (list Json) * world :=
  for_each (fun acc item => Ok (Continue (acc ++ [item])))
    (paginate url query) [] w.

(** ** Courses of a term *)

Definition course_query : params :=
  [(lit "enrollment_type[]", lit "student");
   (lit "enrollment_state[]", lit "active");
   (lit "enrollment_state[]", lit "completed");
   (lit "include[]", lit "term");
   (lit "per_page", lit "100")].

(** [(c.get("term") or {}).get("name", "")] *)
Definition course_term (c : Json) : outcome Json :=
  let* t := py_get_none c "term" in
  let* n := py_get (if truthy t then t else JObj []) "name" in
  Ok (default (JStr "") n).

(** [v.lower()]: a string method. *)
Definition py_lower (v : Json) : outcome str :=
  match v with
  | JStr s => Ok (lower s)
  | _ => Raise AttributeError
  end.

(** [term_sub.lower() in term.lower()] *)
Definition term_matches (term_sub : str) (c : Json) : outcome bool :=
  let* term := course_term c in
  let* t := py_lower term in
  Ok (contains (lower term_sub) t).

(** The body of the loop of [list_courses_generic]. *)
Definition course_step (term_sub : str) (max_courses : Z)
    (matches : list Json) (c : Json) : outcome (flow (list Json)) :=
  let* hit := term_matches term_sub c in
  let matches := if hit then matches ++ [c] else matches in
  if Z.of_nat (length matches) >=? max_courses then Ok (Break matches)
  else Ok (Continue matches).

Definition list_courses_generic `{Host} (base_url endpoint term_sub : str)
    (max_courses : Z) (w : world) : outcome (list Json) * world :=
  for_each (course_step term_sub max_courses)
    (paginate (base_url ++ endpoint) course_query) [] w.

Definition ep_courses : str := "/api/v1/courses".
Definition ep_self_courses : str := "/api/v1/users/self/courses".

Definition endpoints (source : str) : list str :=
  if str_eqb source "courses" then [ep_courses; ep_self_courses]
  else [ep_self_courses; ep_courses].

(** The loop of [list_my_courses_for_term] over the endpoints. *)
Fixpoint try_endpoints `{Host} (base_url : str) (eps : list str)
    (term_sub : str)
    (max_courses : Z) (w : world) : outcome (list Json) * world :=
  match eps with
  | [] => (Ok [], w)
  | ep :: rest =>
      match list_courses_generic base_url ep term_sub max_courses w with
      | (Ok (c :: res), w') => (Ok (c :: res), w')
      | (Ok [], w') => try_endpoints base_url rest term_sub max_courses w'
      | (Raise (HTTPError status), w') =>
          if negb (status >=? 500) then (Raise (HTTPError status), w')
          else try_endpoints base_url rest term_sub max_courses w'
      | (Raise e, w') => (Raise e, w')
      end
  end.

Definition list_my_courses_for_term `{Host} (base_url term_name_substring : str)
    (max_courses : Z) (source : str) (w : world)
    : outcome (list Json) * world :=
  try_endpoints base_url (endpoints source) term_name_substring max_courses w.

(** ** sort_assignments *)

(** [a < b] on sequences of integers, as tuples compare. *)
Fixpoint lex_ltb (a b : list Z) : bool :=
  match a, b with
  | x :: a', y :: b' => if x =? y then lex_ltb a' b' else x <? y
  | [], _ :: _ => true
  | _, [] => false
  end.

Definition dt_ltb (d1 d2 : datetime) : bool :=
  lex_ltb (dt_fields d1) (dt_fields d2).

Definition sort_key : Type := Z * datetime.

(** [k1 < k2] on the pairs that [key] returns. *)
Definition key_ltb (k1 k2 : sort_key) : bool :=
  if fst k1 =? fst k2 then dt_ltb (snd k1) (snd k2) else fst k1 <? fst k2.

(** The inner function [key] of [sort_assignments]. *)
Definition key `{DateLib} (a : Json) : outcome sort_key :=
  let* due_at := py_get_none a "due_at" in
  match parse_iso8601 due_at with
  | None => Ok (1, datetime_max)
  | Some due => Ok (0, due)
  end.

Fixpoint map_outcome {A B} (f : A -> outcome B) (l : list A)
    : outcome (list B) :=
  match l with
  | [] => Ok []
  | x :: l' =>
      let* y := f x in
      let* ys := map_outcome f l' in
      Ok (y :: ys)
  end.

(** [sorted(l, key=...)]: the keys are computed first, then the items are
    put in order of their keys, items of equal key staying in the order
    they came in.  The stable sort is written as an insertion sort. *)
Fixpoint insert_keyed {A} (x : sort_key * A) (l : list (sort_key * A))
    : list (sort_key * A) :=
  match l with
  | [] => [x]
  | y :: l' =>
      if key_ltb (fst y) (fst x) then y :: insert_keyed x l'
      else x :: y :: l'
  end.

Definition sort_keyed {A} (l : list (sort_key * A)) : list (sort_key * A) :=
  foldr insert_keyed [] l.

Definition sorted_by_key {A} (f : A -> outcome sort_key) (l : list A)
    : outcome (list A) :=
  let* keyed := map_outcome (fun a => let* k := f a in Ok (k, a)) l in
  Ok (map snd (sort_keyed keyed)).

Definition sort_assignments `{DateLib} (assignments : list Json)
    : outcome (list Json) :=
  sorted_by_key key assignments.

(** ** Renderers *)

(** An argument passed where [Optional[str]] is expected and used as the
    subject of [re.sub]: a falsy value takes the early return, another
    value that is not a string makes [re.sub] raise. *)
Definition clean_course_name_of (name : Json) : outcome str :=
  match name with
  | JStr s => Ok (clean_course_name (Some s))
  | _ => if truthy name then Raise TypeError else Ok (clean_course_name None)
  end.

(** [(a.get("name") or "Untitled").strip()] *)
Definition assignment_name (a : Json) : outcome str :=
  let* name := py_get_none a "name" in
  match (if truthy name then name else JStr "Untitled") with
  | JStr s => Ok (strip s)
  | _ => Raise AttributeError
  end.

(** The keys of a Python dict among the decoded values: what can be
    hashed.  [True] and [False] are the keys 1 and 0. *)
Inductive pykey : Type :=
| KNone
| KInt (n : Z)
| KStr (s : str).

#[global] Instance pykey_eq_dec : EqDecision pykey.
Proof. solve_decision. Defined.

Definition pykey_code (k : pykey) : unit + (Z + list N) :=
  match k with
  | KNone => inl tt
  | KInt n => inr (inl n)
  | KStr s => inr (inr (map N_of_ascii s))
  end.

Definition pykey_of_code (x : unit + (Z + list N)) : pykey :=
  match x with
  | inl _ => KNone
  | inr (inl n) => KInt n
  | inr (inr l) => KStr (map ascii_of_N l)
  end.

#[global] Instance pykey_countable : Countable pykey.
Proof.
  apply (inj_countable' pykey_code pykey_of_code).
  intros [|n|s]; [reflexivity | reflexivity |].
  cbn. f_equal. induction s as [|c s IH]; [reflexivity|].
  cbn. by rewrite ascii_N_embedding, IH.
Defined.

(** The dict [assignments_by_course]. *)
Definition assignments_dict : Type := gmap pykey (list Json).

(** The key that a value is in a dict; a list or a dict cannot be
    hashed. *)
Definition dict_key (v : Json) : outcome pykey :=
  match v with
  | JNull => Ok KNone
  | JBool b => Ok (KInt (if b then 1 else 0))
  | JNum n => Ok (KInt n)
  | JStr s => Ok (KStr s)
  | JList _ | JObj _ => Raise TypeError
  end.

(** [assignments_by_course.get(cid, [])] *)
Definition assignments_of (assignments_by_course : assignments_dict)
    (cid : Json) : outcome (list Json) :=
  let* k := dict_key cid in
  Ok (default [] (assignments_by_course !! k)).

(** [f"{v}"] for a value that can be a key of the dict.  (A list or a dict
    makes the lookup raise, and its text is never used.) *)
Definition py_format (v : Json) : str :=
  match v with
  | JNum n => str_of_int n
  | JStr s => s
  | JBool b => if b then "True" else "False"
  | JNull => "None"
  | JList _ | JObj _ => []
  end.

(** [for x in l: acc = body(acc, x)] *)
Fixpoint for_list {A B} (body : A -> B -> outcome A) (l : list B) (acc : A)
    : outcome A :=
  match l with
  | [] => Ok acc
  | x :: l' => let* acc' := body acc x in for_list body l' acc'
  end.

(** The due date of an assignment as the renderers show it. *)
Definition due_str `{DateLib} (a : Json) : outcome str :=
  let* due_at := py_get_none a "due_at" in
  Ok (format_date_only (parse_iso8601 due_at)).

Definition text_row `{DateLib} (lines : list str) (a : Json)
    : outcome (list str) :=
  let* due := due_str a in
  let* aname := assignment_name a in
  Ok (lines ++ [lit "- " ++ dquote ++ aname ++ dquote ++ lit " | Due: " ++ due]).

Definition text_course `{DateLib} (assignments_by_course : assignments_dict)
    (lines : list str) (course : Json) : outcome (list str) :=
  let* cid := py_index course "id" in
  let* name := py_get_none course "name" in
  let* cname := clean_course_name_of name in
  let lines :=
    lines ++ [lit "Course: " ++ cname ++ lit " (ID: " ++ py_format cid ++ lit ")"] in
  let* assignments := assignments_of assignments_by_course cid in
  let* lines := for_list text_row assignments lines in
  Ok (lines ++ [lit ""]).

Definition render_text `{DateLib} (title : str) (courses : list Json)
    (assignments_by_course : assignments_dict) : outcome str :=
  let* lines :=
    for_list (text_course assignments_by_course) courses [title; lit ""] in
  Ok (join newline lines).

Definition csv_header : str := "course_id,course_name,assignment,due_date".

Definition csv_row `{DateLib} (cid : Json) (cname : str) (rows : list str)
    (a : Json) : outcome (list str) :=
  let* due := due_str a in
  let* name := assignment_name a in
  let aname := replace_char "," " " name in
  Ok (rows ++ [py_format cid ++ lit "," ++ cname ++ lit "," ++ aname
                 ++ lit "," ++ due]).

Definition csv_course `{DateLib} (assignments_by_course : assignments_dict)
    (rows : list str) (course : Json) : outcome (list str) :=
  let* cid := py_index course "id" in
  let* name := py_get_none course "name" in
  let* cleaned := clean_course_name_of name in
  let cname := replace_char "," " " cleaned in
  let* assignments := assignments_of assignments_by_course cid in
  for_list (csv_row cid cname) assignments rows.

(** The list [rows] of [render_csv] when its loop ends. *)
Definition csv_rows `{DateLib} (courses : list Json)
    (assignments_by_course : assignments_dict) : outcome (list str) :=
  for_list (csv_course assignments_by_course) courses [csv_header].

Definition render_csv `{DateLib} (title : str) (courses : list Json)
    (assignments_by_course : assignments_dict) : outcome str :=
  let* rows := csv_rows courses assignments_by_course in
  Ok (join newline rows).

(** *** A date library for the examples

    It reads the timestamps written in UTC, as the upstream API writes
    them once [Z] is replaced: [YYYY-MM-DDTHH:MM:SS+00:00].  Other strings
    are not parsed by this instance. *)

Definition two_digits (a b : ascii) : option Z :=
  if is_digit a && is_digit b then Some (10 * (code a - 48) + (code b - 48))
  else None.

Definition is_leap (y : Z) : bool :=
  (y mod 4 =? 0) && (negb (y mod 100 =? 0) || (y mod 400 =? 0)).

Definition days_in_month (y m : Z) : Z :=
  if m =? 2 then (if is_leap y then 29 else 28)
  else if (m =? 4) || (m =? 6) || (m =? 9) || (m =? 11) then 30
  else 31.

Definition utc_timestamp (s : str) : option datetime :=
  match s with
  | [y1; y2; y3; y4; d1; m1; m2; d2; a1; a2; sep;
     h1; h2; c1; n1; n2; c2; s1; s2; p; z1; z2; c3; z3; z4] =>
      y12 ← two_digits y1 y2; y34 ← two_digits y3 y4;
      mo ← two_digits m1 m2; da ← two_digits a1 a2;
      ho ← two_digits h1 h2; mi ← two_digits n1 n2; se ← two_digits s1 s2;
      let y := 100 * y12 + y34 in
      if str_eqb [d1; d2; sep; c1; c2; p; z1; z2; c3; z3; z4] "--T::+00:00"
         && (1 <=? y) && (1 <=? mo) && (mo <=? 12)
         && (1 <=? da) && (da <=? days_in_month y mo)
         && (ho <=? 23) && (mi <=? 59) && (se <=? 59)
      then Some (mk_datetime y mo da ho mi se 0)
      else None
  | _ => None
  end.

Definition utc_dates : DateLib := {| fromisoformat_utc := utc_timestamp |}.

(** ** Vocabulary of the statements *)

(** The body of a [for] loop run over the items of one page. *)
Fixpoint fold_items {A} (body : A -> Json -> outcome (flow A)) (acc : A)
    (items : list Json) : outcome (flow A) :=
  match items with
  | [] => Ok (Continue acc)
  | item :: rest =>
      match body acc item with
      | Raise e => Raise e
      | Ok (Break a) => Ok (Break a)
      | Ok (Continue a) => fold_items body a rest
      end
  end.

(** The requests and sleeps of [n] backoff retries that start with the
    counter at [attempt], up to the request that ends them. *)
Fixpoint backoff_log (url : str) (query : option params) (timeout : Z)
    (attempt : Z) (n : nat) : list event :=
  match n with
  | O => [EGet url query timeout]
  | S n' =>
      EGet url query timeout :: ESleep (2 ^ attempt)
      :: backoff_log url query timeout (attempt + 1) n'
  end.

(** What a 429 response makes the call raise, if anything: the
    [ValueError] of [int] on a header that is not an integer, or the
    exception of [time.sleep] on the integer. *)
Definition retry_after_error `{Host} (resp : response) : option exn :=
  match retry_after resp with
  | Some n => sleep_error n
  | None => Some ValueError
  end.

(** A 429 response whose [Retry-After] can be slept: an integer that is
    not negative, within the range of the time type and of the host
    clock. *)
Definition rate_limited `{Host} (resp : response) : bool :=
  (status_code resp =? 429) &&
  match retry_after_error resp with
  | None => true
  | Some _ => false
  end.

(** The requests and sleeps that a run of [rate_limited] responses costs. *)
Definition rate_limit_log (url : str) (query : option params) (timeout : Z)
    (rs : list response) : list event :=
  flat_map (fun r => [EGet url query timeout;
                      ESleep (default 0 (retry_after r))]) rs.

(** A response that ends [_get_with_retries] at any value of the counter. *)
Definition final_response (resp : response) : bool :=
  negb (status_code resp =? 429) && negb (is_transient (status_code resp)).

(** The delay as the specification words it: the header when it is a
    number, 3 seconds when it is missing or cannot be read. *)
Definition spec_retry_delay (resp : response) : Z :=
  match header_get "Retry-After" (resp_headers resp) with
  | Some v => default 3 (py_int v)
  | None => 3
  end.

(** A response that [paginate] takes as a page. *)
Definition good_page (r : response) : bool :=
  resp_ok r && match resp_json r with Some _ => true | None => false end.

(** The items of a page, in the order of the body. *)
Definition resp_items (r : response) : list Json :=
  match resp_json r with
  | Some data => page_items data
  | None => []
  end.

Definition next_url (r : response) : option str :=
  next_link_from_headers (resp_headers r).

(** A page with a link to the next one. *)
Definition continuing (r : response) : bool :=
  good_page r && url_truthy (next_url r).

(** Pages 1 to N: each but the last links to the next, the last links
    nowhere. *)
Fixpoint pages_linked (rs : list response) : bool :=
  match rs with
  | [] => false
  | r :: rs' =>
      match rs' with
      | [] => good_page r && negb (url_truthy (next_url r))
      | _ :: _ => continuing r && pages_linked rs'
      end
  end.

(** The requests that follow the links of the pages. *)
Definition next_requests (rs : list response) : list event :=
  flat_map (fun r => if url_truthy (next_url r)
                     then [EGet (default [] (next_url r)) None default_timeout]
                     else []) rs.

(** Whether the term filter keeps a record, and whether it can be applied
    to it at all. *)
Definition keeps (term_sub : str) (c : Json) : bool :=
  match term_matches term_sub c with
  | Ok hit => hit
  | Raise _ => false
  end.

Definition filterable (term_sub : str) (c : Json) : bool :=
  match term_matches term_sub c with
  | Ok _ => true
  | Raise _ => false
  end.

(** The course listing as the specification words it: the records of a
    page are all filtered, and the limit is looked at when the page is
    done. *)
Definition filter_step (term_sub : str) (matches : list Json) (c : Json)
    : outcome (list Json) :=
  let* hit := term_matches term_sub c in
  Ok (if hit then matches ++ [c] else matches).

Fixpoint page_checked_loop `{Host} (fuel : nat) (term_sub : str)
    (max_courses : Z)
    (url : option str) (query : option params) (matches : list Json)
    (w : world) : outcome (list Json) * world :=
  if url_truthy url then
    match fuel with
    | O => (Raise NoResponse, w)
    | S fuel' =>
        match _get_with_retries (default [] url) query
                default_max_retries default_timeout w with
        | (Raise e, w') => (Raise e, w')
        | (Ok resp, w') =>
            if resp_ok resp then
              match resp_json resp with
              | None => (Raise JSONDecodeError, w')
              | Some data =>
                  match for_list (filter_step term_sub) (page_items data)
                          matches with
                  | Raise e => (Raise e, w')
                  | Ok matches' =>
                      if Z.of_nat (length matches') >=? max_courses
                      then (Ok matches', w')
                      else page_checked_loop fuel' term_sub max_courses
                             (next_link_from_headers (resp_headers resp))
                             None matches' w'
                  end
              end
            else (Raise (HTTPError (status_code resp)), w')
        end
    end
  else (Ok matches, w).

Definition list_courses_page_checked `{Host} (base_url endpoint term_sub : str)
    (max_courses : Z) (w : world) : outcome (list Json) * world :=
  page_checked_loop (S (length (script w))) term_sub max_courses
    (Some (base_url ++ endpoint)) (Some course_query) [] w.

(** Sample data for the examples. *)
Definition link_next (u : str) : headers :=
  [(lit "Link", lit "<" ++ u ++ lit ">; " ++ rel_next)].

Definition course_in (id : Z) (term : str) : Json :=
  JObj [(lit "id", JNum id); (lit "term", JObj [(lit "name", JStr term)])].

(** The two endpoints in the order [source] gives them. *)
Definition first_endpoint (source : str) : str :=
  if str_eqb source "courses" then ep_courses else ep_self_courses.

Definition second_endpoint (source : str) : str :=
  if str_eqb source "courses" then ep_self_courses else ep_courses.

(** Assignments as the sorter sees them. *)
Definition is_obj (a : Json) : bool :=
  match a with
  | JObj _ => true
  | _ => false
  end.

(** The due date of an assignment, when it has one that parses. *)
Definition due_of `{DateLib} (a : Json) : option datetime :=
  match a with
  | JObj fields => parse_iso8601 (default JNull (fields_get "due_at" fields))
  | _ => None
  end.

Definition key_of `{DateLib} (a : Json) : sort_key :=
  match due_of a with
  | Some due => (0, due)
  | None => (1, datetime_max)
  end.

#[global] Instance datetime_eq_dec : EqDecision datetime.
Proof. solve_decision. Defined.

(** [d1 <= d2] on dates. *)
Definition dt_leb (d1 d2 : datetime) : bool := negb (dt_ltb d2 d1).

Definition has_key `{DateLib} (k : sort_key) (a : Json) : bool :=
  bool_decide (key_of a = k).

(** A key as the sequence that the comparison goes through. *)
Definition key_list (k : sort_key) : list Z := fst k :: dt_fields (snd k).

(** Not greater, on items with their keys. *)
Definition keyed_le {A} (x y : sort_key * A) : Prop :=
  key_ltb (fst y) (fst x) = false.

(** The assignments with their keys. *)
Definition decorate `{DateLib} (l : list Json) : list (sort_key * Json) :=
  map (fun a => (key_of a, a)) l.

Definition assignment (name : str) (due_at : Json) : Json :=
  JObj [(lit "name", JStr name); (lit "due_at", due_at)].

(** Number of leading characters of a class. *)
Fixpoint run_length (p : ascii -> bool) (s : str) : nat :=
  match s with
  | c :: s' => if p c then S (run_length p s') else O
  | [] => O
  end.

Definition head_space (s : str) : bool :=
  match s with
  | c :: _ => is_space c
  | [] => false
  end.

(** No two blanks in a row. *)
Definition single_spaced (s : str) : Prop :=
  forall s1 a b s2, s = s1 ++ a :: b :: s2 ->
    is_space a = true -> is_space b = true -> False.

(** Number of occurrences of a character. *)
Definition count_char (c : ascii) (s : str) : nat :=
  length (List.filter (Ascii.eqb c) s).


(** A course whose [id] is an integer, as the data model has it. *)
Definition has_int_id (course : Json) : bool :=
  match py_index course "id" with
  | Ok (JNum _) => true
  | _ => false
  end.




(** The line of an assignment in the text output. *)
Definition text_line (aname due : str) : str :=
  lit "- " ++ dquote ++ aname ++ dquote ++ lit " | Due: " ++ due.

(** ** More of the script *)

(** *** Vocabulary of the further statements *)

(** A response that [_get_with_retries] may answer with a sleep and a new
    request. *)
Definition retried (resp : response) : bool :=
  (status_code resp =? 429) || is_transient (status_code resp).

Definition is_get (e : event) : bool :=
  match e with
  | EGet _ _ _ => true
  | ESleep _ => false
  end.

Definition is_sleep (e : event) : bool := negb (is_get e).

(** An event of a call for [url], [query] and [timeout]: that very request,
    or a sleep that is not negative. *)
Definition event_of_call (url : str) (query : option params) (timeout : Z)
    (e : event) : Prop :=
  match e with
  | EGet u q t => u = url /\ q = query /\ t = timeout
  | ESleep s => 0 <= s
  end.

(** A course record without a term name: no [term], a falsy one, or a
    term object without [name]. *)
Definition no_term_name (fields : list (str * Json)) : bool :=
  match fields_get "term" fields with
  | None => true
  | Some t =>
      if truthy t then
        match t with
        | JObj tf => match fields_get "name" tf with None => true | Some _ => false end
        | _ => false
        end
      else true
  end.

(** Pages that come after rate-limited responses: each page with the 429
    responses that precede it. *)
Definition script_with_waits (pps : list (list response * response))
    : list response :=
  flat_map (fun pp => fst pp ++ [snd pp]) pps.

(** The log of a walk through such pages from [url]. *)
Fixpoint walk_log (url : str) (query : option params)
    (pps : list (list response * response)) : list event :=
  match pps with
  | [] => []
  | (qs, p) :: rest =>
      rate_limit_log url query default_timeout qs
      ++ EGet url query default_timeout
      :: walk_log (default [] (next_url p)) None rest
  end.

(** The request that follows a run of linked pages. *)
Fixpoint after_pages (url : str) (query : option params)
    (done : list response) : str * option params :=
  match done with
  | [] => (url, query)
  | d :: rest => after_pages (default [] (next_url d)) None rest
  end.

(** ** Assignments of a course *)

(** ["published" in a]: a key of a dict, an element of a list, a part of a
    string.  Other values have no [in]. *)
Definition has_published (a : Json) : outcome bool :=
  match a with
  | JObj fields =>
      Ok (match fields_get "published" fields with
          | Some _ => true
          | None => false
          end)
  | JList items =>
      Ok (existsb (fun x => match x with
                            | JStr s => str_eqb s "published"
                            | _ => false
                            end) items)
  | JStr s => Ok (contains "published" s)
  | JNull | JBool _ | JNum _ => Raise TypeError
  end.

(** The body of the loop of [list_assignments]. *)
Definition assignment_step (items : list Json) (a : Json)
    : outcome (flow (list Json)) :=
  let* listed := has_published a in
  if listed then
    let* published := py_get a "published" in
    if truthy (default (JBool false) published)
    then Ok (Continue (items ++ [a]))
    else Ok (Continue items)
  else Ok (Continue (items ++ [a])).

Definition assignments_query : params := [(lit "per_page", lit "100")].

Definition assignments_url (base_url : str) (course_id : Z) : str :=
  base_url ++ lit "/api/v1/courses/" ++ str_of_int course_id
           ++ lit "/assignments".

Definition list_assignments `{Host} (base_url : str) (course_id : Z)
    (w : world) : outcome (list Json) * world :=
  for_each assignment_step
    (paginate (assignments_url base_url course_id) assignments_query) [] w.

(** ** The loop of [main] over the courses *)

(** One element of the list [trimmed]: the three items of the dict display
    are evaluated in the order they are written. *)
Definition trimmed_assignment (a : Json) : outcome Json :=
  let* name := assignment_name a in
  let* due_at := py_get_none a "due_at" in
  let* published := py_get a "published" in
  Ok (JObj [(lit "name", JStr name);
            (lit "due_at", due_at);
            (lit "published", default (JBool true) published)]).

(** The body of the loop for a course of integer id: what is stored in
    [assignments_by_course] under that id.  The message that line 230
    prints on the standard error is not part of the model. *)
Definition course_assignments `{Host} `{DateLib} (base_url : str)
    (cid : Z) (w : world) : outcome (list Json) * world :=
  let '(r, w1) := list_assignments base_url cid w in
  (let* all_as :=
     match r with
     | Ok items => Ok items
     | Raise (HTTPError _) => Ok []
     | Raise e => Raise e
     end in
   let* trimmed := map_outcome trimmed_assignment all_as in
   sort_assignments trimmed,
   w1).

(** *** Vocabulary *)

(** An assignment that [list_assignments] keeps: a dict without
    [published], or with a true one. *)
Definition visible (a : Json) : bool :=
  match a with
  | JObj fields =>
      match fields_get "published" fields with
      | Some v => truthy v
      | None => true
      end
  | _ => false
  end.

(** A record as line 231 builds it. *)
Definition is_trimmed (a : Json) : bool :=
  match a with
  | JObj [(k1, JStr name); (k2, _); (k3, _)] =>
      str_eqb k1 "name" && str_eqb k2 "due_at" && str_eqb k3 "published"
      && str_eqb (strip name) name
  | _ => false
  end.

(** The name that the renderers show for a record of [trimmed]. *)
Definition shown_name (name : str) : str :=
  match name with
  | [] => "Untitled"
  | _ => name
  end.

(** The record of an assignment from which one can be built. *)
Definition trimmed_or_same (a : Json) : Json :=
  match trimmed_assignment a with
  | Ok t => t
  | Raise _ => a
  end.

(** ** The Markdown and HTML renderers *)

Definition backslash : str := [chr 92].

Definition md_row `{DateLib} (lines : list str) (a : Json)
    : outcome (list str) :=
  let* due := due_str a in
  let* name := assignment_name a in
  let aname := replace_char "|" (backslash ++ lit "|") name in
  Ok (lines ++ [lit "| " ++ aname ++ lit " | " ++ due ++ lit " |"]).

Definition md_course `{DateLib} (assignments_by_course : assignments_dict)
    (lines : list str) (course : Json) : outcome (list str) :=
  let* cid := py_index course "id" in
  let* name := py_get_none course "name" in
  let* cname := clean_course_name_of name in
  let lines :=
    lines ++ [lit "## Course: " ++ cname ++ lit " (ID: " ++ py_format cid ++ lit ")";
              lit "| Assignment | Due |";
              lit "|---|---|"] in
  let* assignments := assignments_of assignments_by_course cid in
  let* lines := for_list md_row assignments lines in
  Ok (lines ++ [lit ""]).

Definition render_md `{DateLib} (title : str) (courses : list Json)
    (assignments_by_course : assignments_dict) : outcome str :=
  let* lines :=
    for_list (md_course assignments_by_course) courses
      [lit "# " ++ title; lit ""] in
  Ok (join newline lines).

(** [html.escape(s)], with [quote=True]: five replacements, the ampersand
    first. *)
Definition html_escape (s : str) : str :=
  let s := replace_char "&" "&amp;" s in
  let s := replace_char "<" "&lt;" s in
  let s := replace_char ">" "&gt;" s in
  let s := replace_char (chr 34) "&quot;" s in
  replace_char "'" "&#x27;" s.

(** The first element of [parts]: the head of the document, with the
    title twice. *)
Definition html_head (title : str) : str :=
  join newline
    [lit "<!doctype html>";
     lit "<html><head><meta charset=" ++ dquote ++ lit "utf-8" ++ dquote ++ lit ">";
     lit "<title>" ++ html_escape title ++ lit "</title>";
     lit "<style>";
     lit "body{font-family:system-ui,-apple-system,Segoe UI,Roboto,Helvetica,Arial,sans-serif; margin:24px; color:#111}";
     lit "h1{font-size:24px; margin:0 0 16px}";
     lit "h2{font-size:18px; margin:24px 0 8px}";
     lit "table{border-collapse:collapse; width:100%; margin-bottom:12px}";
     lit "th,td{border:1px solid #ddd; padding:8px; vertical-align:top}";
     lit "th{background:#f7f7f7; text-align:left}";
     lit ".muted{color:#666; font-style:italic}";
     lit ".container{max-width:960px; margin:0 auto}";
     lit "</style></head><body><div class=" ++ dquote ++ lit "container"
       ++ dquote ++ lit ">";
     lit "<h1>" ++ html_escape title ++ lit "</h1>";
     lit ""].

Definition html_table_open : str :=
  "<table><thead><tr><th>Assignment</th><th>Due</th></tr></thead><tbody>".

Definition html_table_close : str := "</tbody></table>".

Definition html_foot : str := "</div></body></html>".

Definition html_row `{DateLib} (parts : list str) (a : Json)
    : outcome (list str) :=
  let* due := due_str a in
  let* aname := assignment_name a in
  Ok (parts ++ [lit "<tr><td>" ++ html_escape aname ++ lit "</td><td>"
                  ++ html_escape due ++ lit "</td></tr>"]).

Definition html_course `{DateLib} (assignments_by_course : assignments_dict)
    (parts : list str) (course : Json) : outcome (list str) :=
  let* cid := py_index course "id" in
  let* name := py_get_none course "name" in
  let* cname := clean_course_name_of name in
  let parts :=
    parts ++ [lit "<h2>Course: " ++ html_escape cname ++ lit " (ID: "
                ++ py_format cid ++ lit ")</h2>";
              html_table_open] in
  let* assignments := assignments_of assignments_by_course cid in
  let* parts := for_list html_row assignments parts in
  Ok (parts ++ [html_table_close]).

Definition render_html `{DateLib} (title : str) (courses : list Json)
    (assignments_by_course : assignments_dict) : outcome str :=
  let* parts :=
    for_list (html_course assignments_by_course) courses [html_head title] in
  Ok (concat (parts ++ [html_foot])).

Definition build_output `{DateLib} (fmt title : str) (courses : list Json)
    (assignments_by_course : assignments_dict) : outcome str :=
  if str_eqb fmt "md" then render_md title courses assignments_by_course
  else if str_eqb fmt "html" then render_html title courses assignments_by_course
  else if str_eqb fmt "csv" then render_csv title courses assignments_by_course
  else render_text title courses assignments_by_course.

(** *** Vocabulary *)

(** The assignments shown for a course whose id is an integer. *)
Definition course_rows (assignments_by_course : assignments_dict)
    (course : Json) : nat :=
  match py_index course "id" with
  | Ok (JNum n) => length (default [] (assignments_by_course !! KInt n))
  | _ => O
  end.

Definition total_rows (assignments_by_course : assignments_dict)
    (courses : list Json) : nat :=
  sum_list_with (course_rows assignments_by_course) courses.

(** What every renderer asks of the data, in the order in which it asks:
    the lookups of a row, of a course, of all the courses. *)
Definition row_ok `{DateLib} (a : Json) : outcome unit :=
  let* _ := due_str a in
  let* _ := assignment_name a in
  Ok tt.

Definition course_ok `{DateLib} (assignments_by_course : assignments_dict)
    (course : Json) : outcome unit :=
  let* cid := py_index course "id" in
  let* name := py_get_none course "name" in
  let* _ := clean_course_name_of name in
  let* assignments := assignments_of assignments_by_course cid in
  for_list (fun _ a => row_ok a) assignments tt.

Definition data_ok `{DateLib} (courses : list Json)
    (assignments_by_course : assignments_dict) : outcome unit :=
  for_list (fun _ c => course_ok assignments_by_course c) courses tt.

(** Two computations that both return, or raise the same exception. *)
Definition same_fate {A B} (x : outcome A) (y : outcome B) : Prop :=
  match x, y with
  | Ok _, Ok _ => True
  | Raise e1, Raise e2 => e1 = e2
  | _, _ => False
  end.

(** The characters that open or close a tag or an attribute value. *)
Definition is_markup (c : ascii) : bool :=
  Ascii.eqb c "<" || Ascii.eqb c ">" || Ascii.eqb c (chr 34) || Ascii.eqb c "'".

(** What the markup of the document holds of a character: the head and
    the foot, then so much for a course and so much for a row. *)
Definition markup_count (c : ascii) (ncourses nrows : nat) : nat :=
  (count_char c (html_head []) + count_char c html_foot
   + ncourses * (count_char c (lit "<h2>Course:  (ID: )</h2>")
                 + count_char c html_table_open
                 + count_char c html_table_close)
   + nrows * count_char c (lit "<tr><td></td><td></td></tr>"))%nat.

(** ** The session and the courses given by id *)

(** [s.rstrip(chars)] *)
Definition rstrip_chars (chars s : str) : str :=
  rev (lstrip_by (fun c => existsb (Ascii.eqb c) chars) (rev s)).

(** The session as the script uses it: the headers that [build_session]
    sets over those of the library, and the attribute [base_url]. *)
Record session : Type := mk_session {
  session_headers : list (str * str);
  base_url : str
}.

Definition build_session (url token : str) : session :=
  {| session_headers :=
       [(lit "Authorization", lit "Bearer " ++ token);
        (lit "Accept", lit "application/json");
        (lit "User-Agent", lit "canvas-assignments-script/1.2")];
     base_url := rstrip_chars "/" url |}.

(** [l[:n]] *)
Definition py_slice_to {A} (l : list A) (n : Z) : list A :=
  if 0 <=? n then take (Z.to_nat n) l
  else take (length l - Z.to_nat (- n)) l.

Definition course_url (base : str) (cid : Z) : str :=
  base ++ lit "/api/v1/courses/" ++ str_of_int cid.

Definition course_params : params := [(lit "include[]", lit "term")].

(** The loop of [main] over the ids of [--courses] (lines 212 to 216).
    The messages on the standard error are not part of the model. *)
Fixpoint fetch_courses `{Host} (base : str) (ids : list Z)
    (courses : list Json) (w : world) : outcome (list Json) * world :=
  match ids with
  | [] => (Ok courses, w)
  | cid :: ids' =>
      match _get_with_retries (course_url base cid) (Some course_params)
              default_max_retries default_timeout w with
      | (Raise e, w') => (Raise e, w')
      | (Ok r, w') =>
          if resp_ok r then
            match resp_json r with
            | Some data => fetch_courses base ids' (courses ++ [data]) w'
            | None => (Raise JSONDecodeError, w')
            end
          else fetch_courses base ids' courses w'
      end
  end.

(** Lines 211 to 216: the courses of the first [max] ids. *)
Definition courses_by_id `{Host} (s : session) (ids : list Z) (max : Z)
    (w : world) : outcome (list Json) * world :=
  fetch_courses (base_url s) (py_slice_to ids max) [] w.

(** *** Vocabulary *)

(** What a response to the request for one course adds to [courses]. *)
Definition fetched (r : response) : list Json :=
  if resp_ok r then match resp_json r with Some data => [data] | None => [] end
  else [].

(** A response that the loop over the ids takes as it comes: final, and
    with a body when it is a success. *)
Definition answer (r : response) : bool :=
  final_response r && (negb (resp_ok r) || good_page r).

(** The class of characters that [rstrip("/")] drops. *)
Definition is_slash (c : ascii) : bool := existsb (Ascii.eqb c) (lit "/").

(** ** A host for the examples

    Its clock takes a sleep of up to 9 000 000 000 seconds.  The closed
    examples of the development run on it; the theorems hold for every
    host. *)
#[global] Instance example_host : Host.
Proof.
  refine {| clock_accepts := fun s => s <=? 9000000000 |}.
  intros s Hs. apply Z.leb_le. lia.
Defined.

(** * Properties *)

(** ** Transport *)

Section Transport.
Context `{host : Host}.
Variables (url : str) (query : option params) (max_retries timeout : Z).

Lemma sleep_ok (n : Z) (lg : list event) :
  sleep_error n = None -> time_sleep n lg = Ok (lg ++ [ESleep n]).
Proof. intros Hn. unfold time_sleep. by rewrite Hn. Qed.

(** A sleep that is taken is not negative. *)
Lemma sleep_error_none (n : Z) : sleep_error n = None -> 0 <= n.
Proof.
  intros Hn. destruct (Z.ltb_spec n 0) as [Hneg|Hpos]; [|lia]. exfalso.
  unfold sleep_error in Hn. destruct (_ || _); [done|].
  destruct (Z.ltb_spec n 0); [done | lia].
Qed.

(** Every host takes the sleeps of a day at most. *)
Lemma sleep_error_day (n : Z) : 0 <= n <= 86400 -> sleep_error n = None.
Proof.
  intros Hn. unfold sleep_error.
  destruct (Z.ltb_spec n (- sleep_overflow));
    [unfold sleep_overflow in *; lia|].
  destruct (Z.ltb_spec sleep_overflow n);
    [unfold sleep_overflow in *; lia|].
  cbn [orb].
  destruct (Z.ltb_spec n 0); [lia|]. by rewrite clock_accepts_day.
Qed.

(** The backoff sleeps of the first sixteen retries are taken. *)
Lemma sleep_error_backoff (attempt : Z) :
  0 <= attempt <= 16 -> sleep_error (2 ^ attempt) = None.
Proof.
  intros Ha. apply sleep_error_day. split; [apply Z.pow_nonneg; lia|].
  transitivity (2 ^ 16); [apply Z.pow_le_mono_r; lia | done].
Qed.

(** One turn of the loop on a 429 response. *)
Lemma retry_loop_rate_limited attempt resp rest lg n :
  status_code resp = 429 -> retry_after resp = Some n ->
  sleep_error n = None ->
  retry_loop url query max_retries timeout attempt (resp :: rest) lg =
  retry_loop url query max_retries timeout (attempt + 1) rest
    (lg ++ [EGet url query timeout; ESleep n]).
Proof.
  intros Hs Hr Hn. cbn [retry_loop].
  rewrite Hs, Z.eqb_refl, Hr, sleep_ok by assumption.
  by rewrite <- app_assoc.
Qed.

(** One turn of the loop on a 5xx response, retries left. *)
Lemma retry_loop_transient attempt resp rest lg :
  is_transient (status_code resp) = true ->
  0 <= attempt < max_retries -> max_retries <= 16 ->
  retry_loop url query max_retries timeout attempt (resp :: rest) lg =
  retry_loop url query max_retries timeout (attempt + 1) rest
    (lg ++ [EGet url query timeout; ESleep (2 ^ attempt)]).
Proof.
  intros Ht Ha Hm. cbn [retry_loop].
  destruct (Z.eqb_spec (status_code resp) 429) as [E|_].
  { rewrite E in Ht. discriminate. }
  rewrite Ht.
  destruct (Z.geb_spec attempt max_retries); [lia|].
  rewrite sleep_ok by (apply sleep_error_backoff; lia).
  by rewrite <- app_assoc.
Qed.

(** The response that ends the loop. *)
Lemma retry_loop_returns attempt resp rest lg :
  status_code resp <> 429 ->
  is_transient (status_code resp) = false \/ max_retries <= attempt ->
  retry_loop url query max_retries timeout attempt (resp :: rest) lg =
  (Ok resp, mk_world rest (lg ++ [EGet url query timeout])).
Proof.
  intros Hs Hf. cbn [retry_loop].
  destruct (Z.eqb_spec (status_code resp) 429); [done|].
  destruct (is_transient (status_code resp)); [|done].
  destruct Hf as [?|Hm]; [done|].
  destruct (Z.geb_spec attempt max_retries); [done | lia].
Qed.

Lemma transient_not_429 resp :
  is_transient (status_code resp) = true -> status_code resp <> 429.
Proof. intros H E. rewrite E in H. discriminate. Qed.

(** A run of 5xx responses that the counter allows to retry, then the
    response that ends the call. *)
Lemma retry_loop_backoff rs : forall attempt r rest lg,
  0 <= attempt -> max_retries <= 16 ->
  forallb (fun x => is_transient (status_code x)) rs = true ->
  rs = [] \/ attempt + Z.of_nat (length rs) <= max_retries ->
  status_code r <> 429 ->
  is_transient (status_code r) = false
    \/ max_retries <= attempt + Z.of_nat (length rs) ->
  retry_loop url query max_retries timeout attempt (rs ++ r :: rest) lg =
  (Ok r, mk_world rest
           (lg ++ backoff_log url query timeout attempt (length rs))).
Proof.
  induction rs as [|x rs IH];
    intros attempt r rest lg Ha Hm Hrs Hlen Hr Hend.
  - cbn [app length backoff_log]. apply retry_loop_returns; [done|].
    destruct Hend; [by left | right; cbn in *; lia].
  - cbn [forallb] in Hrs. apply andb_prop in Hrs as [Hx Hrs].
    destruct Hlen as [|Hlen]; [done|].
    cbn [app length backoff_log] in *. rewrite Nat2Z.inj_succ in *.
    rewrite retry_loop_transient by (done || lia).
    rewrite IH by (done || lia || (destruct Hend; [by left | right; lia])).
    by rewrite <- app_assoc.
Qed.

(** A run of 429 responses of any length leaves the loop where it was,
    the counter apart. *)
Lemma retry_loop_rate_limits qs : forall attempt rest lg,
  forallb rate_limited qs = true ->
  retry_loop url query max_retries timeout attempt (qs ++ rest) lg =
  retry_loop url query max_retries timeout
    (attempt + Z.of_nat (length qs)) rest
    (lg ++ rate_limit_log url query timeout qs).
Proof.
  induction qs as [|q qs IH]; intros attempt rest lg Hqs.
  - cbn. by rewrite Z.add_0_r, app_nil_r.
  - cbn [forallb] in Hqs. apply andb_prop in Hqs as [Hq Hqs].
    unfold rate_limited, retry_after_error in Hq.
    apply andb_prop in Hq as [Hs Hn]. apply Z.eqb_eq in Hs.
    destruct (retry_after q) as [n|] eqn:Hra; [|done].
    destruct (sleep_error n) eqn:Hn'; [done|].
    cbn [app length]. rewrite (retry_loop_rate_limited _ _ _ _ n) by done.
    rewrite IH by done. unfold rate_limit_log. cbn [flat_map].
    rewrite Hra. cbn [default]. rewrite <- app_assoc.
    replace (attempt + Z.of_nat (S (length qs)))
      with (attempt + 1 + Z.of_nat (length qs)) by lia.
    done.
Qed.
End Transport.

(** C2. A run of 5xx responses is retried after sleeps of 1, 2, 4 and 8
    seconds, the counter starting at 0.  The call ends with the first
    response that is not a 5xx (nor a 429), and with the fifth response in
    a row whatever its status: after four retries a 5xx response is
    returned, not raised. *)
Theorem get_with_retries_5xx_backoff `{host : Host} (url : str)
    (query : option params) (rs : list response) (r : response)
    (rest : list response) (lg : list event) :
  forallb (fun x => is_transient (status_code x)) rs = true ->
  (length rs <= 4)%nat ->
  status_code r <> 429 ->
  is_transient (status_code r) = false \/ length rs = 4%nat ->
  _get_with_retries url query default_max_retries default_timeout
    (mk_world (rs ++ r :: rest) lg) =
  (Ok r, mk_world rest
           (lg ++ backoff_log url query default_timeout 0 (length rs))).
Proof.
  intros Hrs Hlen Hr Hend. unfold _get_with_retries. cbn [script log].
  apply retry_loop_backoff; unfold default_max_retries; try done.
  - right. lia.
  - destruct Hend; [by left | right; lia].
Qed.

(** Five 503 responses in a row: the fifth is returned. *)
Lemma five_503_returned :
  let r := mk_response 503 [] None in
  _get_with_retries "https://canvas/api/v1/courses/7" None 4 20
    (mk_world [r; r; r; r; r] []) =
  (Ok r, mk_world []
     [EGet "https://canvas/api/v1/courses/7" None 20; ESleep 1;
      EGet "https://canvas/api/v1/courses/7" None 20; ESleep 2;
      EGet "https://canvas/api/v1/courses/7" None 20; ESleep 4;
      EGet "https://canvas/api/v1/courses/7" None 20; ESleep 8;
      EGet "https://canvas/api/v1/courses/7" None 20]).
Proof.
  intros r.
  apply (get_with_retries_5xx_backoff "https://canvas/api/v1/courses/7" None
           [r; r; r; r] r [] []).
  - reflexivity.
  - cbn. lia.
  - cbn. lia.
  - right. reflexivity.
Defined.

(** The claim of C3 fails on a header that is not a number: the call
    raises where the specification has it sleep 3 seconds and go on. *)
Lemma retry_after_unreadable_raises :
  let q := mk_response 429 [(lit "Retry-After", lit "soon")] None in
  let r := mk_response 200 [] None in
  spec_retry_delay q = 3 /\
  _get_with_retries "u" None 4 20 (mk_world [q; r] []) =
    (Raise ValueError, mk_world [r] [EGet "u" None 20]) /\
  _get_with_retries "u" None 4 20 (mk_world [q; r] []) <>
    (Ok r, mk_world []
       [EGet "u" None 20; ESleep (spec_retry_delay q); EGet "u" None 20]).
Proof. cbv zeta. split; [|split]; [reflexivity | reflexivity | discriminate]. Qed.

(** C3, amended. 429 responses are retried without a cap: whatever their
    number, each costs the same request again after a sleep of the seconds
    in [Retry-After], 3 seconds when the header is missing, as long as
    [time.sleep] takes the number, which it does up to a day at least.
    Another 429 response makes the call raise: [ValueError] when the
    header is not an integer or is negative, [OverflowError] when it is
    beyond what the time type holds, [OSError] when the host clock refuses
    it. *)
Theorem rate_limit_retries `{host : Host} (url : str) (query : option params)
    (qs : list response) (r : response) (rest : list response)
    (lg : list event) :
  forallb rate_limited qs = true ->
  status_code r <> 429 ->
  (is_transient (status_code r) = false ->
   _get_with_retries url query default_max_retries default_timeout
     (mk_world (qs ++ r :: rest) lg) =
   (Ok r, mk_world rest
            (lg ++ rate_limit_log url query default_timeout qs
                ++ [EGet url query default_timeout])))
  /\ (forall q, header_get "Retry-After" (resp_headers q) = None ->
       retry_after q = Some 3)
  /\ (forall q v, header_get "Retry-After" (resp_headers q) = Some v ->
       retry_after q = py_int v)
  /\ (forall q n, status_code q = 429 -> retry_after q = Some n ->
       0 <= n <= 86400 -> rate_limited q = true)
  /\ (forall q e, status_code q = 429 -> retry_after_error q = Some e ->
       _get_with_retries url query default_max_retries default_timeout
         (mk_world (qs ++ q :: rest) lg) =
       (Raise e,
        mk_world rest
          (lg ++ rate_limit_log url query default_timeout qs
              ++ [EGet url query default_timeout])))
  /\ (forall q, retry_after q = None ->
       retry_after_error q = Some ValueError)
  /\ (forall q n, retry_after q = Some n -> - sleep_overflow <= n < 0 ->
       retry_after_error q = Some ValueError)
  /\ (forall q n, retry_after q = Some n ->
       n < - sleep_overflow \/ sleep_overflow < n ->
       retry_after_error q = Some OverflowError)
  /\ (forall q n, retry_after q = Some n -> 0 <= n <= sleep_overflow ->
       clock_accepts n = false -> retry_after_error q = Some OSError).
Proof.
  intros Hqs Hr.
  split; [|split; [|split; [|split; [|split; [|split; [|split; [|split]]]]]]].
  - intros Hf. unfold _get_with_retries. cbn [script log].
    rewrite retry_loop_rate_limits by done.
    rewrite retry_loop_returns by (done || by left).
    by rewrite <- app_assoc.
  - intros q Hq. unfold retry_after. by rewrite Hq.
  - intros q v Hq. unfold retry_after. by rewrite Hq.
  - intros q n Hs Hq Hn. unfold rate_limited, retry_after_error.
    by rewrite Hs, Hq, sleep_error_day.
  - intros q e Hs Hq. unfold _get_with_retries. cbn [script log].
    rewrite retry_loop_rate_limits by done.
    unfold retry_after_error in Hq.
    cbn [retry_loop]. rewrite Hs, Z.eqb_refl.
    destruct (retry_after q) as [n|].
    + unfold time_sleep. rewrite Hq. by rewrite <- app_assoc.
    + injection Hq as <-. by rewrite <- app_assoc.
  - intros q Hq. unfold retry_after_error. by rewrite Hq.
  - intros q n Hq Hn. unfold retry_after_error, sleep_error. rewrite Hq.
    destruct (Z.ltb_spec n (- sleep_overflow)); [lia|].
    destruct (Z.ltb_spec sleep_overflow n);
      [unfold sleep_overflow in *; lia|].
    cbn [orb]. destruct (Z.ltb_spec n 0); [done | lia].
  - intros q n Hq Hn. unfold retry_after_error, sleep_error. rewrite Hq.
    destruct (Z.ltb_spec n (- sleep_overflow)); [done|].
    destruct (Z.ltb_spec sleep_overflow n); [done|]. lia.
  - intros q n Hq Hn Hc. unfold retry_after_error, sleep_error. rewrite Hq.
    destruct (Z.ltb_spec n (- sleep_overflow));
      [unfold sleep_overflow in *; lia|].
    destruct (Z.ltb_spec sleep_overflow n); [lia|].
    cbn [orb]. destruct (Z.ltb_spec n 0); [lia|]. by rewrite Hc.
Qed.

(** A number that [time.sleep] does not take, and a numeral that [int]
    does not read: more than 4300 digits. *)
Example retry_after_too_long_raises :
  let q := mk_response 429
             [(lit "Retry-After", lit "99999999999999999999")] None in
  let q' := mk_response 429
              [(lit "Retry-After", repeat "0"%char 4300 ++ lit "5")] None in
  let r := mk_response 200 [] None in
  _get_with_retries "u" None 4 20 (mk_world [q; r] []) =
    (Raise OverflowError, mk_world [r] [EGet "u" None 20])
  /\ _get_with_retries "u" None 4 20 (mk_world [q'; r] []) =
    (Raise ValueError, mk_world [r] [EGet "u" None 20])
  /\ py_int (repeat "0"%char 4299 ++ lit "5") = Some 5.
Proof. split; [|split]; vm_compute; reflexivity. Qed.

(** Six 429 responses, more than the retry limit, then a 200. *)
Lemma six_429_then_200 :
  let q := mk_response 429 [(lit "retry-after", lit "7")] None in
  let q' := mk_response 429 [] None in
  let r := mk_response 200 [] None in
  fst (_get_with_retries "u" None 4 20 (mk_world [q; q'; q; q'; q; q'; r] []))
  = Ok r.
Proof.
  intros q q' r.
  assert (Hr : status_code r <> 429) by discriminate.
  exact (f_equal fst
           (proj1 (rate_limit_retries "u" None [q; q'; q; q'; q; q'] r [] []
                     eq_refl Hr) eq_refl)).
Defined.

(** C9. The counter is shared: [k] 429 responses that were slept leave
    [max 0 (4 - k)] retries to the 5xx responses that follow, and the first
    of their sleeps lasts [2 ^ k] seconds.  The 5xx response after those
    retries is returned. *)
Theorem retry_counter_is_shared `{host : Host} (url : str)
    (query : option params) (qs rs : list response) (r : response)
    (rest : list response) (lg : list event) :
  forallb rate_limited qs = true ->
  forallb (fun x => is_transient (status_code x)) rs = true ->
  is_transient (status_code r) = true ->
  length rs = Z.to_nat (Z.max 0 (4 - Z.of_nat (length qs))) ->
  _get_with_retries url query default_max_retries default_timeout
    (mk_world (qs ++ rs ++ r :: rest) lg) =
  (Ok r, mk_world rest
           (lg ++ rate_limit_log url query default_timeout qs
               ++ backoff_log url query default_timeout
                    (Z.of_nat (length qs)) (length rs))).
Proof.
  intros Hqs Hrs Hr Hlen. unfold _get_with_retries. cbn [script log].
  rewrite retry_loop_rate_limits by done.
  rewrite retry_loop_backoff; unfold default_max_retries.
  - by rewrite <- app_assoc.
  - lia.
  - lia.
  - done.
  - destruct rs; [by left | right]. cbn [length] in *. lia.
  - by apply transient_not_429.
  - right. lia.
Qed.

(** Two 429 responses, then 5xx responses: two retries, of 4 and 8
    seconds. *)
Lemma two_429_leave_two_retries :
  let q := mk_response 429 [] None in
  let x := mk_response 502 [] None in
  _get_with_retries "u" None 4 20 (mk_world [q; q; x; x; x; x] []) =
  (Ok x, mk_world [x]
     [EGet "u" None 20; ESleep 3; EGet "u" None 20; ESleep 3;
      EGet "u" None 20; ESleep 4; EGet "u" None 20; ESleep 8;
      EGet "u" None 20]).
Proof.
  intros q x.
  apply (retry_counter_is_shared "u" None [q; q] [x; x] x [x] []);
    reflexivity.
Defined.

(** ** Paginator *)

Section Paginator.
Context `{host : Host}.

(** What [_get_with_retries] takes from the responses still to come. *)
Lemma retry_loop_script url query max_retries timeout responses :
  forall attempt lg o w',
  retry_loop url query max_retries timeout attempt responses lg = (o, w') ->
  (length (script w') <= length responses)%nat /\
  forall resp, o = Ok resp ->
    exists pre, responses = pre ++ resp :: script w'.
Proof.
  induction responses as [|x rs IH]; intros attempt lg o w' H.
  - cbn in H. inversion H; subst. cbn. split; [lia | discriminate].
  - cbn [retry_loop] in H.
    assert (Hrec : forall a l, retry_loop url query max_retries timeout a rs l
                = (o, w') ->
              (length (script w') <= length (x :: rs))%nat /\
              forall resp, o = Ok resp ->
                exists pre, x :: rs = pre ++ resp :: script w').
    { intros a l Hl. destruct (IH _ _ _ _ Hl) as [Hlen Hpre]. split.
      - cbn. lia.
      - intros resp Ho. destruct (Hpre resp Ho) as [pre ->].
        by exists (x :: pre). }
    assert (Hnow : forall e, (Raise e, mk_world rs
                (lg ++ [EGet url query timeout])) = (o, w') ->
              (length (script w') <= length (x :: rs))%nat /\
              forall resp, o = Ok resp ->
                exists pre, x :: rs = pre ++ resp :: script w').
    { intros e He. inversion He; subst. cbn. split; [lia | discriminate]. }
    assert (Hret : (Ok x, mk_world rs (lg ++ [EGet url query timeout]))
                = (o, w') ->
              (length (script w') <= length (x :: rs))%nat /\
              forall resp, o = Ok resp ->
                exists pre, x :: rs = pre ++ resp :: script w').
    { intros He. inversion He; subst. cbn. split; [lia|].
      intros resp [= <-]. by exists []. }
    repeat match type of H with
           | (if ?c then _ else _) = _ => destruct c
           | match ?c with _ => _ end = _ => destruct c
           end; eauto.
Qed.

Lemma get_with_retries_shrinks url query max_retries timeout w resp w' :
  _get_with_retries url query max_retries timeout w = (Ok resp, w') ->
  exists pre, script w = pre ++ resp :: script w'.
Proof.
  intros H. apply retry_loop_script in H as [_ H]. by apply H.
Qed.

(** More fuel than responses is as good as any amount. *)
Lemma fetch_loop_fuel f1 : forall f2 url query w,
  (length (script w) < f1)%nat -> (length (script w) < f2)%nat ->
  fetch_loop f1 url query w = fetch_loop f2 url query w.
Proof.
  induction f1 as [|f1 IH]; intros f2 url query w H1 H2; [lia|].
  destruct f2 as [|f2]; [lia|]. cbn [fetch_loop].
  destruct (url_truthy url); [|done].
  destruct (_get_with_retries _ _ _ _ w) as [[resp|e] w'] eqn:Hget; [|done].
  apply get_with_retries_shrinks in Hget as [pre Hpre].
  destruct (resp_ok resp); [|done].
  destruct (resp_json resp) as [data|]; [|done].
  destruct (page_items data); [|done].
  apply IH; rewrite Hpre, length_app in *; cbn [length] in *; lia.
Qed.

Lemma fetch_loop_yield fuel : forall url query w item g' w',
  fetch_loop fuel url query w = (Yield item g', w') ->
  (remaining_items g' + pages_weight (script w') + 2
   <= pages_weight (script w))%nat.
Proof.
  induction fuel as [|fuel IH]; intros url query w item g' w' H;
    cbn [fetch_loop] in H.
  { destruct (url_truthy url); discriminate. }
  destruct (url_truthy url); [|discriminate].
  destruct (_get_with_retries _ _ _ _ w) as [[resp|e] w1] eqn:Hget;
    [|discriminate].
  apply get_with_retries_shrinks in Hget as [pre Hpre].
  assert (Hw : (S (page_len resp) + pages_weight (script w1)
                <= pages_weight (script w))%nat).
  { rewrite Hpre. unfold pages_weight.
    rewrite sum_list_with_app. cbn [sum_list_with]. lia. }
  destruct (resp_ok resp); [|discriminate].
  unfold page_len in Hw.
  destruct (resp_json resp) as [data|]; [|discriminate].
  destruct (page_items data) as [|x rest] eqn:Hitems.
  - apply IH in H. lia.
  - inversion H; subst. cbn [remaining_items length] in *. lia.
Qed.

Lemma gen_next_budget g w item g' w' :
  gen_next g w = (Yield item g', w') -> (budget g' w' < budget g w)%nat.
Proof.
  unfold gen_next, budget.
  destruct g as [url query|[|x rest] resp]; intros H.
  - apply fetch_loop_yield in H. cbn [remaining_items]. lia.
  - apply fetch_loop_yield in H. cbn [remaining_items]. lia.
  - inversion H; subst. cbn [remaining_items length]. lia.
Qed.

Context {A : Type} (body : A -> Json -> outcome (flow A)).

Lemma for_gen_fuel f1 : forall f2 g acc w,
  (budget g w <= f1)%nat -> (budget g w <= f2)%nat ->
  for_gen f1 body g acc w = for_gen f2 body g acc w.
Proof.
  induction f1 as [|f1 IH]; intros f2 g acc w H1 H2.
  { unfold budget in H1. lia. }
  destruct f2 as [|f2]; [unfold budget in H2; lia|]. cbn [for_gen].
  destruct (gen_next g w) as [[item g'| |e] w'] eqn:Hnext; try done.
  apply gen_next_budget in Hnext.
  destruct (body acc item) as [[a|a]|e]; try done.
  apply IH; lia.
Qed.

(** The loop, one turn at a time. *)
Lemma for_each_unfold g acc w :
  for_each body g acc w =
  match gen_next g w with
  | (Stop, w') => (Ok acc, w')
  | (Throw e, w') => (Raise e, w')
  | (Yield item g', w') =>
      match body acc item with
      | Raise e => (Raise e, w')
      | Ok (Break a) => (Ok a, w')
      | Ok (Continue a) => for_each body g' a w'
      end
  end.
Proof.
  unfold for_each at 1. unfold budget at 1. cbn [for_gen].
  destruct (gen_next g w) as [[item g'| |e] w'] eqn:Hnext; try done.
  apply gen_next_budget in Hnext.
  destruct (body acc item) as [[a|a]|e]; try done.
  unfold for_each. apply for_gen_fuel; [|done].
  unfold budget in *. lia.
Qed.

Lemma gen_next_end_of_page resp w :
  gen_next (InPage [] resp) w =
  gen_next (AtLoop (next_link_from_headers (resp_headers resp)) None) w.
Proof. reflexivity. Qed.

Lemma for_each_end_of_page resp acc w :
  for_each body (InPage [] resp) acc w =
  for_each body (AtLoop (next_link_from_headers (resp_headers resp)) None)
    acc w.
Proof.
  rewrite (for_each_unfold (InPage [] resp)), (for_each_unfold (AtLoop _ _)).
  reflexivity.
Qed.

(** Inside a page the loop runs without the session. *)
Lemma for_each_in_page items : forall resp acc w,
  for_each body (InPage items resp) acc w =
  match fold_items body acc items with
  | Raise e => (Raise e, w)
  | Ok (Break a) => (Ok a, w)
  | Ok (Continue a) => for_each body (InPage [] resp) a w
  end.
Proof.
  induction items as [|item rest IH]; intros resp acc w; [done|].
  rewrite for_each_unfold. cbn [gen_next fold_items].
  destruct (body acc item) as [[a|a]|e]; [apply IH | done | done].
Qed.

Lemma for_each_stop url query acc w :
  url_truthy url = false -> for_each body (AtLoop url query) acc w = (Ok acc, w).
Proof.
  intros H. rewrite for_each_unfold. cbn [gen_next fetch_loop].
  by rewrite H.
Qed.
End Paginator.

Section Pages.
Context `{host : Host}.
Context {A : Type} (body : A -> Json -> outcome (flow A)).

Lemma good_page_returned url query r rest lg :
  good_page r = true ->
  _get_with_retries url query default_max_retries default_timeout
    (mk_world (r :: rest) lg) =
  (Ok r, mk_world rest (lg ++ [EGet url query default_timeout])).
Proof.
  intros Hr. unfold good_page, resp_ok in Hr.
  apply andb_prop in Hr as [Hok _]. apply negb_true_iff in Hok.
  unfold _get_with_retries. cbn [script log].
  apply retry_loop_returns.
  - intros E. rewrite E in Hok. discriminate.
  - left. unfold is_transient.
    destruct (Z.eqb_spec (status_code r) 500) as [E|_];
      [rewrite E in Hok; discriminate|].
    destruct (Z.eqb_spec (status_code r) 502) as [E|_];
      [rewrite E in Hok; discriminate|].
    destruct (Z.eqb_spec (status_code r) 503) as [E|_];
      [rewrite E in Hok; discriminate|].
    destruct (Z.eqb_spec (status_code r) 504) as [E|_];
      [rewrite E in Hok; discriminate|].
    reflexivity.
Qed.

(** Fetching a page puts the generator at its first item. *)
Lemma gen_next_page url query r rest lg :
  good_page r = true -> url_truthy url = true ->
  gen_next (AtLoop url query) (mk_world (r :: rest) lg) =
  gen_next (InPage (resp_items r) r)
    (mk_world rest (lg ++ [EGet (default [] url) query default_timeout])).
Proof.
  intros Hr Hu. unfold gen_next. cbn [script length fetch_loop].
  rewrite Hu, good_page_returned by done.
  unfold good_page in Hr. apply andb_prop in Hr as [Hok Hj].
  rewrite Hok. unfold resp_items.
  destruct (resp_json r) as [data|]; [|done].
  by destruct (page_items data).
Qed.

Lemma for_each_page url query r rest lg acc :
  good_page r = true -> url_truthy url = true ->
  for_each body (AtLoop url query) acc (mk_world (r :: rest) lg) =
  for_each body (InPage (resp_items r) r) acc
    (mk_world rest (lg ++ [EGet (default [] url) query default_timeout])).
Proof.
  intros Hr Hu.
  rewrite (for_each_unfold body (AtLoop url query)).
  rewrite (for_each_unfold body (InPage _ _)).
  by rewrite gen_next_page.
Qed.

(** A page that the body goes through without a [break]. *)
Lemma for_each_whole_page url query r rest lg acc a :
  good_page r = true -> url_truthy url = true ->
  fold_items body acc (resp_items r) = Ok (Continue a) ->
  for_each body (AtLoop url query) acc (mk_world (r :: rest) lg) =
  for_each body (AtLoop (next_url r) None) a
    (mk_world rest (lg ++ [EGet (default [] url) query default_timeout])).
Proof.
  intros Hr Hu Hf.
  rewrite for_each_page, for_each_in_page, Hf by done.
  apply for_each_end_of_page.
Qed.

(** A page inside which the body breaks. *)
Lemma for_each_break_in_page url query r rest lg acc a :
  good_page r = true -> url_truthy url = true ->
  fold_items body acc (resp_items r) = Ok (Break a) ->
  for_each body (AtLoop url query) acc (mk_world (r :: rest) lg) =
  (Ok a, mk_world rest (lg ++ [EGet (default [] url) query default_timeout])).
Proof.
  intros Hr Hu Hf. by rewrite for_each_page, for_each_in_page, Hf.
Qed.

Lemma fold_items_app xs ys acc :
  fold_items body acc (xs ++ ys) =
  match fold_items body acc xs with
  | Ok (Continue a) => fold_items body a ys
  | other => other
  end.
Proof.
  revert acc. induction xs as [|x xs IH]; intros acc; [done|].
  cbn [app fold_items]. by destruct (body acc x) as [[a|a]|e].
Qed.

(** Pages gone through without a [break], then a page with one. *)
Lemma for_each_break_after_pages done : forall url query acc lg r rest a0 a,
  url_truthy url = true ->
  forallb continuing done = true -> good_page r = true ->
  fold_items body acc (concat (map resp_items done)) = Ok (Continue a0) ->
  fold_items body a0 (resp_items r) = Ok (Break a) ->
  for_each body (AtLoop url query) acc (mk_world (done ++ r :: rest) lg) =
  (Ok a, mk_world rest
           (lg ++ EGet (default [] url) query default_timeout
               :: next_requests done)).
Proof.
  induction done as [|d done IH];
    intros url query acc lg r rest a0 a Hu Hd Hr H0 Hb.
  - cbn in H0. injection H0 as <-. cbn [app next_requests flat_map].
    by apply for_each_break_in_page.
  - cbn [forallb] in Hd. apply andb_prop in Hd as [Hc Hd].
    unfold continuing in Hc. apply andb_prop in Hc as [Hg Hn].
    cbn [map concat] in H0. rewrite fold_items_app in H0.
    destruct (fold_items body acc (resp_items d)) as [[a1|a1]|e] eqn:H1;
      try discriminate.
    cbn [app]. rewrite (for_each_whole_page _ _ _ _ _ _ a1) by done.
    rewrite (IH _ _ _ _ _ _ a0 a) by done.
    unfold next_requests at 2. cbn [flat_map]. fold (next_requests done).
    rewrite Hn. cbn [app]. by rewrite <- app_assoc.
Qed.

(** Pages gone through to the end of the chain. *)
Lemma for_each_all_pages rs : forall url query acc lg rest a,
  url_truthy url = true -> pages_linked rs = true ->
  fold_items body acc (concat (map resp_items rs)) = Ok (Continue a) ->
  for_each body (AtLoop url query) acc (mk_world (rs ++ rest) lg) =
  (Ok a, mk_world rest
           (lg ++ EGet (default [] url) query default_timeout
               :: next_requests rs)).
Proof.
  induction rs as [|r rs IH]; intros url query acc lg rest a Hu Hl Hf;
    [discriminate|].
  cbn [map concat] in Hf. rewrite fold_items_app in Hf.
  destruct (fold_items body acc (resp_items r)) as [[a1|a1]|e] eqn:H1;
    try discriminate.
  cbn [pages_linked] in Hl. destruct rs as [|r2 rs].
  - apply andb_prop in Hl as [Hg Hn]. apply negb_true_iff in Hn.
    cbn in Hf. injection Hf as <-. cbn [app].
    rewrite (for_each_whole_page _ _ _ _ _ _ a1) by done.
    rewrite for_each_stop by done.
    unfold next_requests. cbn [flat_map]. by rewrite Hn.
  - apply andb_prop in Hl as [Hc Hl].
    unfold continuing in Hc. apply andb_prop in Hc as [Hg Hn].
    change ((r :: r2 :: rs) ++ rest) with (r :: ((r2 :: rs) ++ rest)).
    rewrite (for_each_whole_page _ _ _ _ _ _ a1) by done.
    rewrite (IH _ _ _ _ _ a) by done.
    unfold next_requests at 2. cbn [flat_map]. fold (next_requests (r2 :: rs)).
    rewrite Hn. cbn [app]. by rewrite <- app_assoc.
Qed.
End Pages.

(** [NoResponse] is raised when the session has nothing left to answer,
    and only then: the fuel of the loops never runs out first. *)
Section Adequacy.
Context `{host : Host}.

Lemma sleep_raises seconds lg e :
  time_sleep seconds lg = Raise e ->
  sleep_error seconds = Some e
  /\ (e = ValueError \/ e = OverflowError \/ e = OSError).
Proof.
  unfold time_sleep. destruct (sleep_error seconds) as [e'|] eqn:He; [|done].
  intros [= <-]. split; [done|]. unfold sleep_error in He.
  destruct (_ || _); [injection He as <-; tauto|].
  destruct (seconds <? 0); [injection He as <-; tauto|].
  destruct (clock_accepts seconds); [done|]. injection He as <-. tauto.
Qed.

Lemma retry_loop_no_response url query max_retries timeout responses :
  forall attempt lg w',
  retry_loop url query max_retries timeout attempt responses lg
    = (Raise NoResponse, w') ->
  script w' = [].
Proof.
  induction responses as [|x rs IH]; intros attempt lg w' Hr.
  - cbn in Hr. by injection Hr as <-.
  - cbn [retry_loop] in Hr.
    destruct (status_code x =? 429).
    + destruct (retry_after x) as [n|]; [|done].
      destruct (time_sleep n _) as [lg'|e] eqn:Hs; [by eapply IH|].
      by destruct (sleep_raises _ _ _ Hs) as [_ [->|[->| ->]]].
    + destruct (is_transient (status_code x)); [|done].
      destruct (attempt >=? max_retries); [done|].
      destruct (time_sleep (2 ^ attempt) _) as [lg'|e] eqn:Hs;
        [by eapply IH|].
      by destruct (sleep_raises _ _ _ Hs) as [_ [->|[->| ->]]].
Qed.

Lemma fetch_loop_no_response fuel : forall url query w w',
  (length (script w) < fuel)%nat ->
  fetch_loop fuel url query w = (Throw NoResponse, w') ->
  script w' = [].
Proof.
  induction fuel as [|fuel IH]; intros url query w w' Hfuel Hf; [lia|].
  cbn [fetch_loop] in Hf.
  destruct (url_truthy url); [|done].
  destruct (_get_with_retries _ _ _ _ w) as [[resp|e] w1] eqn:Hget.
  - apply get_with_retries_shrinks in Hget as [pre Hpre].
    destruct (resp_ok resp); [|done].
    destruct (resp_json resp) as [data|]; [|done].
    destruct (page_items data); [|done].
    eapply IH; [|done]. rewrite Hpre, length_app in Hfuel. cbn in Hfuel. lia.
  - injection Hf as -> <-. by eapply retry_loop_no_response.
Qed.

Lemma gen_next_no_response g w w' :
  gen_next g w = (Throw NoResponse, w') -> script w' = [].
Proof.
  unfold gen_next. destruct g as [url query|[|item rest] resp]; [| |done];
    apply fetch_loop_no_response; lia.
Qed.

Context {A : Type} (body : A -> Json -> outcome (flow A)).
Hypothesis body_answers : forall acc item, body acc item <> Raise NoResponse.

Lemma for_gen_no_response fuel : forall g acc w w',
  (budget g w <= fuel)%nat ->
  for_gen fuel body g acc w = (Raise NoResponse, w') ->
  script w' = [].
Proof.
  induction fuel as [|fuel IH]; intros g acc w w' Hfuel Hf.
  { unfold budget in Hfuel. lia. }
  cbn [for_gen] in Hf.
  destruct (gen_next g w) as [[item g'| |e] w1] eqn:Hnext; [|done|].
  - pose proof (gen_next_budget _ _ _ _ _ Hnext) as Hb.
    pose proof (body_answers acc item) as Hbody.
    destruct (body acc item) as [[a|a]|e]; [| done |].
    + eapply IH; [|done]. lia.
    + injection Hf as -> <-. done.
  - injection Hf as -> <-. by eapply gen_next_no_response.
Qed.

Lemma for_each_no_response g acc w w' :
  for_each body g acc w = (Raise NoResponse, w') -> script w' = [].
Proof. apply for_gen_no_response. done. Qed.
End Adequacy.

Lemma fold_items_collect (items : list Json) : forall acc,
  fold_items (fun acc item => Ok (Continue (acc ++ [item]))) acc items =
  Ok (Continue (acc ++ items)).
Proof.
  induction items as [|x items IH]; intros acc; cbn [fold_items].
  - by rewrite app_nil_r.
  - rewrite IH. by rewrite <- app_assoc.
Qed.

(** C4. Over pages 1 to N, each but the last with a link to the next and
    the last without one, [paginate] yields the items of page 1, then those
    of page 2, and so on, each once and in the order of its page (a body
    that is not a list counts as its one item).  The query parameters go
    with the first request only; the requests after it are for the linked
    URLs as they are, without parameters. *)
Theorem paginate_concatenates_pages `{host : Host} (url : str) (query : params)
    (rs rest : list response) (lg : list event) :
  url <> [] ->
  pages_linked rs = true ->
  paginate_all url query (mk_world (rs ++ rest) lg) =
  (Ok (concat (map resp_items rs)),
   mk_world rest
     (lg ++ EGet url (Some query) default_timeout :: next_requests rs)).
Proof.
  intros Hu Hl. unfold paginate_all, paginate.
  apply (for_each_all_pages _ rs (Some url) (Some query) []);
    [by destruct url | done | apply fold_items_collect].
Qed.

(** Three pages: a list, an empty list and a single object. *)
Lemma paginate_three_pages :
  let p1 := mk_response 200 (link_next "https://canvas/p2")
              (Some (JList [JNum 1; JNum 2])) in
  let p2 := mk_response 200 (link_next "https://canvas/p3")
              (Some (JList [])) in
  let p3 := mk_response 200 [] (Some (JObj [(lit "id", JNum 3)])) in
  paginate_all "https://canvas/api" [(lit "per_page", lit "100")]
    (mk_world [p1; p2; p3] []) =
  (Ok [JNum 1; JNum 2; JObj [(lit "id", JNum 3)]],
   mk_world []
     [EGet "https://canvas/api" (Some [(lit "per_page", lit "100")]) 20;
      EGet "https://canvas/p2" None 20;
      EGet "https://canvas/p3" None 20]).
Proof.
  intros p1 p2 p3.
  assert (Hu : lit "https://canvas/api" <> []) by discriminate.
  exact (paginate_concatenates_pages "https://canvas/api"
           [(lit "per_page", lit "100")] [p1; p2; p3] [] [] Hu eq_refl).
Defined.

(** ** Courses of a term *)

Section TermSearch.
Variables (term_sub : str) (max_courses : Z).

Lemma course_step_filterable matches c :
  filterable term_sub c = true ->
  course_step term_sub max_courses matches c =
  let matches' := if keeps term_sub c then matches ++ [c] else matches in
  if Z.of_nat (length matches') >=? max_courses then Ok (Break matches')
  else Ok (Continue matches').
Proof.
  unfold filterable, keeps, course_step.
  by destruct (term_matches term_sub c).
Qed.

Lemma filter_keeps_snoc (l : list Json) c :
  List.filter (keeps term_sub) (l ++ [c]) =
  List.filter (keeps term_sub) l ++ (if keeps term_sub c then [c] else []).
Proof. rewrite List.filter_app. cbn. by destruct (keeps term_sub c). Qed.

(** Records that leave the list of matches below the limit. *)
Lemma fold_items_below items : forall matches,
  forallb (filterable term_sub) items = true ->
  items = [] \/
    Z.of_nat (length (matches ++ List.filter (keeps term_sub) items))
      < max_courses ->
  fold_items (course_step term_sub max_courses) matches items =
  Ok (Continue (matches ++ List.filter (keeps term_sub) items)).
Proof.
  induction items as [|c items IH]; intros matches Hf Hlt.
  { cbn. by rewrite app_nil_r. }
  destruct Hlt as [|Hlt]; [done|].
  cbn [forallb] in Hf. apply andb_prop in Hf as [Hc Hf].
  cbn [fold_items]. rewrite course_step_filterable by done. cbv zeta.
  cbn [List.filter] in *.
  destruct (keeps term_sub c).
  - replace (matches ++ c :: List.filter (keeps term_sub) items)
      with ((matches ++ [c]) ++ List.filter (keeps term_sub) items) in *
      by (by rewrite <- app_assoc).
    destruct (Z.geb_spec (Z.of_nat (length (matches ++ [c]))) max_courses)
      as [Hge|_].
    { rewrite length_app in Hlt. lia. }
    apply IH; [done | by right].
  - destruct (Z.geb_spec (Z.of_nat (length matches)) max_courses)
      as [Hge|_].
    { rewrite length_app in Hlt. lia. }
    apply IH; [done | by right].
Qed.

(** The record that brings the list of matches to the limit. *)
Lemma fold_items_reach pre c post matches :
  forallb (filterable term_sub) (pre ++ [c]) = true ->
  pre = [] \/
    Z.of_nat (length (matches ++ List.filter (keeps term_sub) pre))
      < max_courses ->
  max_courses <=
    Z.of_nat (length (matches ++ List.filter (keeps term_sub) (pre ++ [c]))) ->
  fold_items (course_step term_sub max_courses) matches (pre ++ c :: post) =
  Ok (Break (matches ++ List.filter (keeps term_sub) (pre ++ [c]))).
Proof.
  intros Hf Hlt Hge. rewrite forallb_app in Hf.
  apply andb_prop in Hf as [Hpre Hc]. cbn in Hc. rewrite andb_true_r in Hc.
  rewrite fold_items_app, fold_items_below by done.
  cbn [fold_items]. rewrite course_step_filterable by done. cbv zeta.
  rewrite filter_keeps_snoc, app_assoc in *.
  destruct (keeps term_sub c).
  - destruct (Z.geb_spec
      (Z.of_nat (length ((matches ++ List.filter (keeps term_sub) pre) ++ [c])))
      max_courses); [done | lia].
  - rewrite app_nil_r in *.
    destruct (Z.geb_spec
      (Z.of_nat (length (matches ++ List.filter (keeps term_sub) pre)))
      max_courses); [done | lia].
Qed.
End TermSearch.

(** The claim of C1 fails on a page with more matches than the limit: the
    loop stops at the second match, where a limit checked at the end of the
    page keeps the third one too. *)
Lemma limit_not_checked_per_page :
  let page := mk_response 200 []
    (Some (JList [course_in 1 "Spring 2025"; course_in 2 "Spring 2025";
                  course_in 3 "Spring 2025"])) in
  let w := mk_world [page] [] in
  fst (list_courses_generic "https://canvas" ep_courses "spring" 2 w) =
    Ok [course_in 1 "Spring 2025"; course_in 2 "Spring 2025"] /\
  fst (list_courses_page_checked "https://canvas" ep_courses "spring" 2 w) =
    Ok [course_in 1 "Spring 2025"; course_in 2 "Spring 2025";
        course_in 3 "Spring 2025"] /\
  list_courses_generic "https://canvas" ep_courses "spring" 2 w <>
  list_courses_page_checked "https://canvas" ep_courses "spring" 2 w.
Proof.
  cbv zeta. split; [|split]; [vm_compute; reflexivity ..|].
  vm_compute. discriminate.
Qed.

(** C1, amended. The limit is checked after each record.  The listing
    ends at the first record that brings the number of matches to the
    limit, wherever in its page: the matches up to that record are
    returned, the records after it in the page are not looked at, and no
    page is requested after that one. *)
Theorem limit_checked_after_each_record `{host : Host}
    (base_url endpoint term_sub : str)
    (max_courses : Z) (done : list response) (r : response)
    (rest : list response) (lg : list event) (pre : list Json) (c : Json)
    (post : list Json) :
  let seen := concat (map resp_items done) ++ pre in
  base_url ++ endpoint <> [] ->
  forallb continuing done = true ->
  good_page r = true ->
  resp_items r = pre ++ c :: post ->
  forallb (filterable term_sub) (seen ++ [c]) = true ->
  seen = [] \/
    Z.of_nat (length (List.filter (keeps term_sub) seen)) < max_courses ->
  max_courses <=
    Z.of_nat (length (List.filter (keeps term_sub) (seen ++ [c]))) ->
  list_courses_generic base_url endpoint term_sub max_courses
    (mk_world (done ++ r :: rest) lg) =
  (Ok (List.filter (keeps term_sub) (seen ++ [c])),
   mk_world rest
     (lg ++ EGet (base_url ++ endpoint) (Some course_query) default_timeout
         :: next_requests done)).
Proof.
  intros seen Hu Hd Hr Hitems Hf Hlt Hge. subst seen.
  rewrite <- app_assoc in Hf, Hge. rewrite forallb_app in Hf.
  apply andb_prop in Hf as [HfD Hfp].
  rewrite List.filter_app in Hge. rewrite List.filter_app in Hlt.
  unfold list_courses_generic, paginate.
  rewrite (for_each_break_after_pages _ done (Some (base_url ++ endpoint))
             (Some course_query) [] lg r rest
             (List.filter (keeps term_sub) (concat (map resp_items done)))
             (List.filter (keeps term_sub)
                (concat (map resp_items done) ++ pre ++ [c]))).
  - by rewrite <- app_assoc.
  - by destruct (base_url ++ endpoint).
  - done.
  - done.
  - rewrite fold_items_below; [done | done |].
    destruct Hlt as [Hnil|Hlt].
    + left. by apply app_eq_nil in Hnil as [? _].
    + right. cbn [app]. rewrite length_app in Hlt. lia.
  - rewrite Hitems, fold_items_reach.
    + by rewrite <- List.filter_app.
    + done.
    + destruct Hlt as [Hnil|Hlt].
      * left. by apply app_eq_nil in Hnil as [_ ?].
      * by right.
    + done.
Qed.

(** When the limit is never reached the listing goes through all the
    pages and returns every match. *)
Lemma listing_below_limit `{host : Host} (base_url endpoint term_sub : str)
    (max_courses : Z) (rs rest : list response) (lg : list event) :
  let all := concat (map resp_items rs) in
  base_url ++ endpoint <> [] ->
  pages_linked rs = true ->
  forallb (filterable term_sub) all = true ->
  all = [] \/
    Z.of_nat (length (List.filter (keeps term_sub) all)) < max_courses ->
  list_courses_generic base_url endpoint term_sub max_courses
    (mk_world (rs ++ rest) lg) =
  (Ok (List.filter (keeps term_sub) all),
   mk_world rest
     (lg ++ EGet (base_url ++ endpoint) (Some course_query) default_timeout
         :: next_requests rs)).
Proof.
  intros all Hu Hl Hf Hlt. unfold list_courses_generic, paginate.
  apply (for_each_all_pages _ rs (Some (base_url ++ endpoint))
           (Some course_query) []);
    [by destruct (base_url ++ endpoint) | done |].
  by apply fold_items_below.
Qed.

(** Two pages: the limit of 2 is reached at the first record of the second
    page; the records after it, one of them not even an object, are left
    alone and the third page is not requested. *)
Lemma limit_reached_inside_second_page :
  let p1 := mk_response 200 (link_next "https://canvas/p2")
              (Some (JList [course_in 1 "Spring 2025"; course_in 2 "Fall 2024"])) in
  let p2 := mk_response 200 (link_next "https://canvas/p3")
              (Some (JList [course_in 3 "spring 2025"; course_in 4 "Spring 2025";
                            JNum 7])) in
  let p3 := mk_response 500 [] None in
  list_courses_generic "https://canvas" ep_courses "Spring" 2
    (mk_world [p1; p2; p3] []) =
  (Ok [course_in 1 "Spring 2025"; course_in 3 "spring 2025"],
   mk_world [p3]
     [EGet "https://canvas/api/v1/courses" (Some course_query) 20;
      EGet "https://canvas/p2" None 20]).
Proof.
  intros p1 p2 p3.
  assert (Hu : lit "https://canvas" ++ ep_courses <> []) by discriminate.
  assert (Hlt : concat (map resp_items [p1]) ++ [] = [] \/
    Z.of_nat (length (List.filter (keeps "Spring")
                        (concat (map resp_items [p1]) ++ []))) < 2).
  { right. vm_compute. reflexivity. }
  assert (Hge : 2 <= Z.of_nat (length (List.filter (keeps "Spring")
            ((concat (map resp_items [p1]) ++ []) ++ [course_in 3 "spring 2025"])))).
  { vm_compute. discriminate. }
  exact (limit_checked_after_each_record "https://canvas" ep_courses "Spring" 2
           [p1] p2 [p3] [] [] (course_in 3 "spring 2025")
           [course_in 4 "Spring 2025"; JNum 7]
           Hu eq_refl eq_refl eq_refl eq_refl Hlt Hge).
Defined.

(** C7. The two endpoints are tried in the order that [source] fixes.  When
    the first listing returns courses they are the result.  When it
    returns none, or raises an HTTP error of status 500 or more, the second
    endpoint is tried, from the session as the first attempt left it.  Any
    other exception of the first listing is raised again at once. *)
Theorem endpoint_fallback `{host : Host} (base_url term_sub : str)
    (max_courses : Z)
    (source : str) (w : world) :
  let fallback w1 :=
    match list_courses_generic base_url (second_endpoint source) term_sub
            max_courses w1 with
    | (Raise (HTTPError status), w2) =>
        if status >=? 500 then (Ok [], w2) else (Raise (HTTPError status), w2)
    | other => other
    end in
  endpoints source = [first_endpoint source; second_endpoint source] /\
  (first_endpoint source, second_endpoint source) =
    (if str_eqb source "courses" then (ep_courses, ep_self_courses)
     else (ep_self_courses, ep_courses)) /\
  list_my_courses_for_term base_url term_sub max_courses source w =
  match list_courses_generic base_url (first_endpoint source) term_sub
          max_courses w with
  | (Ok (c :: res), w1) => (Ok (c :: res), w1)
  | (Ok [], w1) => fallback w1
  | (Raise (HTTPError status), w1) =>
      if status >=? 500 then fallback w1 else (Raise (HTTPError status), w1)
  | (Raise e, w1) => (Raise e, w1)
  end.
Proof.
  cbv zeta. unfold list_my_courses_for_term, endpoints, first_endpoint,
    second_endpoint.
  split; [by destruct (str_eqb source "courses")|].
  split; [by destruct (str_eqb source "courses")|].
  assert (Hsecond : forall ep w1,
    try_endpoints base_url [ep] term_sub max_courses w1 =
    match list_courses_generic base_url ep term_sub max_courses w1 with
    | (Raise (HTTPError status), w2) =>
        if status >=? 500 then (Ok [], w2) else (Raise (HTTPError status), w2)
    | other => other
    end).
  { intros ep w1. cbn [try_endpoints].
    destruct (list_courses_generic base_url ep term_sub max_courses w1)
      as [[[|c res]|e] w2]; try done.
    destruct e; try done. by destruct (status >=? 500). }
  destruct (str_eqb source "courses"); cbn [try_endpoints];
    match goal with
    | |- context [list_courses_generic ?b ?ep ?t ?m w] =>
        destruct (list_courses_generic b ep t m w) as [[[|c res]|e] w1]
    end; try done; try apply Hsecond;
    destruct e; try done; destruct (status >=? 500); try done;
    apply Hsecond.
Qed.

(** The first endpoint gives up on 5xx responses, the second one is asked
    next; a 404 from the first endpoint is raised without asking the
    second. *)
Example fallback_after_5xx :
  let x := mk_response 503 [] None in
  let page := mk_response 200 [] (Some (JList [course_in 5 "Spring 2025"])) in
  let nf := mk_response 404 [] None in
  fst (list_my_courses_for_term "https://canvas" "spring" 2 "self"
         (mk_world [x; x; x; x; x; page] [])) = Ok [course_in 5 "Spring 2025"]
  /\ last (log (snd (list_my_courses_for_term "https://canvas" "spring" 2 "self"
                      (mk_world [x; x; x; x; x; page] [])))) =
     Some (EGet "https://canvas/api/v1/courses" (Some course_query) 20)
  /\ list_my_courses_for_term "https://canvas" "spring" 2 "courses"
       (mk_world [nf; page] []) =
     (Raise (HTTPError 404),
      mk_world [page]
        [EGet "https://canvas/api/v1/courses" (Some course_query) 20]).
Proof. cbv zeta. repeat split; vm_compute; reflexivity. Qed.

(** ** Sorter *)

Section KeyOrder.

Lemma lex_ltb_irrefl a : lex_ltb a a = false.
Proof. induction a as [|x a IH]; [done|]. cbn. by rewrite Z.eqb_refl. Qed.

Lemma lex_ltb_trans a : forall b c,
  lex_ltb a b = true -> lex_ltb b c = true -> lex_ltb a c = true.
Proof.
  induction a as [|x a IH]; intros [|y b] [|z c]; cbn; try done.
  destruct (Z.eqb_spec x y), (Z.eqb_spec y z), (Z.eqb_spec x z);
    rewrite ?Z.ltb_lt; try lia; eauto.
Qed.

Lemma lex_ltb_total a : forall b,
  length a = length b ->
  lex_ltb a b = false -> lex_ltb b a = false -> a = b.
Proof.
  induction a as [|x a IH]; intros [|y b]; cbn; try done.
  intros [= Hlen].
  destruct (Z.eqb_spec x y), (Z.eqb_spec y x); rewrite ?Z.ltb_ge; try lia.
  intros. subst. f_equal. by apply IH.
Qed.

Lemma key_ltb_lex k1 k2 :
  key_ltb k1 k2 = lex_ltb (key_list k1) (key_list k2).
Proof. reflexivity. Qed.

Lemma key_list_inj k1 k2 : key_list k1 = key_list k2 -> k1 = k2.
Proof.
  destruct k1 as [t1 []], k2 as [t2 []]. cbn. by intros [= -> -> -> -> -> -> -> ->].
Qed.

Lemma key_ltb_irrefl k : key_ltb k k = false.
Proof. rewrite key_ltb_lex. apply lex_ltb_irrefl. Qed.

Lemma key_ltb_trans k1 k2 k3 :
  key_ltb k1 k2 = true -> key_ltb k2 k3 = true -> key_ltb k1 k3 = true.
Proof. rewrite !key_ltb_lex. apply lex_ltb_trans. Qed.

Lemma key_ltb_asym k1 k2 : key_ltb k1 k2 = true -> key_ltb k2 k1 = false.
Proof.
  intros H. destruct (key_ltb k2 k1) eqn:H'; [|done].
  by rewrite <- (key_ltb_irrefl k1), <- (key_ltb_trans _ _ _ H H').
Qed.

Lemma key_ltb_total k1 k2 :
  key_ltb k1 k2 = false -> key_ltb k2 k1 = false -> k1 = k2.
Proof.
  rewrite !key_ltb_lex. intros H1 H2. apply key_list_inj.
  by apply lex_ltb_total.
Qed.

(** [k1 <= k2 <= k3], where [<=] is "not greater". *)
Lemma key_le_trans k1 k2 k3 :
  key_ltb k2 k1 = false -> key_ltb k3 k2 = false -> key_ltb k3 k1 = false.
Proof.
  intros H12 H23. destruct (key_ltb k3 k1) eqn:H31; [|done].
  destruct (key_ltb k1 k2) eqn:H.
  - by rewrite (key_ltb_trans _ _ _ H31 H) in H23.
  - rewrite (key_ltb_total _ _ H H12) in H31. by rewrite H31 in H23.
Qed.
End KeyOrder.

Section StableSort.
Context {A : Type}.
Implicit Types (x y : sort_key * A) (l : list (sort_key * A)).

Lemma insert_keyed_perm x l : Permutation (insert_keyed x l) (x :: l).
Proof.
  induction l as [|y l IH]; cbn; [done|].
  destruct (key_ltb (fst y) (fst x)); [|done].
  rewrite IH. apply perm_swap.
Qed.

Lemma sort_keyed_perm l : Permutation (sort_keyed l) l.
Proof.
  induction l as [|x l IH]; cbn; [done|].
  rewrite insert_keyed_perm. by constructor.
Qed.

Lemma insert_keyed_sorted x l :
  StronglySorted keyed_le l -> StronglySorted keyed_le (insert_keyed x l).
Proof.
  induction l as [|y l IH]; intros Hs; cbn.
  { repeat constructor. }
  apply StronglySorted_inv in Hs as [Hs Hy].
  destruct (key_ltb (fst y) (fst x)) eqn:Hyx.
  - constructor; [by apply IH|].
    eapply Permutation_Forall; [symmetry; apply insert_keyed_perm|].
    constructor; [|done]. by apply key_ltb_asym.
  - constructor; [by constructor|].
    constructor; [done|].
    eapply Forall_impl; [exact Hy|]. intros z Hz.
    unfold keyed_le in *. by eapply key_le_trans.
Qed.

Lemma sort_keyed_sorted l : StronglySorted keyed_le (sort_keyed l).
Proof.
  induction l as [|x l IH]; cbn; [constructor|].
  by apply insert_keyed_sorted.
Qed.

(** Items of one key keep their order. *)
Lemma insert_keyed_filter (k : sort_key) x l :
  List.filter (fun y => bool_decide (fst y = k)) (insert_keyed x l) =
  List.filter (fun y => bool_decide (fst y = k)) (x :: l).
Proof.
  induction l as [|y l IH]; [done|]. cbn [insert_keyed].
  destruct (key_ltb (fst y) (fst x)) eqn:Hyx; [|done].
  cbn [List.filter] in *. rewrite IH.
  destruct (bool_decide_reflect (fst y = k)) as [Hy|_],
           (bool_decide_reflect (fst x = k)) as [Hx|_]; try done.
  rewrite <- Hx in Hy. by rewrite Hy, key_ltb_irrefl in Hyx.
Qed.

Lemma sort_keyed_filter (k : sort_key) l :
  List.filter (fun y => bool_decide (fst y = k)) (sort_keyed l) =
  List.filter (fun y => bool_decide (fst y = k)) l.
Proof.
  induction l as [|x l IH]; [done|]. cbn [sort_keyed foldr].
  rewrite insert_keyed_filter. cbn [List.filter].
  fold (sort_keyed l). by rewrite IH.
Qed.

(** A stable sort has one possible result: a list in the order of the keys
    that holds, for each key, the same items in the same order.  The
    insertion sort above therefore gives what any stable sort gives. *)
Lemma stable_sorted_unique l1 : forall l2,
  StronglySorted keyed_le l1 -> StronglySorted keyed_le l2 ->
  (forall k, List.filter (fun y => bool_decide (fst y = k)) l1 =
             List.filter (fun y => bool_decide (fst y = k)) l2) ->
  l1 = l2.
Proof.
  induction l1 as [|x t1 IH]; intros l2 Hs1 Hs2 Hf.
  - destruct l2 as [|y t2]; [done|].
    specialize (Hf (fst y)). cbn in Hf.
    by rewrite bool_decide_eq_true_2 in Hf.
  - destruct l2 as [|y t2].
    { specialize (Hf (fst x)). cbn in Hf.
      by rewrite bool_decide_eq_true_2 in Hf. }
    apply StronglySorted_inv in Hs1 as [Hs1 Hx].
    apply StronglySorted_inv in Hs2 as [Hs2 Hy].
    rewrite Forall_forall in Hx, Hy.
    assert (Hxy : x = y).
    { pose proof (Hf (fst x)) as Hfx. pose proof (Hf (fst y)) as Hfy.
      cbn [List.filter] in Hfx, Hfy.
      rewrite bool_decide_eq_true_2 in Hfx by done.
      rewrite (bool_decide_eq_true_2 (fst y = fst y)) in Hfy by done.
      destruct (bool_decide_reflect (fst y = fst x)) as [E|Hne].
      { by injection Hfx. }
      assert (Hin_x : In x t2).
      { eapply (proj1 (filter_In _ x t2)). rewrite <- Hfx. by left. }
      destruct (bool_decide_reflect (fst x = fst y)) as [E|_];
        [by rewrite E in Hne|].
      assert (Hin_y : In y t1).
      { eapply (proj1 (filter_In _ y t1)). rewrite Hfy. by left. }
      apply list_elem_of_In in Hin_x, Hin_y.
      exfalso. apply Hne. symmetry.
      apply key_ltb_total; [apply (Hy x Hin_x) | apply (Hx y Hin_y)]. }
    subst y. f_equal. apply IH; [done..|].
    intros k. specialize (Hf k). cbn [List.filter] in Hf.
    destruct (bool_decide (fst x = k)); [by injection Hf | done].
Qed.

Lemma sort_keyed_unique l out :
  StronglySorted keyed_le out ->
  (forall k, List.filter (fun y => bool_decide (fst y = k)) out =
             List.filter (fun y => bool_decide (fst y = k)) l) ->
  out = sort_keyed l.
Proof.
  intros Hs Hf. apply stable_sorted_unique;
    [done | apply sort_keyed_sorted |].
  intros k. by rewrite sort_keyed_filter.
Qed.
End StableSort.

Lemma strongly_sorted_lookup {A} (R : A -> A -> Prop) (l : list A) :
  StronglySorted R l ->
  forall i j a b, (i < j)%nat -> l !! i = Some a -> l !! j = Some b -> R a b.
Proof.
  induction 1 as [|x l Hs IH Hx]; intros i j a b Hij Hi Hj; [done|].
  destruct j as [|j]; [lia|]. cbn in Hj.
  destruct i as [|i]; cbn in Hi.
  - injection Hi as <-. rewrite Forall_forall in Hx. apply Hx.
    by eapply list_elem_of_lookup_2.
  - eapply IH; [|done..]. lia.
Qed.

Section Sorter.
Context `{DateLib}.

Lemma key_of_obj a : is_obj a = true -> key a = Ok (key_of a).
Proof.
  destruct a; try done. intros _. unfold key, key_of, due_of. cbn.
  by destruct (parse_iso8601 _).
Qed.

Lemma map_outcome_decorate l :
  forallb is_obj l = true ->
  map_outcome (fun a => let* k := key a in Ok (k, a)) l = Ok (decorate l).
Proof.
  induction l as [|a l IH]; [done|]. cbn [forallb].
  intros [Ha Hl]%andb_prop. cbn [map_outcome].
  rewrite key_of_obj by done. cbn [bind]. by rewrite IH.
Qed.

Lemma sort_assignments_decorate l :
  forallb is_obj l = true ->
  sort_assignments l = Ok (map snd (sort_keyed (decorate l))).
Proof.
  intros Hl. unfold sort_assignments, sorted_by_key.
  by rewrite map_outcome_decorate.
Qed.

Lemma decorated_sorted l :
  Forall (fun p => fst p = key_of (snd p)) (sort_keyed (decorate l)).
Proof.
  eapply Permutation_Forall; [symmetry; apply sort_keyed_perm|].
  unfold decorate. rewrite Forall_map. by apply Forall_true.
Qed.

Lemma filter_map_snd (k : sort_key) (ps : list (sort_key * Json)) :
  Forall (fun p => fst p = key_of (snd p)) ps ->
  List.filter (has_key k) (map snd ps) =
  map snd (List.filter (fun p => bool_decide (fst p = k)) ps).
Proof.
  induction 1 as [|p ps Hp _ IH]; [done|].
  cbn [map List.filter]. unfold has_key at 1. rewrite <- Hp, IH.
  by destruct (bool_decide (fst p = k)).
Qed.

Lemma filter_decorate (k : sort_key) l :
  map snd (List.filter (fun p => bool_decide (fst p = k)) (decorate l)) =
  List.filter (has_key k) l.
Proof.
  induction l as [|a l IH]; [done|]. cbn [decorate map List.filter fst].
  fold (decorate l). unfold has_key at 1.
  destruct (bool_decide (key_of a = k)); cbn [map snd]; by rewrite IH.
Qed.

Lemma sorted_map_snd (ps : list (sort_key * Json)) :
  Forall (fun p => fst p = key_of (snd p)) ps ->
  StronglySorted keyed_le ps ->
  StronglySorted (fun a b => key_ltb (key_of b) (key_of a) = false)
    (map snd ps).
Proof.
  intros Hk Hs. induction Hs as [|p ps Hs IH Hp]; cbn; [constructor|].
  apply Forall_cons_1 in Hk as [Hp0 Hk].
  constructor; [by apply IH|].
  rewrite Forall_map.
  rewrite Forall_forall in Hp, Hk. apply Forall_forall. intros q Hq.
  cbn. rewrite <- Hp0, <- (Hk q Hq). by apply Hp.
Qed.
End Sorter.

(** C5. [sort_assignments] is a stable sort on the key [(0, due)] of a
    dated assignment and [(1, datetime.max)] of an undated one.  Its result
    is a permutation of the list in which assignments of equal key keep
    their order (so do the undated ones among themselves), every dated
    assignment is before every undated one, and the dated ones are in
    non-decreasing order of their dates. *)
Theorem sort_assignments_order `{DateLib} (l : list Json) :
  forallb is_obj l = true ->
  exists out,
    sort_assignments l = Ok out
    /\ Permutation out l
    /\ (forall k, List.filter (has_key k) out = List.filter (has_key k) l)
    /\ (forall i j a b, out !! i = Some a -> out !! j = Some b ->
          due_of a = None -> due_of b <> None -> (j < i)%nat)
    /\ (forall i j a b da db, (i < j)%nat ->
          out !! i = Some a -> out !! j = Some b ->
          due_of a = Some da -> due_of b = Some db -> dt_leb da db = true)
    /\ (forall a, In a l ->
          key a = Ok (match due_of a with
                      | Some due => (0, due)
                      | None => (1, datetime_max)
                      end))
    /\ (forall i j a b, (i < j)%nat ->
          out !! i = Some a -> out !! j = Some b ->
          key_ltb (key_of b) (key_of a) = false).
Proof.
  intros Hl. exists (map snd (sort_keyed (decorate l))).
  assert (Hsorted : forall i j a b, (i < j)%nat ->
            map snd (sort_keyed (decorate l)) !! i = Some a ->
            map snd (sort_keyed (decorate l)) !! j = Some b ->
            key_ltb (key_of b) (key_of a) = false).
  { apply (strongly_sorted_lookup
             (fun a b => key_ltb (key_of b) (key_of a) = false)).
    apply sorted_map_snd; [apply decorated_sorted | apply sort_keyed_sorted]. }
  split; [by apply sort_assignments_decorate|].
  split.
  { etrans; [apply Permutation_map, sort_keyed_perm|].
    unfold decorate. rewrite map_map. cbn. by rewrite map_id. }
  split.
  { intros k. rewrite filter_map_snd by apply decorated_sorted.
    by rewrite sort_keyed_filter, filter_decorate. }
  split.
  { intros i j a b Hi Hj Ha Hb.
    destruct (due_of b) as [db|] eqn:Hdb; [|done].
    destruct (Nat.lt_trichotomy i j) as [Hlt|[->|Hgt]]; [|congruence|done].
    specialize (Hsorted i j a b Hlt Hi Hj).
    unfold key_of in Hsorted. by rewrite Ha, Hdb in Hsorted. }
  split.
  { intros i j a b da db Hlt Hi Hj Ha Hb.
    specialize (Hsorted i j a b Hlt Hi Hj).
    unfold key_of in Hsorted. rewrite Ha, Hb in Hsorted.
    unfold key_ltb in Hsorted. cbn [fst snd] in Hsorted.
    rewrite Z.eqb_refl in Hsorted. unfold dt_leb. by rewrite Hsorted. }
  split; [|done].
  intros a Ha. rewrite forallb_forall in Hl. by rewrite key_of_obj by auto.
Qed.

(** Two dated and two undated assignments, out of order. *)
Lemma sort_four_assignments :
  let final := assignment "Final" JNull in
  let hw2 := assignment "HW2" (JStr "2025-04-01T00:00:00Z") in
  let quiz := JObj [(lit "name", JStr "Quiz")] in
  let hw1 := assignment "HW1" (JStr "2025-03-01T00:00:00Z") in
  forallb is_obj [final; hw2; quiz; hw1] = true /\
  exists out,
    @sort_assignments utc_dates [final; hw2; quiz; hw1] = Ok out
    /\ Permutation out [final; hw2; quiz; hw1].
Proof.
  intros final hw2 quiz hw1. split; [reflexivity|].
  destruct (@sort_assignments_order utc_dates [final; hw2; quiz; hw1] eq_refl)
    as (out & Hout & Hperm & _).
  exists out. split; assumption.
Defined.

Example sort_four_assignments_result :
  let final := assignment "Final" JNull in
  let hw2 := assignment "HW2" (JStr "2025-04-01T00:00:00Z") in
  let quiz := JObj [(lit "name", JStr "Quiz")] in
  let hw1 := assignment "HW1" (JStr "2025-03-01T00:00:00Z") in
  @sort_assignments utc_dates [final; hw2; quiz; hw1] =
  Ok [hw1; hw2; final; quiz].
Proof. vm_compute. reflexivity. Qed.

(** ** Course names *)

Section Blanks.
Variable p : ascii -> bool.

Lemma lstrip_by_run s : lstrip_by p s = drop (run_length p s) s.
Proof. induction s as [|c s IH]; cbn; [done|]. by destruct (p c). Qed.

Lemma run_length_le s : (run_length p s <= length s)%nat.
Proof. induction s as [|c s IH]; cbn; [lia|]. destruct (p c); cbn; lia. Qed.

Lemma lstrip_by_length s :
  length (lstrip_by p s) = (length s - run_length p s)%nat.
Proof. rewrite lstrip_by_run. apply length_drop. Qed.

Lemma lstrip_by_suffix s : exists pre, s = pre ++ lstrip_by p s.
Proof.
  exists (take (run_length p s) s). rewrite lstrip_by_run.
  by rewrite take_drop.
Qed.

Lemma lstrip_by_fixed s :
  match s with c :: _ => p c = false | [] => True end ->
  lstrip_by p s = s.
Proof. destruct s as [|c s]; cbn; [done|]. by intros ->. Qed.

Lemma lstrip_by_head s :
  match lstrip_by p s with c :: _ => p c = false | [] => True end.
Proof.
  induction s as [|c s IH]; cbn; [done|].
  destruct (p c) eqn:Hc; [done|]. exact Hc.
Qed.

Lemma lstrip_by_idem s : lstrip_by p (lstrip_by p s) = lstrip_by p s.
Proof. apply lstrip_by_fixed, lstrip_by_head. Qed.

(** A greedy repetition without upper bound, when whatever follows is
    accepted: the whole run, if it is long enough. *)
Lemma rep_match_greedy s : forall lo,
  rep_match p lo None true s Some =
  if (lo <=? run_length p s)%nat then Some (lstrip_by p s) else None.
Proof.
  induction s as [|c s IH]; intros lo; cbn [rep_match run_length lstrip_by].
  { by destruct lo. }
  destruct (p c); cbn [andb may_take dec_hi].
  - rewrite IH. destruct lo as [|lo]; cbn [Nat.pred or_else Nat.leb].
    + done.
    + by destruct (lo <=? run_length p s)%nat.
  - by destruct lo.
Qed.
End Blanks.

Section Collapse.

Lemma sub_from_skip r repl n : forall s,
  (n <= length s)%nat ->
  sub_from r repl s n = sub_from r repl (drop n s) O.
Proof.
  induction n as [|n IH]; intros s Hn; [done|].
  destruct s as [|c s]; cbn in Hn; [lia|].
  cbn [sub_from drop]. apply IH. lia.
Qed.

(** [re.sub(r"\s{2,}", " ", s)], one step at a time. *)
Lemma sub_spaces_nil : re_sub re_spaces " " [] = [].
Proof. reflexivity. Qed.

Lemma sub_spaces_cons c s :
  re_sub re_spaces " " (c :: s) =
  if (2 <=? run_length is_space (c :: s))%nat
  then lit " " ++ re_sub re_spaces " " (lstrip (c :: s))
  else c :: re_sub re_spaces " " s.
Proof.
  unfold re_sub at 1. cbn [sub_from].
  change (rmatch re_spaces (c :: s) Some)
    with (rep_match is_space 2 None true (c :: s) Some).
  rewrite rep_match_greedy.
  destruct (Nat.leb_spec 2 (run_length is_space (c :: s))) as [Hrun|Hrun];
    [|done].
  unfold consumed. rewrite lstrip_by_length.
  pose proof (run_length_le is_space (c :: s)) as Hle.
  replace (length (c :: s) - (length (c :: s) - run_length is_space (c :: s)))%nat
    with (run_length is_space (c :: s)) by lia.
  destruct (run_length is_space (c :: s)) as [|n] eqn:Hn; [lia|].
  f_equal. rewrite sub_from_skip by (cbn in Hle; lia).
  unfold re_sub, lstrip. by rewrite lstrip_by_run, Hn.
Qed.

Lemma single_spaced_tail c s : single_spaced (c :: s) -> single_spaced s.
Proof. intros H s1 a b s2 ->. by apply (H (c :: s1) a b s2). Qed.

Lemma single_spaced_cons c s :
  single_spaced s -> (is_space c = true -> head_space s = false) ->
  single_spaced (c :: s).
Proof.
  intros Hs Hc [|x s1] a b s2 E Ha Hb.
  - injection E as -> ->. cbn in Hc. rewrite Hc in Hb; done.
  - injection E as -> ->. by apply (Hs s1 a b s2).
Qed.

Lemma single_spaced_infix pre s suf :
  single_spaced (pre ++ s ++ suf) -> single_spaced s.
Proof.
  intros H s1 a b s2 ->. apply (H (pre ++ s1) a b (s2 ++ suf)).
  by rewrite <- !app_assoc.
Qed.

Lemma sub_spaces_head s :
  head_space (re_sub re_spaces " " s) = head_space s.
Proof.
  destruct s as [|c s]; [done|]. rewrite sub_spaces_cons.
  destruct (Nat.leb_spec 2 (run_length is_space (c :: s))) as [Hrun|_];
    [|done].
  cbn [run_length] in Hrun. cbn [head_space].
  destruct (is_space c); [reflexivity | lia].
Qed.

(** The substitution leaves no two blanks in a row. *)
Lemma sub_spaces_single_spaced s : single_spaced (re_sub re_spaces " " s).
Proof.
  remember (length s) as n eqn:Hn. revert s Hn.
  induction n as [n IH] using lt_wf_ind. intros s ->.
  destruct s as [|c s].
  { intros [|? ?] ? ? ? E; discriminate. }
  rewrite sub_spaces_cons.
  destruct (Nat.leb_spec 2 (run_length is_space (c :: s))) as [Hrun|Hrun].
  - apply single_spaced_cons.
    + eapply IH; [|done]. unfold lstrip. rewrite lstrip_by_length.
      cbn [length]. lia.
    + intros _. rewrite sub_spaces_head. unfold lstrip.
      pose proof (lstrip_by_head is_space (c :: s)) as Hh.
      by destruct (lstrip_by is_space (c :: s)).
  - apply single_spaced_cons.
    + eapply IH; [|done]. cbn. lia.
    + intros Hc. rewrite sub_spaces_head. cbn [run_length] in Hrun.
      rewrite Hc in Hrun.
      destruct s as [|d s]; [done|]. cbn [run_length head_space] in *.
      destruct (is_space d); [lia | done].
Qed.

(** It changes nothing where there are none. *)
Lemma sub_spaces_fixed s :
  single_spaced s -> re_sub re_spaces " " s = s.
Proof.
  induction s as [|c s IH]; intros Hs; [done|].
  rewrite sub_spaces_cons.
  destruct (Nat.leb_spec 2 (run_length is_space (c :: s))) as [Hrun|_].
  - exfalso. cbn [run_length] in Hrun. destruct (is_space c) eqn:Hc; [|lia].
    destruct s as [|d s]; cbn [run_length] in Hrun; [lia|].
    destruct (is_space d) eqn:Hd; [|lia].
    by apply (Hs [] c d s).
  - f_equal. apply IH. by eapply single_spaced_tail.
Qed.

Lemma rstrip_prefix s : exists suf, s = rstrip s ++ suf.
Proof.
  unfold rstrip, lstrip.
  destruct (lstrip_by_suffix is_space (rev s)) as [pre Hpre].
  exists (rev pre). rewrite <- rev_app_distr, <- Hpre. by rewrite rev_involutive.
Qed.

Lemma strip_infix s : exists pre suf, s = pre ++ strip s ++ suf.
Proof.
  unfold strip.
  destruct (lstrip_by_suffix is_space s) as [pre Hpre].
  destruct (rstrip_prefix (lstrip s)) as [suf Hsuf].
  exists pre, suf. unfold lstrip in *. by rewrite <- Hsuf.
Qed.

Lemma rstrip_idem s : rstrip (rstrip s) = rstrip s.
Proof.
  unfold rstrip, lstrip. by rewrite rev_involutive, lstrip_by_idem.
Qed.

Lemma lstrip_rstrip s : lstrip (rstrip (lstrip s)) = rstrip (lstrip s).
Proof.
  apply lstrip_by_fixed.
  pose proof (lstrip_by_head is_space s) as Hh. fold (lstrip s) in Hh.
  destruct (rstrip_prefix (lstrip s)) as [suf Hsuf].
  destruct (rstrip (lstrip s)) as [|c t]; [done|].
  rewrite Hsuf in Hh. exact Hh.
Qed.

Lemma strip_idem s : strip (strip s) = strip s.
Proof. unfold strip. by rewrite lstrip_rstrip, rstrip_idem. Qed.

(** The last line of [clean_course_name] is idempotent. *)
Lemma collapse_idem s : collapse (collapse s) = collapse s.
Proof.
  unfold collapse at 1. rewrite sub_spaces_fixed.
  - unfold collapse. apply strip_idem.
  - unfold collapse.
    destruct (strip_infix (re_sub re_spaces " " s)) as (pre & suf & E).
    apply (single_spaced_infix pre _ suf). rewrite <- E.
    apply sub_spaces_single_spaced.
Qed.
End Collapse.

(** A substitution by the empty string drops characters: its result is
    no longer than its subject, and as long only when nothing changed. *)
Section Dropping.
Variable r : regex.

Lemma sub_from_nil skip : sub_from r [] [] skip = [].
Proof.
  destruct skip; [|done]. cbn [sub_from].
  destruct (rmatch r [] Some) as [rest|]; [|done].
  cbn. by destruct (rmatch r [] _).
Qed.

Lemma sub_from_shape c s :
  sub_from r [] (c :: s) O = c :: sub_from r [] s O
  \/ exists n, sub_from r [] (c :: s) O = sub_from r [] s n.
Proof.
  cbn [sub_from].
  destruct (rmatch r (c :: s) Some) as [rest|]; [|by left].
  destruct (consumed (c :: s) rest) as [|n]; [|right; by exists n].
  cbn [app].
  destruct (rmatch r (c :: s) _) as [rest'|]; [|by left].
  destruct (consumed (c :: s) rest') as [|n]; [by left|].
  right. by exists n.
Qed.

Lemma sub_from_length s : forall skip,
  (length (sub_from r [] s skip) <= length s)%nat.
Proof.
  induction s as [|c s IH]; intros skip.
  { by rewrite sub_from_nil. }
  destruct skip as [|n].
  - destruct (sub_from_shape c s) as [->|[n ->]]; cbn [length].
    + specialize (IH O). lia.
    + specialize (IH n). lia.
  - cbn [sub_from length]. specialize (IH n). lia.
Qed.

Lemma re_sub_length s : (length (re_sub r [] s) <= length s)%nat.
Proof. apply sub_from_length. Qed.

Lemma re_sub_same_length s :
  length (re_sub r [] s) = length s -> re_sub r [] s = s.
Proof.
  unfold re_sub. induction s as [|c s IH]; intros Hlen.
  { by rewrite sub_from_nil. }
  destruct (sub_from_shape c s) as [E|[n E]]; rewrite E in *.
  - cbn [length] in Hlen. f_equal. apply IH. lia.
  - pose proof (sub_from_length s n). cbn [length] in Hlen. lia.
Qed.
End Dropping.

Lemma strip_length s : (length (strip s) <= length s)%nat.
Proof.
  destruct (strip_infix s) as (pre & suf & E).
  rewrite E at 2. rewrite !length_app. lia.
Qed.

Lemma sub_spaces_length s :
  (length (re_sub re_spaces " " s) <= length s)%nat.
Proof.
  remember (length s) as n eqn:Hn. revert s Hn.
  induction n as [n IH] using lt_wf_ind. intros s ->.
  destruct s as [|c s]; [done|]. rewrite sub_spaces_cons.
  destruct (Nat.leb_spec 2 (run_length is_space (c :: s))) as [Hrun|_].
  - assert (Hl : (length (lstrip (c :: s)) < length (c :: s))%nat).
    { unfold lstrip. rewrite lstrip_by_length. cbn [length]. lia. }
    pose proof (IH _ Hl _ eq_refl) as Hs.
    unfold lstrip in *. rewrite lstrip_by_length in Hs, Hl.
    rewrite length_app. change (length (lit " ")) with 1%nat.
    cbn [length] in *. lia.
  - cbn [length]. specialize (IH (length s) ltac:(cbn; lia) s eq_refl). lia.
Qed.

Lemma collapse_length s : (length (collapse s) <= length s)%nat.
Proof.
  unfold collapse. etrans; [apply strip_length | apply sub_spaces_length].
Qed.

(** A name from which the substitutions drop nothing. *)
Lemma strip_noise_same_length s :
  length (strip_noise s) = length s -> strip_noise s = s.
Proof.
  unfold strip_noise. intros Hlen.
  pose proof (re_sub_length re_year_annotation s) as H1.
  pose proof (re_sub_length re_term_annotation
                (re_sub re_year_annotation "" s)) as H2.
  pose proof (re_sub_length re_section_suffix
                (re_sub re_term_annotation ""
                   (re_sub re_year_annotation "" s))) as H3.
  change (lit "") with (@nil ascii) in *.
  assert (E1 : re_sub re_year_annotation [] s = s)
    by (apply re_sub_same_length; lia).
  rewrite E1 in *.
  assert (E2 : re_sub re_term_annotation [] s = s)
    by (apply re_sub_same_length; lia).
  rewrite E2 in *.
  apply re_sub_same_length. lia.
Qed.

(** The claim of C6 fails on a name that is all annotation: the first
    application gives the empty string, the second one the placeholder.
    It fails as well on a name with two annotations, of which each
    application drops one. *)
Lemma clean_course_name_not_idempotent :
  clean_course_name (Some (clean_course_name (Some (lit "(Spring 2025)"))))
    <> clean_course_name (Some (lit "(Spring 2025)"))
  /\ clean_course_name (Some (lit "(Spring 2025)")) = lit ""
  /\ clean_course_name (Some (lit "")) = lit "Untitled"
  /\ clean_course_name (Some (lit "Lab (Sec 2 2024) (Y 2025)"))
     = lit "Lab (Sec 2 2024)"
  /\ clean_course_name (Some (lit "Lab (Sec 2 2024)")) = lit "Lab".
Proof. repeat split; vm_compute; (reflexivity || discriminate). Qed.

(** C6, amended. Cleaning a name twice gives the same as cleaning it once
    exactly when the first result is not empty and no annotation or
    section suffix is left in it for the three substitutions to drop. *)
Theorem clean_course_name_idempotent_iff_settled (name : option str) :
  clean_course_name (Some (clean_course_name name)) = clean_course_name name
  <->
  clean_course_name name <> []
  /\ strip_noise (clean_course_name name) = clean_course_name name.
Proof.
  set (m := clean_course_name name). split.
  - intros Hfix. destruct m as [|c m'] eqn:Hm; [discriminate|].
    split; [done|]. cbn [clean_course_name] in Hfix.
    apply strip_noise_same_length.
    pose proof (collapse_length (strip_noise (c :: m'))) as H1.
    assert (H2 : (length (strip_noise (c :: m')) <= length (c :: m'))%nat).
    { unfold strip_noise. change (lit "") with (@nil ascii).
      etrans; [apply re_sub_length|]. etrans; apply re_sub_length. }
    rewrite Hfix in H1. lia.
  - intros [Hne Hfix]. destruct m as [|c m'] eqn:Hm; [done|].
    cbn [clean_course_name]. rewrite Hfix.
    destruct name as [[|d n]|]; subst m; cbn [clean_course_name] in Hm;
      try (rewrite <- Hm; vm_compute; reflexivity).
    rewrite <- Hm. apply collapse_idem.
Qed.

Lemma clean_intro_to_x_twice :
  clean_course_name
    (Some (clean_course_name (Some (lit "Intro  to X (Spring 2025)")))) =
  clean_course_name (Some (lit "Intro  to X (Spring 2025)")).
Proof.
  assert (Hne : clean_course_name (Some (lit "Intro  to X (Spring 2025)")) <> [])
    by (vm_compute; discriminate).
  exact (proj2 (clean_course_name_idempotent_iff_settled
                  (Some (lit "Intro  to X (Spring 2025)")))
           (conj Hne eq_refl)).
Defined.

(** ** Renderers *)

Section Commas.

Lemma count_char_app c s t :
  count_char c (s ++ t) = (count_char c s + count_char c t)%nat.
Proof. unfold count_char. by rewrite List.filter_app, length_app. Qed.










End Commas.

Section Loops.
Context {B : Type} (P : str -> Prop) (Q : B -> Prop)
        (body : list str -> B -> outcome (list str)).

End Loops.

Section Csv.
Context `{DateLib}.



End Csv.




Section Text.
Context `{DateLib}.

(** A due date that does not parse, whatever the reason. *)
Lemma parse_iso8601_none (due_at : Json) :
  match due_at with
  | JStr s => s = [] \/ fromisoformat_utc (replace_char "Z" "+00:00" s) = None
  | _ => True
  end ->
  parse_iso8601 due_at = None.
Proof.
  unfold parse_iso8601. destruct (truthy due_at) eqn:Ht; [|done].
  destruct due_at as [| | |s| |]; try done.
  intros [->|Hs]; [discriminate | done].
Qed.

Lemma text_row_undated lines fields aname :
  parse_iso8601 (default JNull (fields_get "due_at" fields)) = None ->
  assignment_name (JObj fields) = Ok aname ->
  text_row lines (JObj fields) =
  Ok (lines ++ [text_line aname "No due date"]).
Proof.
  intros Hp Hn. unfold text_row, due_str, py_get_none, py_get.
  cbn [bind]. by rewrite Hp, Hn.
Qed.
End Text.

(** C8. The course "Intro to X (Spring 2025)" with the assignments HW1,
    due 2025-03-01T00:00:00Z, and Final, without a due date: sorting leaves
    them in this order, and the text has the header of the course, the
    line of HW1 with its date and the line of Final with [No due date].  In
    general the due date of an assignment never makes a renderer raise:
    when it is missing, null, not a string or a string that does not
    parse, the line says [No due date]. *)
Theorem render_text_scenario `{DateLib} (title : str)
    (fields : list (str * Json)) (lines : list str) (aname : str) :
  let course := JObj [(lit "id", JNum 1);
                      (lit "name", JStr "Intro to X (Spring 2025)")] in
  let hw1 := assignment "HW1" (JStr "2025-03-01T00:00:00Z") in
  let final := assignment "Final" JNull in
  fromisoformat_utc "2025-03-01T00:00:00+00:00" =
    Some (mk_datetime 2025 3 1 0 0 0 0) ->
  sort_assignments [hw1; final] = Ok [hw1; final]
  /\ render_text title [course] {[ KInt 1 := [hw1; final] ]} =
     Ok (join newline
           [title; lit "";
            lit "Course: Intro to X (ID: 1)";
            text_line "HW1" "2025-03-01";
            text_line "Final" "No due date";
            lit ""])
  /\ (exists due, due_str (JObj fields) = Ok due)
  /\ (match fields_get "due_at" fields with
      | Some (JStr s) =>
          s = [] \/ fromisoformat_utc (replace_char "Z" "+00:00" s) = None
      | _ => True
      end ->
      due_str (JObj fields) = Ok (lit "No due date")
      /\ (assignment_name (JObj fields) = Ok aname ->
          text_row lines (JObj fields) =
          Ok (lines ++ [text_line aname "No due date"]))).
Proof.
  intros course hw1 final Hparse.
  split; [|split; [|split]].
  - vm_compute in Hparse. vm_compute. rewrite Hparse. reflexivity.
  - vm_compute in Hparse. vm_compute. rewrite Hparse. reflexivity.
  - unfold due_str, py_get_none, py_get. cbn [bind]. by eexists.
  - intros Hdue.
    assert (Hnone : parse_iso8601 (default JNull (fields_get "due_at" fields))
                    = None).
    { apply parse_iso8601_none. by destruct (fields_get "due_at" fields). }
    split.
    + unfold due_str, py_get_none, py_get. cbn [bind]. by rewrite Hnone.
    + intros Hname. by apply text_row_undated.
Qed.

(** The scenario with the dates of the upstream API, and an assignment
    whose due date is not a date. *)
Lemma render_text_intro_to_x :
  let course := JObj [(lit "id", JNum 1);
                      (lit "name", JStr "Intro to X (Spring 2025)")] in
  let hw1 := assignment "HW1" (JStr "2025-03-01T00:00:00Z") in
  let final := assignment "Final" JNull in
  @render_text utc_dates "Spring 2025" [course] {[ KInt 1 := [hw1; final] ]} =
    Ok (join newline
          [lit "Spring 2025"; lit "";
           lit "Course: Intro to X (ID: 1)";
           text_line "HW1" "2025-03-01";
           text_line "Final" "No due date";
           lit ""])
  /\ @text_row utc_dates [] (assignment " Essay " (JStr "next week")) =
     Ok [text_line "Essay" "No due date"].
Proof.
  intros course hw1 final.
  destruct (@render_text_scenario utc_dates "Spring 2025"
              [(lit "name", JStr " Essay "); (lit "due_at", JStr "next week")]
              [] "Essay" eq_refl)
    as (_ & Htext & _ & Hrow).
  split; [exact Htext|].
  apply Hrow; [right|]; reflexivity.
Defined.

(** * Further properties *)

(** ** Transport, on every session *)

Section TransportAny.
Context `{host : Host}.
Variables (url : str) (query : option params) (max_retries timeout : Z).

Lemma sleep_taken s lg lg' :
  time_sleep s lg = Ok lg' ->
  sleep_error s = None /\ 0 <= s /\ lg' = lg ++ [ESleep s].
Proof.
  unfold time_sleep. destruct (sleep_error s) eqn:Hs; [done|].
  intros [= <-]. split; [done|]. split; [|done].
  by apply sleep_error_none.
Qed.

Lemma sleep_error_kind s e :
  sleep_error s = Some e ->
  e = ValueError \/ e = OverflowError \/ e = OSError.
Proof.
  unfold sleep_error. destruct (_ || _); [intros [= <-]; tauto|].
  destruct (s <? 0); [intros [= <-]; tauto|].
  destruct (clock_accepts s); [done|]. intros [= <-]. tauto.
Qed.

(** What the loop tells once it has returned a response. *)
Lemma retry_loop_returned responses : forall attempt lg r w',
  retry_loop url query max_retries timeout attempt responses lg = (Ok r, w') ->
  exists pre new,
    responses = pre ++ r :: script w'
    /\ forallb retried pre = true
    /\ status_code r <> 429
    /\ (is_transient (status_code r) = true ->
        max_retries <= attempt + Z.of_nat (length pre))
    /\ log w' = lg ++ new
    /\ Forall (event_of_call url query timeout) new
    /\ length (List.filter is_get new) = S (length pre)
    /\ length (List.filter is_sleep new) = length pre.
Proof.
  induction responses as [|x rs IH]; intros attempt lg r w' Hr; [done|].
  cbn [retry_loop] in Hr.
  assert (Hstep : forall s lg',
    0 <= s -> lg' = (lg ++ [EGet url query timeout]) ++ [ESleep s] ->
    retried x = true ->
    retry_loop url query max_retries timeout (attempt + 1) rs lg' = (Ok r, w') ->
    exists pre new,
      x :: rs = pre ++ r :: script w'
      /\ forallb retried pre = true
      /\ status_code r <> 429
      /\ (is_transient (status_code r) = true ->
          max_retries <= attempt + Z.of_nat (length pre))
      /\ log w' = lg ++ new
      /\ Forall (event_of_call url query timeout) new
      /\ length (List.filter is_get new) = S (length pre)
      /\ length (List.filter is_sleep new) = length pre).
  { intros s lg' Hs -> Hx Hrec.
    destruct (IH _ _ _ _ Hrec)
      as (pre & new & -> & Hpre & H429 & Hmax & Hlog & Hev & Hg & Hsl).
    exists (x :: pre), (EGet url query timeout :: ESleep s :: new).
    repeat split.
    - cbn [forallb]. by rewrite Hx, Hpre.
    - done.
    - intros Ht. specialize (Hmax Ht). cbn [length]. lia.
    - rewrite Hlog, <- !app_assoc. done.
    - constructor; [done|]. constructor; [done|]. done.
    - cbn. by rewrite Hg.
    - cbn. by rewrite Hsl. }
  assert (Hnow : (Ok x, mk_world rs (lg ++ [EGet url query timeout])) = (Ok r, w') ->
    status_code x <> 429 ->
    (is_transient (status_code x) = true -> max_retries <= attempt) ->
    exists pre new,
      x :: rs = pre ++ r :: script w'
      /\ forallb retried pre = true
      /\ status_code r <> 429
      /\ (is_transient (status_code r) = true ->
          max_retries <= attempt + Z.of_nat (length pre))
      /\ log w' = lg ++ new
      /\ Forall (event_of_call url query timeout) new
      /\ length (List.filter is_get new) = S (length pre)
      /\ length (List.filter is_sleep new) = length pre).
  { intros [= <- <-] H429 Hmax. exists [], [EGet url query timeout].
    repeat split; try done.
    - intros Ht. specialize (Hmax Ht). cbn. lia.
    - by constructor. }
  destruct (Z.eqb_spec (status_code x) 429) as [E|Hne].
  - destruct (retry_after x) as [n|]; [|done].
    destruct (time_sleep n _) as [lg'|e] eqn:Hsl; [|done].
    apply sleep_taken in Hsl as (_ & Hn & ->).
    eapply (Hstep n); [done | reflexivity | | exact Hr].
    unfold retried. by rewrite E.
  - destruct (is_transient (status_code x)) eqn:Ht.
    + destruct (Z.geb_spec attempt max_retries).
      * apply Hnow; [done | done | intros _; lia].
      * destruct (time_sleep (2 ^ attempt) _) as [lg'|e] eqn:Hsl; [|done].
        apply sleep_taken in Hsl as (_ & Hn & ->).
        eapply (Hstep (2 ^ attempt)); [done | reflexivity | | exact Hr].
        unfold retried. rewrite Ht. apply orb_true_r.
    + apply Hnow; [done | done | done].
Qed.

(** What it tells once it has raised. *)
Lemma retry_loop_raised responses : forall attempt lg e w',
  0 <= attempt ->
  retry_loop url query max_retries timeout attempt responses lg = (Raise e, w') ->
  (e = NoResponse /\ script w' = [] /\ forallb retried responses = true)
  \/ (exists pre q, responses = pre ++ q :: script w'
        /\ forallb retried pre = true
        /\ ((status_code q = 429 /\ retry_after_error q = Some e)
            \/ (is_transient (status_code q) = true
                /\ 16 < attempt + Z.of_nat (length pre) < max_retries
                /\ sleep_error (2 ^ (attempt + Z.of_nat (length pre)))
                   = Some e))).
Proof.
  induction responses as [|x rs IH]; intros attempt lg e w' Ha Hr.
  { cbn in Hr. injection Hr as <- <-. by left. }
  cbn [retry_loop] in Hr.
  assert (Hstep : forall lg',
    retried x = true ->
    retry_loop url query max_retries timeout (attempt + 1) rs lg' = (Raise e, w') ->
    (e = NoResponse /\ script w' = [] /\ forallb retried (x :: rs) = true)
    \/ (exists pre q, x :: rs = pre ++ q :: script w'
          /\ forallb retried pre = true
          /\ ((status_code q = 429 /\ retry_after_error q = Some e)
              \/ (is_transient (status_code q) = true
                  /\ 16 < attempt + Z.of_nat (length pre) < max_retries
                  /\ sleep_error (2 ^ (attempt + Z.of_nat (length pre)))
                     = Some e)))).
  { intros lg' Hx Hrec.
    destruct (IH (attempt + 1) _ _ _ ltac:(lia) Hrec)
      as [(-> & Hs & Hall)|(pre & q & -> & Hpre & Hq)].
    - left. repeat split; [done|]. cbn [forallb]. by rewrite Hx, Hall.
    - right. exists (x :: pre), q. split; [done|]. split.
      { cbn [forallb]. by rewrite Hx, Hpre. }
      cbn [length]. rewrite Nat2Z.inj_succ.
      replace (attempt + Z.succ (Z.of_nat (length pre)))
        with (attempt + 1 + Z.of_nat (length pre)) by lia.
      exact Hq. }
  destruct (Z.eqb_spec (status_code x) 429) as [E|Hne].
  - assert (Hx : retried x = true) by (unfold retried; by rewrite E).
    destruct (retry_after x) as [n|] eqn:Hra.
    + destruct (time_sleep n _) as [lg'|e'] eqn:Hsl.
      * by eapply Hstep.
      * injection Hr as <- <-. apply sleep_raises in Hsl as [Hsl _].
        right. exists [], x. split; [done|]. split; [done|]. left.
        split; [done|]. unfold retry_after_error. by rewrite Hra.
    + injection Hr as <- <-. right. exists [], x.
      split; [done|]. split; [done|]. left. split; [done|].
      unfold retry_after_error. by rewrite Hra.
  - destruct (is_transient (status_code x)) eqn:Ht; [|done].
    destruct (Z.geb_spec attempt max_retries); [done|].
    destruct (time_sleep (2 ^ attempt) _) as [lg'|e'] eqn:Hsl.
    + eapply Hstep; [|done]. unfold retried. rewrite Ht. apply orb_true_r.
    + injection Hr as <- <-. apply sleep_raises in Hsl as [Hsl _].
      right. exists [], x. split; [done|]. split; [done|]. right.
      cbn [length]. rewrite Z.add_0_r. split; [done|]. split; [|done].
      split; [|lia].
      destruct (Z.le_gt_cases attempt 16) as [Hle|Hgt]; [|lia].
      rewrite sleep_error_backoff in Hsl by lia. done.
Qed.

(** The exceptions of the loop are those of [int] and [time.sleep], and
    the end of the responses. *)
Lemma retry_loop_raises_kind responses attempt lg e w' :
  retry_loop url query max_retries timeout attempt responses lg = (Raise e, w') ->
  e = NoResponse \/ e = ValueError \/ e = OverflowError \/ e = OSError.
Proof.
  revert attempt lg. induction responses as [|x rs IH]; intros attempt lg Hr.
  { cbn in Hr. injection Hr as <- <-. by left. }
  cbn [retry_loop] in Hr.
  destruct (status_code x =? 429).
  - destruct (retry_after x) as [n|].
    + destruct (time_sleep n _) as [lg'|e'] eqn:Hsl; [by eapply IH|].
      injection Hr as <- <-. apply sleep_raises in Hsl as [_ Hk]. tauto.
    + injection Hr as <- <-. tauto.
  - destruct (is_transient (status_code x)); [|done].
    destruct (attempt >=? max_retries); [done|].
    destruct (time_sleep (2 ^ attempt) _) as [lg'|e'] eqn:Hsl; [by eapply IH|].
    injection Hr as <- <-. apply sleep_raises in Hsl as [_ Hk]. tauto.
Qed.
End TransportAny.

(** X1. Whatever the session answers, a response that [_get_with_retries]
    returns is never a 429, and it is a 5xx only when at least
    [max_retries] responses were retried before it.  The responses before
    it were all 429 or 5xx, each cost one sleep, never negative, and one
    request; every request of the call is for the same URL, parameters
    and timeout. *)
Theorem get_with_retries_returned `{host : Host} (url : str)
    (query : option params)
    (max_retries timeout : Z) (w w' : world) (r : response) :
  _get_with_retries url query max_retries timeout w = (Ok r, w') ->
  exists pre new,
    script w = pre ++ r :: script w'
    /\ forallb retried pre = true
    /\ status_code r <> 429
    /\ (is_transient (status_code r) = true ->
        max_retries <= Z.of_nat (length pre))
    /\ log w' = log w ++ new
    /\ Forall (event_of_call url query timeout) new
    /\ length (List.filter is_get new) = S (length pre)
    /\ length (List.filter is_sleep new) = length pre.
Proof.
  intros Hr. unfold _get_with_retries in Hr.
  apply retry_loop_returned in Hr
    as (pre & new & H1 & H2 & H3 & H4 & H5).
  exists pre, new.
  split; [done|]. split; [done|]. split; [done|].
  split; [intros Ht; specialize (H4 Ht); lia|]. exact H5.
Qed.

Lemma get_with_retries_returned_example :
  let q := mk_response 429 [(lit "Retry-After", lit "2")] None in
  let r := mk_response 404 [] None in
  exists (pre : list response) (new : list event),
    [q; r] = pre ++ [r] /\ forallb retried pre = true
    /\ status_code r <> 429
    /\ [EGet "u" None 20; ESleep 2; EGet "u" None 20] = [] ++ new.
Proof.
  intros q r.
  assert (Hr : _get_with_retries "u" None 4 20 (mk_world [q; r] []) =
    (Ok r, mk_world [] [EGet "u" None 20; ESleep 2; EGet "u" None 20]))
    by (vm_compute; reflexivity).
  destruct (get_with_retries_returned "u" None 4 20 (mk_world [q; r] [])
              (mk_world [] [EGet "u" None 20; ESleep 2; EGet "u" None 20]) r
              Hr)
    as (pre & new & H1 & H2 & H3 & _ & H5 & _).
  exists pre, new. repeat split; assumption.
Defined.

(** X2. [_get_with_retries] raises what [int] and [time.sleep] raise, or
    because the session has nothing left to answer.  It raises at a 429
    response whose [Retry-After] is not an integer or is negative
    ([ValueError]), is beyond what the time type holds ([OverflowError]),
    or is refused by the host clock ([OSError]); and, when more than
    sixteen retries are allowed, at a 5xx response whose backoff
    [time.sleep] refuses.  Every response before was a 429 or a 5xx. *)
Theorem get_with_retries_raised `{host : Host} (url : str)
    (query : option params) (max_retries timeout : Z) (w w' : world)
    (e : exn) :
  _get_with_retries url query max_retries timeout w = (Raise e, w') ->
  (e = NoResponse \/ e = ValueError \/ e = OverflowError \/ e = OSError)
  /\ ((e = NoResponse /\ script w' = []
       /\ forallb retried (script w) = true)
      \/ (exists pre q, script w = pre ++ q :: script w'
            /\ forallb retried pre = true
            /\ ((status_code q = 429 /\ retry_after_error q = Some e)
                \/ (is_transient (status_code q) = true
                    /\ 16 < Z.of_nat (length pre) < max_retries
                    /\ sleep_error (2 ^ Z.of_nat (length pre)) = Some e)))).
Proof.
  intros Hr. unfold _get_with_retries in Hr. split.
  - by eapply retry_loop_raises_kind.
  - apply retry_loop_raised in Hr; [|lia].
    destruct Hr as [Hr|(pre & q & Hr)]; [by left | right].
    exists pre, q. by rewrite !Z.add_0_l in Hr.
Qed.

Lemma get_with_retries_raised_example :
  let x := mk_response 502 [] None in
  let q := mk_response 429
             [(lit "Retry-After", lit "99999999999999999999")] None in
  _get_with_retries "u" None 4 20 (mk_world [x; q; x] []) =
    (Raise OverflowError,
     mk_world [x] [EGet "u" None 20; ESleep 1; EGet "u" None 20])
  /\ (OverflowError = NoResponse \/ OverflowError = ValueError
      \/ OverflowError = OverflowError \/ OverflowError = OSError).
Proof.
  intros x q.
  assert (Hr : _get_with_retries "u" None 4 20 (mk_world [x; q; x] []) =
    (Raise OverflowError,
     mk_world [x] [EGet "u" None 20; ESleep 1; EGet "u" None 20]))
    by (vm_compute; reflexivity).
  split; [exact Hr|].
  exact (proj1 (get_with_retries_raised "u" None 4 20 _ _ OverflowError Hr)).
Defined.

(** ** Loops over a generator, on every session *)

Section LoopRules.
Context `{host : Host}.
Context {A : Type}.

(** Two bodies that agree give the same loop. *)
Lemma for_gen_ext (body1 body2 : A -> Json -> outcome (flow A)) fuel :
  (forall acc item, body1 acc item = body2 acc item) ->
  forall g acc w, for_gen fuel body1 g acc w = for_gen fuel body2 g acc w.
Proof.
  intros Hb. induction fuel as [|fuel IH]; intros g acc w; [done|].
  cbn [for_gen]. destruct (gen_next g w) as [[item g'| |e] w']; try done.
  rewrite Hb. destruct (body2 acc item) as [[a|a]|e]; try done.
Qed.

Lemma for_each_ext (body1 body2 : A -> Json -> outcome (flow A)) g acc w :
  (forall acc item, body1 acc item = body2 acc item) ->
  for_each body1 g acc w = for_each body2 g acc w.
Proof. intros Hb. by apply for_gen_ext. Qed.

Variable body : A -> Json -> outcome (flow A).

(** An invariant of the accumulator holds of the result. *)
Lemma for_gen_invariant (I Q : A -> Prop) fuel :
  (forall a x a', I a -> body a x = Ok (Continue a') -> I a') ->
  (forall a x a', I a -> body a x = Ok (Break a') -> Q a') ->
  (forall a, I a -> Q a) ->
  forall g acc w r w',
    I acc -> for_gen fuel body g acc w = (Ok r, w') -> Q r.
Proof.
  intros Hc Hb Hq. induction fuel as [|fuel IH]; intros g acc w r w' Hi Hr;
    [done|].
  cbn [for_gen] in Hr.
  destruct (gen_next g w) as [[item g'| |e] w1]; [| |done].
  - destruct (body acc item) as [[a|a]|e] eqn:Hbody; [| |done].
    + eapply IH; [|done]. by eapply Hc.
    + injection Hr as <- <-. by eapply Hb.
  - injection Hr as <- <-. by apply Hq.
Qed.

(** The HTTP errors of a loop are those of [paginate]: statuses from 400
    to 599. *)
Lemma fetch_loop_http_error fuel : forall url query w status w',
  fetch_loop fuel url query w = (Throw (HTTPError status), w') ->
  400 <= status < 600.
Proof.
  induction fuel as [|fuel IH]; intros url query w status w' Hf;
    cbn [fetch_loop] in Hf.
  { by destruct (url_truthy url). }
  destruct (url_truthy url); [|done].
  destruct (_get_with_retries _ _ _ _ w) as [[resp|e] w1] eqn:Hget.
  - destruct (resp_ok resp) eqn:Hok.
    + destruct (resp_json resp) as [data|]; [|done].
      destruct (page_items data); [|done]. by eapply IH.
    + injection Hf as <- <-. unfold resp_ok in Hok.
      apply negb_false_iff, andb_prop in Hok as [H1 H2]. lia.
  - injection Hf as -> <-.
    unfold _get_with_retries in Hget.
    apply retry_loop_raises_kind in Hget as [?|[?|[?|?]]]; done.
Qed.

Lemma gen_next_http_error g w status w' :
  gen_next g w = (Throw (HTTPError status), w') -> 400 <= status < 600.
Proof.
  unfold gen_next. destruct g as [url query|[|item rest] resp]; [| |done];
    apply fetch_loop_http_error.
Qed.

Lemma for_gen_http_error fuel :
  (forall a x status, body a x <> Raise (HTTPError status)) ->
  forall g acc w status w',
    for_gen fuel body g acc w = (Raise (HTTPError status), w') ->
    400 <= status < 600.
Proof.
  intros Hbody. induction fuel as [|fuel IH]; intros g acc w status w' Hr;
    [done|].
  cbn [for_gen] in Hr.
  destruct (gen_next g w) as [[item g'| |e] w1] eqn:Hnext; [|done|].
  - pose proof (Hbody acc item) as Hb.
    destruct (body acc item) as [[a|a]|e]; [by eapply IH | done |].
    injection Hr as -> <-. by destruct (Hb status).
  - injection Hr as -> <-. by eapply gen_next_http_error.
Qed.
End LoopRules.

(** ** Courses of a term, on every session *)

Section TermSearchAny.
Variables (term_sub : str) (max_courses : Z).

Lemma course_step_continue matches c matches' :
  course_step term_sub max_courses matches c = Ok (Continue matches') ->
  Z.of_nat (length matches') < max_courses
  /\ (matches' = matches \/ (matches' = matches ++ [c] /\ keeps term_sub c = true)).
Proof.
  unfold course_step, keeps.
  destruct (term_matches term_sub c) as [hit|]; [|done]. cbn [bind].
  destruct (Z.geb_spec (Z.of_nat (length (if hit then matches ++ [c] else matches)))
              max_courses); [done|].
  intros [= <-]. split; [done|]. destruct hit; [by right | by left].
Qed.

Lemma course_step_break matches c matches' :
  course_step term_sub max_courses matches c = Ok (Break matches') ->
  max_courses <= Z.of_nat (length matches')
  /\ (matches' = matches \/ (matches' = matches ++ [c] /\ keeps term_sub c = true)).
Proof.
  unfold course_step, keeps.
  destruct (term_matches term_sub c) as [hit|]; [|done]. cbn [bind].
  destruct (Z.geb_spec (Z.of_nat (length (if hit then matches ++ [c] else matches)))
              max_courses); [|done].
  intros [= <-]. split; [done|]. destruct hit; [by right | by left].
Qed.

Lemma course_step_no_http_error matches c status :
  course_step term_sub max_courses matches c <> Raise (HTTPError status).
Proof.
  unfold course_step, term_matches, course_term, py_get_none, py_get, py_lower.
  destruct c as [| | | | |fields]; try done. cbn [bind].
  destruct (truthy _).
  - destruct (default JNull (fields_get "term" fields)); try done. cbn [bind].
    destruct (default (JStr "") _); try done. cbn [bind].
    by destruct (_ >=? _).
  - cbn [bind]. destruct (default (JStr "") _); try done. cbn [bind].
    by destruct (_ >=? _).
Qed.
End TermSearchAny.

(** The listing is within the limit and filtered, whatever the session
    answers. *)
Lemma listing_within_limit `{host : Host} base_url endpoint term_sub
    max_courses w w' courses :
  list_courses_generic base_url endpoint term_sub max_courses w
    = (Ok courses, w') ->
  Z.of_nat (length courses) <= Z.max 1 max_courses
  /\ forallb (keeps term_sub) courses = true.
Proof.
  unfold list_courses_generic, for_each. intros Hr.
  apply (for_gen_invariant (course_step term_sub max_courses)
           (fun a => forallb (keeps term_sub) a = true
                     /\ (a = [] \/ Z.of_nat (length a) < max_courses))
           (fun a => Z.of_nat (length a) <= Z.max 1 max_courses
                     /\ forallb (keeps term_sub) a = true)) in Hr.
  - done.
  - intros a x a' [Hk _] Hs. apply course_step_continue in Hs as [Hlt Ha'].
    split; [|by right].
    destruct Ha' as [->|[-> Hx]]; [done|].
    rewrite forallb_app, Hk. cbn. by rewrite Hx.
  - intros a x a' [Hk Hlen] Hs. apply course_step_break in Hs as [Hge Ha'].
    destruct Ha' as [->|[-> Hx]].
    + split; [|done]. destruct Hlen as [->|Hlt]; [cbn|]; lia.
    + split.
      * rewrite length_app. cbn [length].
        destruct Hlen as [->|Hlt]; [cbn|]; lia.
      * rewrite forallb_app, Hk. cbn. by rewrite Hx.
  - intros a [Hk Hlen]. split; [|done].
    destruct Hlen as [->|Hlt]; [cbn|]; lia.
  - split; [done | by left].
Qed.

(** X3. Whatever the session answers, the courses that
    [list_courses_generic] returns all pass the term filter, and there are
    at most [max_courses] of them, or one when [max_courses] is below
    one. *)
Theorem list_courses_generic_bounded `{host : Host}
    (base_url endpoint term_sub : str)
    (max_courses : Z) (w w' : world) (courses : list Json) :
  list_courses_generic base_url endpoint term_sub max_courses w
    = (Ok courses, w') ->
  Z.of_nat (length courses) <= Z.max 1 max_courses
  /\ forallb (keeps term_sub) courses = true.
Proof. apply listing_within_limit. Qed.

Lemma list_courses_generic_bounded_example :
  let page := mk_response 200 []
    (Some (JList [course_in 1 "Spring 2025"; course_in 2 "Fall 2024";
                  course_in 3 "Spring 2025"; course_in 4 "Spring 2025"])) in
  Z.of_nat (length [course_in 1 "Spring 2025"; course_in 3 "Spring 2025"])
    <= Z.max 1 2
  /\ forallb (keeps "spring")
       [course_in 1 "Spring 2025"; course_in 3 "Spring 2025"] = true.
Proof.
  intros page.
  apply (list_courses_generic_bounded "https://canvas" ep_courses "spring" 2
           (mk_world [page] [])
           (mk_world [] [EGet "https://canvas/api/v1/courses"
                           (Some course_query) 20])).
  vm_compute. reflexivity.
Defined.

(** X4. The term is looked for without regard to case: two substrings
    that differ in the case of their letters only give the same listing on
    every session. *)
Theorem list_courses_generic_ignores_case `{host : Host}
    (base_url endpoint t1 t2 : str)
    (max_courses : Z) (w : world) :
  lower t1 = lower t2 ->
  list_courses_generic base_url endpoint t1 max_courses w =
  list_courses_generic base_url endpoint t2 max_courses w.
Proof.
  intros Ht. unfold list_courses_generic. apply for_each_ext.
  intros acc item. unfold course_step, term_matches. by rewrite Ht.
Qed.

Lemma list_courses_generic_ignores_case_example :
  let page := mk_response 200 []
    (Some (JList [course_in 1 "Spring 2025"; course_in 2 "Fall 2024"])) in
  list_courses_generic "https://canvas" ep_courses "SPRING 2025" 2
    (mk_world [page] []) =
  list_courses_generic "https://canvas" ep_courses "spring 2025" 2
    (mk_world [page] []).
Proof.
  intros page.
  exact (list_courses_generic_ignores_case "https://canvas" ep_courses
           "SPRING 2025" "spring 2025" 2 (mk_world [page] []) eq_refl).
Defined.

Lemma lower_nil_iff (s : str) : lower s = [] <-> s = [].
Proof. by destruct s. Qed.

Lemma contains_nil_r (needle : str) :
  contains needle [] = bool_decide (needle = []).
Proof. by destruct needle. Qed.

(** X5. A course without a term name is listed for the empty substring
    only: a missing or null [term], or a term without [name], counts as the
    empty term name.  A term whose [name] is null is not read as empty: the
    filter raises on it. *)
Theorem term_matches_without_term_name (term_sub : str)
    (fields : list (str * Json)) :
  no_term_name fields = true ->
  term_matches term_sub (JObj fields) = Ok (bool_decide (term_sub = []))
  /\ forall tf rest,
       term_matches term_sub
         (JObj ((lit "term", JObj ((lit "name", JNull) :: tf)) :: rest))
       = Raise AttributeError.
Proof.
  intros Hn. split; [|done].
  unfold no_term_name in Hn.
  unfold term_matches, course_term, py_get_none, py_get. cbn [bind].
  assert (Hend : Ok (contains (lower term_sub) (lower (lit ""))) =
                 Ok (bool_decide (term_sub = []))).
  { change (lower (lit "")) with (@nil ascii). rewrite contains_nil_r.
    f_equal. apply bool_decide_ext, lower_nil_iff. }
  destruct (fields_get "term" fields) as [t|]; [|exact Hend].
  cbn [default from_option id]. destruct (truthy t) eqn:Ht; [|exact Hend].
  destruct t as [| | | | |tf]; try done.
  destruct (fields_get "name" tf) eqn:Hname; [done|]. exact Hend.
Qed.

Lemma term_matches_without_term_name_example :
  term_matches "Spring" (JObj [(lit "id", JNum 3); (lit "term", JNull)])
    = Ok false
  /\ term_matches "" (JObj [(lit "id", JNum 3); (lit "term", JNull)])
    = Ok true.
Proof.
  split.
  - exact (proj1 (term_matches_without_term_name "Spring"
                    [(lit "id", JNum 3); (lit "term", JNull)] eq_refl)).
  - exact (proj1 (term_matches_without_term_name ""
                    [(lit "id", JNum 3); (lit "term", JNull)] eq_refl)).
Defined.

Lemma list_courses_generic_http_error `{host : Host} base_url endpoint
    term_sub max_courses
    w status w' :
  list_courses_generic base_url endpoint term_sub max_courses w
    = (Raise (HTTPError status), w') ->
  400 <= status < 600.
Proof.
  unfold list_courses_generic, for_each.
  apply for_gen_http_error. intros a x s. apply course_step_no_http_error.
Qed.

(** X6. Whatever the session answers, [list_my_courses_for_term] never
    raises an HTTP error of status 500 or more: such an error of either
    endpoint is taken as no course found.  The HTTP errors it raises are
    those of status 400 to 499, and the courses it returns are within the
    limit and pass the term filter. *)
Theorem list_my_courses_for_term_outcome `{host : Host}
    (base_url term_sub : str)
    (max_courses : Z) (source : str) (w w' : world) :
  (forall status,
     list_my_courses_for_term base_url term_sub max_courses source w
       = (Raise (HTTPError status), w') ->
     400 <= status < 500)
  /\ (forall courses,
     list_my_courses_for_term base_url term_sub max_courses source w
       = (Ok courses, w') ->
     Z.of_nat (length courses) <= Z.max 1 max_courses
     /\ forallb (keeps term_sub) courses = true).
Proof.
  unfold list_my_courses_for_term.
  generalize (endpoints source). intros eps. revert w.
  induction eps as [|ep eps IH]; intros w.
  { split; [done|]. intros courses [= <- <-]. cbn. lia. }
  destruct (IH w) as [_ _]. cbn [try_endpoints].
  destruct (list_courses_generic base_url ep term_sub max_courses w)
    as [[[|c res]|e] w1] eqn:Hl.
  - apply IH.
  - split; [done|]. intros courses [= <- <-].
    by apply listing_within_limit in Hl.
  - destruct e; try (split; [done | done]).
    apply list_courses_generic_http_error in Hl.
    destruct (Z.geb_spec status 500); cbn [negb].
    + apply IH.
    + split; [|done]. intros s [= <- <-]. lia.
Qed.

(** A 404 of the first endpoint is raised again. *)
Lemma list_my_courses_for_term_404 :
  let nf := mk_response 404 [] None in
  let w' := mk_world [] [EGet "https://canvas/api/v1/courses"
                           (Some course_query) 20] in
  list_my_courses_for_term "https://canvas" "spring" 2 "courses"
    (mk_world [nf] []) = (Raise (HTTPError 404), w')
  /\ 400 <= 404 < 500.
Proof.
  intros nf w'.
  assert (H : list_my_courses_for_term "https://canvas" "spring" 2 "courses"
                (mk_world [nf] []) = (Raise (HTTPError 404), w'))
    by (vm_compute; reflexivity).
  split; [exact H|].
  exact (proj1 (list_my_courses_for_term_outcome "https://canvas" "spring" 2
                  "courses" (mk_world [nf] []) w') 404 H).
Defined.

(** Both endpoints give up on 5xx responses: no course, no error. *)
Example both_endpoints_fail :
  let x := mk_response 500 [] None in
  fst (list_my_courses_for_term "https://canvas" "spring" 2 "courses"
         (mk_world [x; x; x; x; x; x; x; x; x; x] [])) = Ok [].
Proof. vm_compute. reflexivity. Qed.

(** ** Paginator, with waits and failures *)

Section Waits.
Context `{host : Host}.
Context {A : Type} (body : A -> Json -> outcome (flow A)).

Lemma good_page_final r : good_page r = true -> final_response r = true.
Proof.
  unfold good_page, resp_ok, final_response, is_transient.
  intros [Hok _]%andb_prop. apply negb_true_iff in Hok.
  destruct (Z.eqb_spec (status_code r) 429) as [E|_];
    [rewrite E in Hok; discriminate|].
  destruct (Z.eqb_spec (status_code r) 500) as [E|_];
    [rewrite E in Hok; discriminate|].
  destruct (Z.eqb_spec (status_code r) 502) as [E|_];
    [rewrite E in Hok; discriminate|].
  destruct (Z.eqb_spec (status_code r) 503) as [E|_];
    [rewrite E in Hok; discriminate|].
  destruct (Z.eqb_spec (status_code r) 504) as [E|_];
    [rewrite E in Hok; discriminate|].
  reflexivity.
Qed.

Lemma final_response_returned url query max_retries timeout attempt qs r rest lg :
  forallb rate_limited qs = true -> final_response r = true ->
  retry_loop url query max_retries timeout attempt (qs ++ r :: rest) lg =
  (Ok r, mk_world rest
           (lg ++ rate_limit_log url query timeout qs
               ++ [EGet url query timeout])).
Proof.
  intros Hqs Hr. unfold final_response in Hr.
  apply andb_prop in Hr as [H429 Ht].
  apply negb_true_iff in H429, Ht. apply Z.eqb_neq in H429.
  rewrite retry_loop_rate_limits by done.
  rewrite retry_loop_returns by (done || by left).
  by rewrite <- app_assoc.
Qed.

(** Fetching a page through 429 responses puts the generator at its first
    item. *)
Lemma gen_next_page_waited url query qs r rest lg :
  forallb rate_limited qs = true ->
  good_page r = true -> url_truthy url = true ->
  gen_next (AtLoop url query) (mk_world (qs ++ r :: rest) lg) =
  gen_next (InPage (resp_items r) r)
    (mk_world rest
       (lg ++ rate_limit_log (default [] url) query default_timeout qs
           ++ [EGet (default [] url) query default_timeout])).
Proof.
  intros Hqs Hr Hu. unfold gen_next at 1.
  cbn [script]. cbn [fetch_loop].
  rewrite Hu. unfold _get_with_retries. cbn [script log].
  rewrite final_response_returned by (done || by apply good_page_final).
  unfold good_page in Hr. apply andb_prop in Hr as [Hok Hj].
  rewrite Hok. unfold resp_items.
  destruct (resp_json r) as [data|]; [|done].
  destruct (page_items data); [|done].
  unfold gen_next. cbn [script].
  apply fetch_loop_fuel; cbn [script]; rewrite ?length_app; cbn [length]; lia.
Qed.

Lemma for_each_whole_page_waited url query qs r rest lg acc a :
  forallb rate_limited qs = true ->
  good_page r = true -> url_truthy url = true ->
  fold_items body acc (resp_items r) = Ok (Continue a) ->
  for_each body (AtLoop url query) acc (mk_world (qs ++ r :: rest) lg) =
  for_each body (AtLoop (next_url r) None) a
    (mk_world rest
       (lg ++ rate_limit_log (default [] url) query default_timeout qs
           ++ [EGet (default [] url) query default_timeout])).
Proof.
  intros Hqs Hr Hu Hf.
  rewrite (for_each_unfold body (AtLoop url query)).
  rewrite gen_next_page_waited by done.
  rewrite <- (for_each_unfold body (InPage _ _)).
  rewrite for_each_in_page, Hf. apply for_each_end_of_page.
Qed.

(** The loop over pages with waits, gone through to the end. *)
Lemma for_each_all_pages_waited pps : forall url query acc lg rest a,
  url <> [] -> pages_linked (map snd pps) = true ->
  forallb (fun pp => forallb rate_limited (fst pp)) pps = true ->
  fold_items body acc (concat (map (fun pp => resp_items (snd pp)) pps))
    = Ok (Continue a) ->
  for_each body (AtLoop (Some url) query) acc
    (mk_world (script_with_waits pps ++ rest) lg) =
  (Ok a, mk_world rest (lg ++ walk_log url query pps)).
Proof.
  induction pps as [|[qs p] pps IH]; intros url query acc lg rest a Hu Hl Hw Hf;
    [discriminate|].
  cbn [map concat snd] in Hf. rewrite fold_items_app in Hf.
  destruct (fold_items body acc (resp_items p)) as [[a1|a1]|e] eqn:H1;
    try discriminate.
  cbn [forallb fst] in Hw. apply andb_prop in Hw as [Hqs Hw].
  cbn [map snd pages_linked] in Hl.
  unfold script_with_waits. cbn [flat_map fst snd].
  fold (script_with_waits pps). rewrite <- !app_assoc. cbn [app].
  assert (Hut : url_truthy (Some url) = true) by (by destruct url).
  destruct pps as [|pp2 pps].
  - apply andb_prop in Hl as [Hg Hn]. apply negb_true_iff in Hn.
    cbn in Hf. injection Hf as <-. cbn [script_with_waits flat_map app].
    rewrite (for_each_whole_page_waited _ _ _ _ _ _ _ a1) by done.
    rewrite for_each_stop by done. reflexivity.
  - cbn [map] in Hl. apply andb_prop in Hl as [Hc Hl].
    unfold continuing in Hc. apply andb_prop in Hc as [Hg Hn].
    rewrite (for_each_whole_page_waited _ _ _ _ _ _ _ a1) by done.
    destruct (next_url p) as [[|c u]|] eqn:Hnext; try discriminate.
    rewrite (IH (c :: u) None a1 _ rest a); [|done|done|done|done].
    cbn [walk_log default]. rewrite Hnext. cbn [default].
    by rewrite <- !app_assoc.
Qed.

(** A request that ends on a failing response ends the loop with its
    status. *)
Lemma for_each_failing url query acc w r w1 :
  url_truthy url = true ->
  _get_with_retries (default [] url) query default_max_retries
    default_timeout w = (Ok r, w1) ->
  resp_ok r = false ->
  for_each body (AtLoop url query) acc w =
  (Raise (HTTPError (status_code r)), w1).
Proof.
  intros Hu Hget Hok. rewrite for_each_unfold. unfold gen_next.
  cbn [fetch_loop]. by rewrite Hu, Hget, Hok.
Qed.

Lemma for_each_fails_after_pages done : forall url query acc lg tail a r w1,
  url <> [] -> forallb continuing done = true ->
  fold_items body acc (concat (map resp_items done)) = Ok (Continue a) ->
  _get_with_retries (fst (after_pages url query done))
    (snd (after_pages url query done)) default_max_retries default_timeout
    (mk_world tail (lg ++ walk_log url query (map (pair []) done)))
    = (Ok r, w1) ->
  resp_ok r = false ->
  for_each body (AtLoop (Some url) query) acc (mk_world (done ++ tail) lg) =
  (Raise (HTTPError (status_code r)), w1).
Proof.
  induction done as [|d done IH];
    intros url query acc lg tail a r w1 Hu Hd Hf Hget Hok.
  - cbn [after_pages fst snd map walk_log] in Hget. rewrite app_nil_r in Hget.
    cbn [app]. apply for_each_failing; [by destruct url | done | done].
  - cbn [forallb] in Hd. apply andb_prop in Hd as [Hc Hd].
    unfold continuing in Hc. apply andb_prop in Hc as [Hg Hn].
    cbn [map concat] in Hf. rewrite fold_items_app in Hf.
    destruct (fold_items body acc (resp_items d)) as [[a1|a1]|e] eqn:H1;
      try discriminate.
    cbn [app].
    rewrite (for_each_whole_page _ _ _ _ _ _ _ a1);
      [|done|by destruct url|done].
    destruct (next_url d) as [[|c u]|] eqn:Hnext; try discriminate.
    apply (IH (c :: u) None a1 _ tail a); [done|done|done| |done].
    cbn [after_pages map walk_log fst snd] in Hget.
    rewrite Hnext in Hget. cbn [default rate_limit_log flat_map app] in Hget.
    rewrite <- app_assoc. exact Hget.
Qed.
End Waits.

(** X7. Rate limiting does not show in what [paginate] yields.  Over
    pages 1 to N, each reached after any number of 429 responses whose
    [Retry-After] is a number that [time.sleep] takes, the items are those
    of the pages, each once and in order; every 429 costs a sleep of its
    [Retry-After] and the same request again, with the parameters for the
    first page only. *)
Theorem paginate_through_rate_limits `{host : Host} (url : str)
    (query : params) (pps : list (list response * response)) (rest : list response)
    (lg : list event) :
  url <> [] ->
  pages_linked (map snd pps) = true ->
  forallb (fun pp => forallb rate_limited (fst pp)) pps = true ->
  paginate_all url query (mk_world (script_with_waits pps ++ rest) lg) =
  (Ok (concat (map (fun pp => resp_items (snd pp)) pps)),
   mk_world rest (lg ++ walk_log url (Some query) pps)).
Proof.
  intros Hu Hl Hw. unfold paginate_all, paginate.
  apply (for_each_all_pages_waited _ pps url (Some query) []);
    [done | done | done | apply fold_items_collect].
Qed.

(** A 429 with [Retry-After: 5], then the page. *)
Lemma paginate_429_then_200 :
  let q := mk_response 429 [(lit "Retry-After", lit "5")] None in
  let p := mk_response 200 [] (Some (JList [JNum 1; JNum 2])) in
  paginate_all "https://canvas/api" [(lit "per_page", lit "100")]
    (mk_world [q; p] []) =
  (Ok [JNum 1; JNum 2],
   mk_world []
     [EGet "https://canvas/api" (Some [(lit "per_page", lit "100")]) 20;
      ESleep 5;
      EGet "https://canvas/api" (Some [(lit "per_page", lit "100")]) 20]).
Proof.
  intros q p.
  assert (Hu : lit "https://canvas/api" <> []) by discriminate.
  exact (paginate_through_rate_limits "https://canvas/api"
           [(lit "per_page", lit "100")] [([q], p)] [] [] Hu eq_refl eq_refl).
Defined.

(** X8. [paginate] raises for a failing page.  After any number of linked
    pages, a response of status 400 to 599 that [_get_with_retries]
    returns (at once when it is not a 5xx, after four retries when it is)
    makes the generator raise [HTTPError] with that status.  Nothing is
    requested after it, and [list(paginate(...))] delivers none of the
    items of the pages before. *)
Theorem paginate_raises_on_failed_page `{host : Host} (url : str)
    (query : params) (done xs : list response) (r : response)
    (rest : list response)
    (lg : list event) :
  url <> [] ->
  forallb continuing done = true ->
  forallb (fun x => is_transient (status_code x)) xs = true ->
  (length xs <= 4)%nat ->
  status_code r <> 429 ->
  is_transient (status_code r) = false \/ length xs = 4%nat ->
  resp_ok r = false ->
  paginate_all url query (mk_world (done ++ xs ++ r :: rest) lg) =
  (Raise (HTTPError (status_code r)),
   mk_world rest
     (lg ++ walk_log url (Some query) (map (pair []) done)
         ++ backoff_log (fst (after_pages url (Some query) done))
              (snd (after_pages url (Some query) done))
              default_timeout 0 (length xs))).
Proof.
  intros Hu Hd Hxs Hlen H429 Hend Hok. unfold paginate_all, paginate.
  eapply (for_each_fails_after_pages _ done url (Some query) []);
    [done | done | apply fold_items_collect | | done].
  unfold _get_with_retries. cbn [script log].
  rewrite retry_loop_backoff; unfold default_max_retries; try done.
  - by rewrite <- app_assoc.
  - right. lia.
  - destruct Hend; [by left | right; lia].
Qed.

(** A page, then a 403 for the next one. *)
Lemma paginate_403_on_second_page :
  let p := mk_response 200 (link_next "https://canvas/p2")
             (Some (JList [JNum 1])) in
  let r := mk_response 403 [] None in
  paginate_all "https://canvas/api" [] (mk_world [p; r] []) =
  (Raise (HTTPError 403),
   mk_world []
     [EGet "https://canvas/api" (Some []) 20;
      EGet "https://canvas/p2" None 20]).
Proof.
  intros p r.
  assert (Hu : lit "https://canvas/api" <> []) by discriminate.
  assert (H429 : status_code r <> 429) by discriminate.
  assert (Hlen : (length (@nil response) <= 4)%nat) by (cbn; lia).
  exact (paginate_raises_on_failed_page "https://canvas/api" [] [p] [] r [] []
           Hu eq_refl eq_refl Hlen H429 (or_introl eq_refl) eq_refl).
Defined.

(** ** Sorting and trimming *)

Lemma str_eqb_eq (a b : str) : str_eqb a b = true <-> a = b.
Proof.
  unfold str_eqb. apply bool_decide_eq_true.
Qed.

Section SortTrim.
Context `{DateLib}.

Lemma map_outcome_ok {A B} (f : A -> outcome B) l : forall out,
  map_outcome f l = Ok out -> Forall2 (fun a b => f a = Ok b) l out.
Proof.
  induction l as [|a l IH]; intros out Hm; cbn [map_outcome] in Hm.
  { injection Hm as <-. constructor. }
  destruct (f a) as [b|e] eqn:Hb; [|done]. cbn [bind] in Hm.
  destruct (map_outcome f l) as [bs|e]; [|done]. cbn [bind] in Hm.
  injection Hm as <-. constructor; [done | by apply IH].
Qed.

Lemma map_outcome_total {A B} (f : A -> outcome B) (g : A -> B) l :
  Forall (fun a => f a = Ok (g a)) l -> map_outcome f l = Ok (map g l).
Proof.
  induction 1 as [|a l Ha _ IH]; [done|].
  cbn [map_outcome map]. by rewrite Ha, IH.
Qed.

Lemma key_ok_obj a k : key a = Ok k -> is_obj a = true.
Proof. by destruct a. Qed.

Lemma sort_assignments_objects l out :
  sort_assignments l = Ok out -> forallb is_obj l = true.
Proof.
  unfold sort_assignments, sorted_by_key. intros Hs.
  destruct (map_outcome _ l) as [keyed|e] eqn:Hm; [|done].
  apply map_outcome_ok in Hm. clear Hs.
  induction Hm as [|a p l ps Ha _ IH]; [done|]. cbn [forallb].
  rewrite IH, andb_true_r.
  destruct (key a) as [k|e] eqn:Hk; [|done]. by eapply key_ok_obj.
Qed.

Lemma sort_keyed_fixed {A} (l : list (sort_key * A)) :
  StronglySorted keyed_le l -> sort_keyed l = l.
Proof. intros Hs. symmetry. by apply sort_keyed_unique. Qed.

Lemma decorate_map_snd (ps : list (sort_key * Json)) :
  Forall (fun p => fst p = key_of (snd p)) ps -> decorate (map snd ps) = ps.
Proof.
  induction 1 as [|[k a] ps Hp _ IH]; [done|].
  cbn [fst snd] in Hp. subst k. unfold decorate in *. cbn [map snd].
  by rewrite IH.
Qed.

Lemma insert_keyed_map {A B} (f : A -> B) x (l : list (sort_key * A)) :
  map (prod_map id f) (insert_keyed x l) =
  insert_keyed (prod_map id f x) (map (prod_map id f) l).
Proof.
  induction l as [|y l IH]; [done|]. cbn [insert_keyed map].
  change (fst (prod_map id f y)) with (fst y).
  change (fst (prod_map id f x)) with (fst x).
  destruct (key_ltb (fst y) (fst x)); [|done]. cbn [map]. by rewrite IH.
Qed.

Lemma sort_keyed_map {A B} (f : A -> B) (l : list (sort_key * A)) :
  map (prod_map id f) (sort_keyed l) = sort_keyed (map (prod_map id f) l).
Proof.
  induction l as [|x l IH]; [done|]. cbn [sort_keyed foldr map].
  fold (sort_keyed l). fold (sort_keyed (map (prod_map id f) l)).
  by rewrite insert_keyed_map, IH.
Qed.

Lemma trimmed_assignment_obj a t :
  trimmed_assignment a = Ok t ->
  exists fields name,
    a = JObj fields
    /\ assignment_name a = Ok name
    /\ t = JObj [(lit "name", JStr name);
                 (lit "due_at", default JNull (fields_get "due_at" fields));
                 (lit "published",
                  default (JBool true) (fields_get "published" fields))].
Proof.
  unfold trimmed_assignment. intros Ht.
  destruct (assignment_name a) as [name|e] eqn:Hn; [|done].
  destruct a as [| | | | |fields]; try done.
  cbn in Ht. injection Ht as <-. by exists fields, name.
Qed.

Lemma assignment_name_stripped a name :
  assignment_name a = Ok name -> strip name = name.
Proof.
  unfold assignment_name. destruct (py_get_none a "name") as [v|e]; [|done].
  cbn [bind]. destruct (if truthy v then v else _); try done.
  intros [= <-]. apply strip_idem.
Qed.
End SortTrim.

(** X9. Sorting is idempotent: a list that [sort_assignments] returned is
    returned as it is when sorted again. *)
Theorem sort_assignments_idempotent `{DateLib} (l out : list Json) :
  sort_assignments l = Ok out -> sort_assignments out = Ok out.
Proof.
  intros Hs. pose proof (sort_assignments_objects l out Hs) as Hl.
  rewrite sort_assignments_decorate in Hs by done. injection Hs as <-.
  rewrite sort_assignments_decorate.
  - rewrite decorate_map_snd by apply decorated_sorted.
    by rewrite sort_keyed_fixed by apply sort_keyed_sorted.
  - apply forallb_forall. intros a Ha.
    rewrite forallb_forall in Hl. apply Hl.
    apply list_elem_of_In. apply list_elem_of_In in Ha.
    eapply elem_of_Permutation_proper; [|exact Ha].
    symmetry. etrans; [apply Permutation_map, sort_keyed_perm|].
    unfold decorate. rewrite map_map. cbn. by rewrite map_id.
Qed.

Lemma sort_twice_example :
  let hw := assignment "HW" (JStr "2025-03-01T00:00:00+00:00") in
  let quiz := assignment "Quiz" JNull in
  @sort_assignments utc_dates [hw; quiz] = Ok [hw; quiz].
Proof.
  intros hw quiz.
  exact (@sort_assignments_idempotent utc_dates [quiz; hw] [hw; quiz]
           eq_refl).
Defined.

(** X10. What [main] keeps of an assignment.  The record built at line 231
    has the three keys [name], [due_at] and [published]; it sorts under the
    key of the assignment and shows the same due date.  Its name is the
    stripped name, so the renderers show that name again, except that a name
    of blanks only has become empty and is shown as [Untitled]. *)
Theorem trimmed_assignment_renders `{DateLib} (a t : Json) :
  trimmed_assignment a = Ok t ->
  is_trimmed t = true
  /\ key t = key a
  /\ due_str t = due_str a
  /\ exists name due,
       assignment_name a = Ok name
       /\ assignment_name t = Ok (shown_name name)
       /\ due_str t = Ok due.
Proof.
  intros Ht. apply trimmed_assignment_obj in Ht as (fields & name & -> & Hn & ->).
  pose proof (assignment_name_stripped _ _ Hn) as Hstrip.
  split.
  { cbn. apply str_eqb_eq in Hstrip. by rewrite Hstrip. }
  split; [done|]. split; [done|].
  exists name. eexists. split; [done|]. split; [|reflexivity].
  destruct name as [|c name]; [done|].
  transitivity (Ok (strip (c :: name))); [reflexivity | by rewrite Hstrip].
Qed.

Lemma trimmed_blank_name :
  let a := JObj [(lit "name", JStr "  "); (lit "id", JNum 7)] in
  let t := JObj [(lit "name", JStr ""); (lit "due_at", JNull);
                 (lit "published", JBool true)] in
  assignment_name a = Ok (lit "") /\ assignment_name t = Ok (lit "Untitled").
Proof.
  intros a t.
  destruct (@trimmed_assignment_renders utc_dates a t eq_refl)
    as (_ & _ & _ & name & due & Hn & Ht & _).
  split; [reflexivity|].
  vm_compute in Hn. injection Hn as <-. exact Ht.
Defined.

Section TrimThenSort.
Context `{DateLib}.



Lemma trimmed_key_of a t : trimmed_assignment a = Ok t -> key_of t = key_of a.
Proof.
  intros Ht. by apply trimmed_assignment_obj in Ht as (fields & name & -> & _ & ->).
Qed.

Lemma decorate_trimmed l :
  Forall (fun a => exists t, trimmed_assignment a = Ok t) l ->
  decorate (map trimmed_or_same l) = map (prod_map id trimmed_or_same) (decorate l).
Proof.
  induction 1 as [|a l [t Ht] _ IH]; [done|].
  unfold decorate in *. cbn [map]. rewrite IH. f_equal.
  unfold prod_map. cbn [fst snd id]. f_equal.
  unfold trimmed_or_same. rewrite Ht. by apply trimmed_key_of.
Qed.
End TrimThenSort.

(** X11. Trimming and sorting can be done in either order.  When every
    assignment of a list can be trimmed, the list can be sorted, and
    sorting the trimmed records as [main] does gives the records of the
    sorted assignments. *)
Theorem trimming_commutes_with_sorting `{DateLib} (l t : list Json) :
  map_outcome trimmed_assignment l = Ok t ->
  exists s ts,
    sort_assignments l = Ok s
    /\ map_outcome trimmed_assignment s = Ok ts
    /\ sort_assignments t = Ok ts.
Proof.
  intros Hm. apply map_outcome_ok in Hm.
  assert (Hall : Forall (fun a => exists t, trimmed_assignment a = Ok t) l).
  { clear -Hm. induction Hm; constructor; eauto. }
  assert (Ht : t = map trimmed_or_same l).
  { clear -Hm. induction Hm as [|a b l t Ha _ IH]; [done|].
    cbn [map]. unfold trimmed_or_same at 1. by rewrite Ha, IH. }
  assert (Hobj : forallb is_obj l = true).
  { apply forallb_forall. intros a Ha. apply list_elem_of_In in Ha.
    rewrite Forall_forall in Hall. destruct (Hall a Ha) as [b Hb].
    by apply trimmed_assignment_obj in Hb as (fields & name & -> & _). }
  assert (Hobj' : forallb is_obj t = true).
  { apply forallb_forall. intros b Hb. apply list_elem_of_In in Hb.
    subst t. apply list_elem_of_fmap in Hb as (a & -> & Ha).
    rewrite Forall_forall in Hall. destruct (Hall a Ha) as [b Hb].
    unfold trimmed_or_same. rewrite Hb.
    by apply trimmed_assignment_obj in Hb as (fields & name & _ & _ & ->). }
  exists (map snd (sort_keyed (decorate l))).
  exists (map trimmed_or_same (map snd (sort_keyed (decorate l)))).
  split; [by apply sort_assignments_decorate|]. split.
  - apply map_outcome_total. apply Forall_forall. intros a Ha.
    assert (Hin : a ∈ l).
    { eapply elem_of_Permutation_proper; [|exact Ha].
      symmetry. etrans; [apply Permutation_map, sort_keyed_perm|].
      unfold decorate. rewrite map_map. cbn. by rewrite map_id. }
    rewrite Forall_forall in Hall. destruct (Hall a Hin) as [b Hb].
    unfold trimmed_or_same. by rewrite Hb.
  - rewrite sort_assignments_decorate by done. f_equal. subst t.
    rewrite decorate_trimmed by done.
    rewrite <- sort_keyed_map, !map_map. done.
Qed.

Lemma trim_then_sort_example :
  let hw := assignment " HW " (JStr "2025-03-01T00:00:00+00:00") in
  let quiz := assignment "Quiz" JNull in
  exists s ts,
    @sort_assignments utc_dates [quiz; hw] = Ok s
    /\ map_outcome trimmed_assignment s = Ok ts
    /\ @sort_assignments utc_dates
         [JObj [(lit "name", JStr "Quiz"); (lit "due_at", JNull);
                (lit "published", JBool true)];
          JObj [(lit "name", JStr "HW");
                (lit "due_at", JStr "2025-03-01T00:00:00+00:00");
                (lit "published", JBool true)]] = Ok ts.
Proof.
  intros hw quiz.
  exact (@trimming_commutes_with_sorting utc_dates [quiz; hw] _ eq_refl).
Defined.

(** ** Assignments of a course *)

Lemma assignments_url_truthy base_url course_id :
  url_truthy (Some (assignments_url base_url course_id)) = true.
Proof. unfold assignments_url. by destruct base_url. Qed.

Lemma assignment_step_obj items fields :
  assignment_step items (JObj fields) =
  Ok (Continue (if visible (JObj fields) then items ++ [JObj fields]
                else items)).
Proof.
  unfold assignment_step, visible. cbn [has_published bind py_get].
  destruct (fields_get "published" fields) as [v|]; [|done].
  cbn [default from_option id]. by destruct (truthy v).
Qed.

Lemma fold_items_assignments items : forall acc,
  forallb is_obj items = true ->
  fold_items assignment_step acc items =
  Ok (Continue (acc ++ List.filter visible items)).
Proof.
  induction items as [|a items IH]; intros acc Hobj.
  { cbn. by rewrite app_nil_r. }
  cbn [forallb] in Hobj. apply andb_prop in Hobj as [Ha Hobj].
  destruct a as [| | | | |fields]; try done.
  cbn [fold_items List.filter]. rewrite assignment_step_obj.
  destruct (visible (JObj fields)); rewrite IH by done; [|done].
  by rewrite <- app_assoc.
Qed.

(** The loop body raises no HTTP error, and what it appends is the item
    itself. *)
Lemma assignment_step_cases items a :
  match assignment_step items a with
  | Ok (Continue items') =>
      items' = items
      \/ (items' = items ++ [a] /\ (is_obj a = true -> visible a = true))
  | Ok (Break _) => False
  | Raise e => e = TypeError \/ e = AttributeError
  end.
Proof.
  destruct a as [|b|n|s|l|fields]; try (by left).
  - unfold assignment_step. cbn [has_published bind].
    destruct (contains _ s); [by right | right; by split].
  - unfold assignment_step. cbn [has_published bind].
    destruct (existsb _ l); [by right | right; by split].
  - rewrite assignment_step_obj.
    destruct (visible (JObj fields)) eqn:Hv; [right; by split | by left].
Qed.

(** X12. Over pages 1 to N of assignment objects, [list_assignments]
    returns the assignments that have no [published] key or a true one, in
    the order of the pages; the others are left out.  It asks for 100 items
    per page on the first request. *)
Theorem list_assignments_published `{host : Host} (base_url : str)
    (course_id : Z)
    (pages rest : list response) (lg : list event) :
  pages_linked pages = true ->
  forallb is_obj (concat (map resp_items pages)) = true ->
  list_assignments base_url course_id (mk_world (pages ++ rest) lg) =
  (Ok (List.filter visible (concat (map resp_items pages))),
   mk_world rest
     (lg ++ EGet (assignments_url base_url course_id)
              (Some assignments_query) default_timeout
         :: next_requests pages)).
Proof.
  intros Hl Hobj. unfold list_assignments, paginate.
  rewrite (for_each_all_pages assignment_step pages _ _ [] lg rest
             (List.filter visible (concat (map resp_items pages))));
    [done | apply assignments_url_truthy | done |].
  by rewrite fold_items_assignments.
Qed.

Lemma list_assignments_one_page :
  let hw := JObj [(lit "name", JStr "HW"); (lit "published", JBool true)] in
  let draft := JObj [(lit "name", JStr "Draft"); (lit "published", JBool false)] in
  let old := JObj [(lit "name", JStr "Old")] in
  let page := mk_response 200 [] (Some (JList [hw; draft; old])) in
  list_assignments "https://canvas" 7 (mk_world [page] []) =
  (Ok [hw; old],
   mk_world []
     [EGet "https://canvas/api/v1/courses/7/assignments"
        (Some [(lit "per_page", lit "100")]) 20]).
Proof.
  intros hw draft old page.
  exact (list_assignments_published "https://canvas" 7 [page] [] []
           eq_refl eq_refl).
Defined.

(** X13. Whatever the session answers, no unpublished assignment is among
    those that [list_assignments] returns: every object in the result is
    visible.  An error it raises is one of the transport or of [paginate],
    or the [TypeError] or [AttributeError] of an item that is not an
    object; an HTTP error has a status from 400 to 599. *)
Theorem list_assignments_outcome `{host : Host} (base_url : str) (course_id : Z)
    (w w' : world) :
  (forall items,
     list_assignments base_url course_id w = (Ok items, w') ->
     forall a, In a items -> is_obj a = true -> visible a = true)
  /\ (forall e,
     list_assignments base_url course_id w = (Raise e, w') ->
     e <> KeyError /\ forall status, e = HTTPError status -> 400 <= status < 600).
Proof.
  unfold list_assignments. split.
  - intros items Hr. unfold for_each in Hr.
    eapply (for_gen_invariant assignment_step
             (fun acc => forall a, In a acc -> is_obj a = true -> visible a = true)
             (fun acc => forall a, In a acc -> is_obj a = true -> visible a = true));
      [ | |done| |exact Hr]; [| |done].
    + intros acc x acc' Hacc Hs. pose proof (assignment_step_cases acc x) as Hc.
      rewrite Hs in Hc. destruct Hc as [->|[-> Hx]]; [done|].
      intros a [Ha|[<-|[]]]%in_app_or; [by apply Hacc | done].
    + intros acc x acc' _ Hs. pose proof (assignment_step_cases acc x) as Hc.
      by rewrite Hs in Hc.
  - intros e Hr. split.
    + intros ->. unfold for_each in Hr. revert Hr.
      generalize (budget (paginate (assignments_url base_url course_id)
                            assignments_query) w).
      generalize (paginate (assignments_url base_url course_id)
                    assignments_query).
      generalize (@nil Json). revert w.
      intros w acc g fuel. revert w acc g.
      induction fuel as [|fuel IH]; intros w acc g Hr; [done|].
      cbn [for_gen] in Hr.
      destruct (gen_next g w) as [[item g'| |e] w1] eqn:Hnext; [|done|].
      * pose proof (assignment_step_cases acc item) as Hc.
        destruct (assignment_step acc item) as [[a|a]|e]; [by eapply IH|done|].
        injection Hr as -> _. by destruct Hc.
      * injection Hr as -> _. unfold gen_next in Hnext.
        assert (Hk : forall f u q w0, fetch_loop f u q w0 <> (Throw KeyError, w1)).
        { clear. induction f as [|f IH]; intros u q w0; cbn [fetch_loop].
          - by destruct (url_truthy u).
          - destruct (url_truthy u); [|done].
            destruct (_get_with_retries _ _ _ _ w0) as [[resp|e] w2] eqn:Hget.
            + destruct (resp_ok resp); [|done].
              destruct (resp_json resp) as [data|]; [|done].
              destruct (page_items data); [|done]. apply IH.
            + unfold _get_with_retries in Hget.
              apply retry_loop_raises_kind in Hget as [->|[->|[->| ->]]];
                done. }
        destruct g as [u q|[|i r] resp]; [| |done]; by apply Hk in Hnext.
    + intros status ->. unfold for_each in Hr.
      eapply for_gen_http_error; [|exact Hr].
      intros acc x s Hs. pose proof (assignment_step_cases acc x) as Hc.
      rewrite Hs in Hc. by destruct Hc.
Qed.

Lemma list_assignments_404 :
  let nf := mk_response 404 [] None in
  list_assignments "https://canvas" 7 (mk_world [nf] []) =
    (Raise (HTTPError 404),
     mk_world [] [EGet "https://canvas/api/v1/courses/7/assignments"
                    (Some assignments_query) 20])
  /\ 400 <= 404 < 600.
Proof.
  intros nf.
  assert (H : list_assignments "https://canvas" 7 (mk_world [nf] []) =
    (Raise (HTTPError 404),
     mk_world [] [EGet "https://canvas/api/v1/courses/7/assignments"
                    (Some assignments_query) 20]))
    by (vm_compute; reflexivity).
  split; [exact H|].
  exact (proj2 (proj2 (list_assignments_outcome "https://canvas" 7 _ _)
                  (HTTPError 404) H) 404 eq_refl).
Defined.

(** ** What [main] stores for a course *)

Section CourseAssignments.
Context `{DateLib}.

Lemma map_outcome_raise {A B} (f : A -> outcome B) l e :
  map_outcome f l = Raise e -> exists a, In a l /\ f a = Raise e.
Proof.
  induction l as [|a l IH]; [done|]. cbn [map_outcome].
  destruct (f a) as [b|e1] eqn:Ha; cbn [bind].
  - destruct (map_outcome f l) as [bs|e2]; [done|]. cbn [bind].
    intros [= ->]. destruct IH as (x & Hx & Hfx); [done|].
    exists x. split; [by right | done].
  - intros [= ->]. exists a. split; [by left | done].
Qed.

Lemma trimmed_assignment_raise a e :
  trimmed_assignment a = Raise e -> e = AttributeError.
Proof.
  unfold trimmed_assignment, assignment_name, py_get_none, py_get.
  destruct a as [| | | | |fields]; cbn [bind]; try by intros [= <-].
  destruct (if truthy _ then _ else _); cbn [bind]; by intros [= <-].
Qed.

Lemma sort_assignments_raise l e :
  sort_assignments l = Raise e -> e = AttributeError.
Proof.
  unfold sort_assignments, sorted_by_key.
  destruct (map_outcome _ l) as [keyed|e1] eqn:Hm; [done|]. cbn [bind].
  intros [= ->]. apply map_outcome_raise in Hm as (a & _ & Ha).
  unfold key, py_get_none, py_get in Ha.
  destruct a as [| | | | |fields]; cbn [bind] in Ha; try by injection Ha.
  by destruct (parse_iso8601 _).
Qed.

Lemma trimmed_is_trimmed a t :
  trimmed_assignment a = Ok t -> is_trimmed t = true.
Proof.
  intros Ht. apply trimmed_assignment_obj in Ht as (fields & name & -> & Hn & ->).
  apply assignment_name_stripped, str_eqb_eq in Hn. cbn. by rewrite Hn.
Qed.

Lemma is_trimmed_obj t : is_trimmed t = true -> is_obj t = true.
Proof. by destruct t. Qed.

Lemma sorted_trimmed t out :
  forallb is_trimmed t = true -> sort_assignments t = Ok out ->
  forallb is_trimmed out = true
  /\ forall i j a b, (i < j)%nat -> out !! i = Some a -> out !! j = Some b ->
       key_ltb (key_of b) (key_of a) = false.
Proof.
  intros Ht Hs.
  assert (Hobj : forallb is_obj t = true).
  { rewrite forallb_forall in Ht. apply forallb_forall. intros a Ha.
    by apply is_trimmed_obj, Ht. }
  rewrite sort_assignments_decorate in Hs by done. injection Hs as <-.
  split.
  - apply forallb_forall. intros a Ha. rewrite forallb_forall in Ht.
    apply Ht. apply list_elem_of_In. apply list_elem_of_In in Ha.
    eapply elem_of_Permutation_proper; [|exact Ha].
    symmetry. etrans; [apply Permutation_map, sort_keyed_perm|].
    unfold decorate. rewrite map_map. cbn. by rewrite map_id.
  - apply (strongly_sorted_lookup
             (fun a b => key_ltb (key_of b) (key_of a) = false)).
    apply sorted_map_snd; [apply decorated_sorted | apply sort_keyed_sorted].
Qed.
End CourseAssignments.

(** X14. Whatever the session answers, the loop body of [main] for a course
    raises no HTTP error: one raised while the assignments are listed is
    taken as no assignment.  The list it stores holds records of the three
    keys [name], [due_at] and [published], with stripped names, in the
    order of the sort keys. *)
Theorem course_assignments_outcome `{host : Host} `{DateLib}
    (base_url : str) (cid : Z) (w w' : world) :
  (forall e, course_assignments base_url cid w = (Raise e, w') ->
     forall status, e <> HTTPError status)
  /\ (forall out, course_assignments base_url cid w = (Ok out, w') ->
      forallb is_trimmed out = true
      /\ forall i j a b, (i < j)%nat ->
           out !! i = Some a -> out !! j = Some b ->
           key_ltb (key_of b) (key_of a) = false).
Proof.
  unfold course_assignments.
  destruct (list_assignments base_url cid w) as [r w1].
  assert (Hbody : forall all_as : list Json,
    (forall e, (let* trimmed := map_outcome trimmed_assignment all_as in
                sort_assignments trimmed) = Raise e ->
       forall status, e <> HTTPError status)
    /\ (forall out, (let* trimmed := map_outcome trimmed_assignment all_as in
                     sort_assignments trimmed) = Ok out ->
        forallb is_trimmed out = true
        /\ forall i j a b, (i < j)%nat ->
             out !! i = Some a -> out !! j = Some b ->
             key_ltb (key_of b) (key_of a) = false)).
  { intros all_as.
    destruct (map_outcome trimmed_assignment all_as) as [t|e1] eqn:Hm;
      cbn [bind].
    - split.
      + intros e He status ->. by apply sort_assignments_raise in He.
      + intros out Hs. apply (sorted_trimmed t); [|done].
        apply map_outcome_ok in Hm. clear Hs.
        induction Hm as [|a b l t Ha _ IH]; [done|]. cbn [forallb].
        by rewrite (trimmed_is_trimmed a b), IH.
    - split; [|done]. intros e [= <-] status ->.
      apply map_outcome_raise in Hm as (a & _ & Ha).
      by apply trimmed_assignment_raise in Ha. }
  destruct r as [items|e0].
  - cbn [bind]. destruct (Hbody items) as [H1 H2]. split.
    + intros e [= He <-]. by apply H1.
    + intros out [= Ho <-]. by apply H2.
  - destruct e0; cbn [bind];
      try (split; [by intros e [= <- <-] status | by intros out [= ]]).
    split; [by intros e [= ]|]. intros out [= <- <-].
    split; [done|]. intros i j a b _ Hi. by rewrite lookup_nil in Hi.
Qed.

Lemma course_assignments_404 :
  let nf := mk_response 404 [] None in
  let w' := mk_world [] [EGet "https://canvas/api/v1/courses/7/assignments"
                           (Some assignments_query) 20] in
  @course_assignments example_host utc_dates "https://canvas" 7 (mk_world [nf] [])
    = (Ok [], w')
  /\ forallb is_trimmed [] = true.
Proof.
  intros nf w'.
  assert (Hr : @course_assignments example_host utc_dates "https://canvas" 7
                 (mk_world [nf] []) = (Ok [], w'))
    by (vm_compute; reflexivity).
  split; [exact Hr|].
  exact (proj1 (proj2 (@course_assignments_outcome example_host utc_dates "https://canvas"
                         7 (mk_world [nf] []) w') [] Hr)).
Defined.

(** X15. A page that fails loses the pages before it.  When the listing of
    a course runs into a failing response after any number of pages of
    assignment objects, [main] stores the empty list for the course, not
    the assignments already received. *)
Theorem course_assignments_failed_page `{host : Host} `{DateLib}
    (base_url : str) (cid : Z)
    (done xs : list response) (r : response) (rest : list response)
    (lg : list event) :
  forallb continuing done = true ->
  forallb is_obj (concat (map resp_items done)) = true ->
  forallb (fun x => is_transient (status_code x)) xs = true ->
  (length xs <= 4)%nat ->
  status_code r <> 429 ->
  is_transient (status_code r) = false \/ length xs = 4%nat ->
  resp_ok r = false ->
  fst (course_assignments base_url cid
         (mk_world (done ++ xs ++ r :: rest) lg)) = Ok []
  /\ script (snd (course_assignments base_url cid
                    (mk_world (done ++ xs ++ r :: rest) lg))) = rest.
Proof.
  intros Hd Hobj Hxs Hlen H429 Hend Hok. unfold course_assignments.
  assert (Hfail : exists lg',
    list_assignments base_url cid (mk_world (done ++ xs ++ r :: rest) lg) =
    (Raise (HTTPError (status_code r)), mk_world rest lg')).
  { eexists. unfold list_assignments, paginate.
    eapply (for_each_fails_after_pages assignment_step done
              (assignments_url base_url cid) (Some assignments_query) []);
      [ | done | by apply fold_items_assignments | | done].
    - unfold assignments_url. by destruct base_url.
    - unfold _get_with_retries. cbn [script log].
      rewrite retry_loop_backoff; unfold default_max_retries; try done.
      + right. lia.
      + destruct Hend; [by left | right; lia]. }
  destruct Hfail as [lg' ->]. done.
Qed.

Lemma course_assignments_lost_page :
  let hw := JObj [(lit "name", JStr "HW")] in
  let p := mk_response 200 (link_next "https://canvas/p2")
             (Some (JList [hw])) in
  let r := mk_response 403 [] None in
  fst (@course_assignments example_host utc_dates "https://canvas" 7
         (mk_world [p; r] [])) = Ok []
  /\ script (snd (@course_assignments example_host utc_dates "https://canvas" 7
                    (mk_world [p; r] []))) = [].
Proof.
  intros hw p r.
  assert (H429 : status_code r <> 429) by discriminate.
  assert (Hlen : (length (@nil response) <= 4)%nat) by (cbn; lia).
  exact (@course_assignments_failed_page example_host utc_dates "https://canvas" 7 [p] []
           r [] [] eq_refl eq_refl eq_refl Hlen H429 (or_introl eq_refl)
           eq_refl).
Defined.

(** ** Course names in normal form *)

Section NormalForm.

Lemma head_not_space s :
  match s with c :: _ => is_space c = false | [] => True end <->
  head_space s = false.
Proof. by destruct s. Qed.

Lemma strip_head s : head_space (strip s) = false.
Proof.
  apply head_not_space.
  pose proof (lstrip_by_head is_space (rstrip (lstrip s))) as Hh.
  fold (lstrip (rstrip (lstrip s))) in Hh. by rewrite lstrip_rstrip in Hh.
Qed.

Lemma rstrip_last s : head_space (rev (rstrip s)) = false.
Proof.
  unfold rstrip. rewrite rev_involutive. apply head_not_space.
  apply (lstrip_by_head is_space).
Qed.

Lemma strip_fixed s :
  head_space s = false -> head_space (rev s) = false -> strip s = s.
Proof.
  intros Hh Hl. unfold strip, rstrip, lstrip.
  rewrite (lstrip_by_fixed is_space s) by by apply head_not_space.
  rewrite (lstrip_by_fixed is_space (rev s)) by by apply head_not_space.
  apply rev_involutive.
Qed.

Lemma collapse_normal s :
  single_spaced (collapse s)
  /\ head_space (collapse s) = false
  /\ head_space (rev (collapse s)) = false.
Proof.
  unfold collapse. split; [|split].
  - destruct (strip_infix (re_sub re_spaces " " s)) as (pre & suf & E).
    apply (single_spaced_infix pre _ suf). rewrite <- E.
    apply sub_spaces_single_spaced.
  - apply strip_head.
  - apply rstrip_last.
Qed.

Lemma collapse_fixed s :
  single_spaced s -> head_space s = false -> head_space (rev s) = false ->
  collapse s = s.
Proof.
  intros Hs Hh Hl. unfold collapse. rewrite sub_spaces_fixed by done.
  by apply strip_fixed.
Qed.

Lemma strip_noise_length s : (length (strip_noise s) <= length s)%nat.
Proof.
  unfold strip_noise. change (lit "") with (@nil ascii).
  etrans; [apply re_sub_length|]. etrans; apply re_sub_length.
Qed.

(** Patterns that cannot match. *)
Lemma drop_head_in (s : str) n c t : drop n s = c :: t -> In c s.
Proof.
  intros E. rewrite <- (take_drop n s), E. apply in_or_app. right. by left.
Qed.

Lemma rep_match_none p g k s : forall lo hi,
  (forall n, k (drop n s) = None) -> rep_match p lo hi g s k = None.
Proof.
  induction s as [|c s IH]; intros lo hi Hk.
  { cbn. destruct lo; [apply (Hk O) | done]. }
  assert (Hstop : match lo with O => k (c :: s) | S _ => None end = None).
  { destruct lo; [apply (Hk O) | done]. }
  cbn [rep_match]. rewrite Hstop.
  rewrite (IH (Nat.pred lo) (dec_hi hi)) by (intros n; apply (Hk (S n))).
  destruct (p c && may_take hi); [|done].
  destruct g; [done|]. by destruct lo.
Qed.

Lemma re_sub_no_match r repl s :
  (forall n, rmatch r (drop n s) Some = None) -> re_sub r repl s = s.
Proof.
  unfold re_sub. induction s as [|c s IH]; intros Hn.
  { pose proof (Hn O) as H0. cbn [drop] in H0. cbn [sub_from].
    by rewrite H0. }
  pose proof (Hn O) as H0. cbn [drop] in H0.
  cbn [sub_from]. rewrite H0. f_equal.
  apply IH. intros n. apply (Hn (S n)).
Qed.

Lemma after_blanks_none c (r : regex) s t :
  ~ In c s ->
  (forall n, rmatch (Cat (star is_space) (Cat (ch c) r)) (drop n s) t = None).
Proof.
  intros Hc n. cbn [rmatch star]. apply rep_match_none. intros m.
  rewrite drop_drop. destruct (drop (n + m) s) as [|x u] eqn:E; [done|].
  apply drop_head_in in E. unfold ch. cbn [rmatch].
  destruct (Ascii.eqb_spec c x) as [->|_]; done.
Qed.

Lemma strip_noise_plain s :
  ~ In "("%char s -> ~ In "-"%char s -> strip_noise s = s.
Proof.
  intros Hp Hd. unfold strip_noise.
  rewrite (re_sub_no_match re_year_annotation)
    by apply (after_blanks_none _ _ _ _ Hp).
  rewrite (re_sub_no_match re_term_annotation)
    by apply (after_blanks_none _ _ _ _ Hp).
  apply re_sub_no_match. intros n.
  destruct (drop n s) as [|x u] eqn:E; [done|].
  apply drop_head_in in E. unfold re_section_suffix, cat, ch. cbn [rmatch].
  destruct (Ascii.eqb_spec "-"%char x) as [<-|_]; done.
Qed.
End NormalForm.

(** X16. Whatever the name, the result of [clean_course_name] is in normal
    form: no blank at its start or at its end and no two blanks in a row.
    It is no longer than a name that is not empty. *)
Theorem clean_course_name_normal_form (name : option str) :
  single_spaced (clean_course_name name)
  /\ head_space (clean_course_name name) = false
  /\ head_space (rev (clean_course_name name)) = false
  /\ forall s, name = Some s -> s <> [] ->
       (length (clean_course_name name) <= length s)%nat.
Proof.
  assert (Hu : collapse "Untitled" = lit "Untitled") by (vm_compute; reflexivity).
  destruct name as [[|c s]|]; cbn [clean_course_name].
  - rewrite <- Hu. pose proof (collapse_normal "Untitled") as (H1 & H2 & H3).
    repeat split; try done. by intros s [= <-].
  - pose proof (collapse_normal (strip_noise (c :: s))) as (H1 & H2 & H3).
    repeat split; try done. intros s' [= <-] _.
    etrans; [apply collapse_length | apply strip_noise_length].
  - rewrite <- Hu. pose proof (collapse_normal "Untitled") as (H1 & H2 & H3).
    repeat split; done.
Qed.

Lemma clean_course_name_normal_form_example :
  (length (clean_course_name (Some (lit " Intro  to X (Spring 2025) ")))
   <= length (lit " Intro  to X (Spring 2025) "))%nat.
Proof.
  assert (Hne : lit " Intro  to X (Spring 2025) " <> []) by discriminate.
  exact (proj2 (proj2 (proj2 (clean_course_name_normal_form
                                (Some (lit " Intro  to X (Spring 2025) ")))))
           (lit " Intro  to X (Spring 2025) ") eq_refl Hne).
Defined.

(** X17. A plain name passes unchanged.  A name with no parenthesis and no
    hyphen has nothing for the three substitutions to drop, so that only
    its blanks are normalised; when it is in normal form already it is
    returned as it is. *)
Theorem clean_course_name_plain (s : str) :
  s <> [] -> ~ In "("%char s -> ~ In "-"%char s ->
  clean_course_name (Some s) = collapse s
  /\ (single_spaced s -> head_space s = false ->
      head_space (rev s) = false -> clean_course_name (Some s) = s).
Proof.
  intros Hne Hp Hd.
  assert (E : clean_course_name (Some s) = collapse s).
  { destruct s as [|c s]; [done|]. cbn [clean_course_name].
    by rewrite strip_noise_plain. }
  split; [done|]. intros Hs Hh Hl. rewrite E. by apply collapse_fixed.
Qed.

Lemma clean_course_name_plain_example :
  clean_course_name (Some (lit "  Intro   to X ")) = collapse "  Intro   to X ".
Proof.
  apply (clean_course_name_plain "  Intro   to X ").
  - discriminate.
  - cbn. intros H. repeat destruct H as [H|H]; try discriminate H. exact H.
  - cbn. intros H. repeat destruct H as [H|H]; try discriminate H. exact H.
Defined.

(** ** The link to the next page *)

Section NextLink.

Lemma rep_match_inv p g k r s : forall lo hi,
  rep_match p lo hi g s k = Some r ->
  exists u s', s = u ++ s' /\ forallb p u = true
    /\ (lo <= length u)%nat /\ k s' = Some r.
Proof.
  induction s as [|c s IH]; intros lo hi Hm; cbn [rep_match] in Hm.
  { destruct lo; [|done]. exists [], []. repeat split; try done; cbn; lia. }
  assert (Hstop : match lo with O => k (c :: s) | S _ => None end = Some r ->
    exists u s', c :: s = u ++ s' /\ forallb p u = true
      /\ (lo <= length u)%nat /\ k s' = Some r).
  { destruct lo; [|done]. intros Hk. exists [], (c :: s).
    repeat split; try done; cbn; lia. }
  assert (Hmore : rep_match p (Nat.pred lo) (dec_hi hi) g s k = Some r ->
    p c = true ->
    exists u s', c :: s = u ++ s' /\ forallb p u = true
      /\ (lo <= length u)%nat /\ k s' = Some r).
  { intros Hr Hc. apply IH in Hr as (u & s' & -> & Hu & Hlo & Hk).
    exists (c :: u), s'. cbn [forallb length]. rewrite Hc, Hu.
    repeat split; try done; lia. }
  destruct (p c) eqn:Hc; cbn [andb] in Hm; [|by apply Hstop].
  destruct (may_take hi); [|by apply Hstop].
  destruct (rep_match p (Nat.pred lo) (dec_hi hi) g s k) as [r'|] eqn:Hr.
  - destruct g; cbn [or_else] in Hm.
    + injection Hm as ->. by apply Hmore.
    + destruct lo as [|lo].
      * destruct (k (c :: s)) as [r0|] eqn:Hk0; cbn [or_else] in Hm.
        -- injection Hm as ->. apply Hstop. done.
        -- injection Hm as ->. by apply Hmore.
      * injection Hm as ->. by apply Hmore.
  - destruct g; cbn [or_else] in Hm.
    + by apply Hstop.
    + destruct lo as [|lo]; [|done].
      destruct (k (c :: s)) as [r0|] eqn:Hk0; cbn [or_else] in Hm; [|done].
      injection Hm as ->. apply Hstop. done.
Qed.

(** A greedy repetition without upper bound takes a whole run when what
    follows the run is accepted. *)
Lemma rep_match_run p k r u : forall lo s',
  forallb p u = true ->
  match s' with c :: _ => p c = false | [] => True end ->
  (lo <= length u)%nat -> k s' = Some r ->
  rep_match p lo None true (u ++ s') k = Some r.
Proof.
  induction u as [|c u IH]; intros lo s' Hu Hs' Hlo Hk.
  - cbn [length] in Hlo. assert (lo = O) as -> by lia. cbn [app].
    destruct s' as [|c t]; cbn [rep_match]; [done|]. by rewrite Hs'.
  - cbn [forallb] in Hu. apply andb_prop in Hu as [Hc Hu].
    cbn [app rep_match]. rewrite Hc. cbn [andb may_take dec_hi].
    rewrite (IH (Nat.pred lo) s'); [done|done|done| |done].
    cbn [length] in Hlo. lia.
Qed.

Lemma rmatch_angle_inv s rest :
  rmatch re_angle s Some = Some rest ->
  exists u, s = "<"%char :: u ++ ">"%char :: rest
    /\ u <> [] /\ forallb (not_ch ">"%char) u = true.
Proof.
  unfold re_angle, cat, ch, plus. cbn [rmatch].
  destruct s as [|c s]; [done|].
  destruct (Ascii.eqb_spec "<"%char c) as [<-|_]; [|done].
  intros Hm. apply rep_match_inv in Hm as (u & s' & -> & Hu & Hlo & Hk).
  destruct s' as [|d s']; [done|].
  destruct (Ascii.eqb_spec ">"%char d) as [<-|_]; [|done].
  injection Hk as ->. exists u. split; [done|]. split; [|done].
  intros ->. cbn in Hlo. lia.
Qed.

Lemma re_search_angle part : forall pre m post,
  re_search re_angle part = Some (pre, m, post) ->
  exists u, part = pre ++ "<"%char :: u ++ ">"%char :: post
    /\ m = "<"%char :: u ++ [">"%char]
    /\ u <> [] /\ forallb (not_ch ">"%char) u = true.
Proof.
  induction part as [|c part IH]; intros pre m post Hs; cbn [re_search] in Hs.
  { destruct (rmatch re_angle [] Some) eqn:Hm; [|done].
    by apply rmatch_angle_inv in Hm as (u & ? & _). }
  destruct (rmatch re_angle (c :: part) Some) as [rest|] eqn:Hm.
  - injection Hs as <- <- <-.
    apply rmatch_angle_inv in Hm as (u & E & Hne & Hu).
    exists u. split; [done|]. split; [|done]. rewrite E.
    assert (E2 : "<"%char :: u ++ ">"%char :: rest =
                 ("<"%char :: u ++ [">"%char]) ++ rest).
    { cbn [app]. by rewrite <- app_assoc. }
    rewrite E2. unfold consumed. rewrite length_app.
    replace (length ("<"%char :: u ++ [">"%char]) + length rest
             - length rest)%nat
      with (length ("<"%char :: u ++ [">"%char])) by lia.
    apply take_app_length.
  - destruct (re_search re_angle part) as [[[pre' m'] post']|] eqn:Hr; [|done].
    injection Hs as <- <- <-.
    destruct (IH pre' m' post' eq_refl) as (u & -> & -> & Hne & Hu).
    by exists u.
Qed.

Lemma first_next_link_inv parts u :
  first_next_link parts = Some u ->
  exists part pre post,
    In part parts /\ part = pre ++ "<"%char :: u ++ ">"%char :: post
    /\ u <> [] /\ forallb (not_ch ">"%char) u = true
    /\ contains rel_next part = true.
Proof.
  induction parts as [|part parts IH]; [done|]. cbn [first_next_link].
  assert (Hrest : first_next_link parts = Some u ->
    exists part0 pre post,
      In part0 (part :: parts)
      /\ part0 = pre ++ "<"%char :: u ++ ">"%char :: post
      /\ u <> [] /\ forallb (not_ch ">"%char) u = true
      /\ contains rel_next part0 = true).
  { intros Hr. destruct (IH Hr) as (p0 & pre & post & Hin & Hp).
    exists p0, pre, post. split; [by right | done]. }
  destruct (contains rel_next part) eqn:Hc; [|done].
  destruct (re_search re_angle part) as [[[pre m] post]|] eqn:Hs; [|done].
  intros [= <-].
  apply re_search_angle in Hs as (x & E & -> & Hne & Hx).
  exists part, pre, post. split; [by left|].
  cbn [tl]. rewrite removelast_last. done.
Qed.

Lemma split_char_head sep s p ps :
  split_char sep s = p :: ps -> ~ In sep p /\ exists b, s = p ++ b.
Proof.
  revert p ps. induction s as [|c s IH]; intros p ps Hsp;
    cbn [split_char] in Hsp.
  { injection Hsp as <- <-. split; [by intros []|]. by exists []. }
  destruct (Ascii.eqb_spec c sep) as [->|Hne].
  - injection Hsp as <- <-. split; [by intros []|]. by exists (sep :: s).
  - destruct (split_char sep s) as [|q qs] eqn:Hq.
    + injection Hsp as <- <-. split; [by intros [->|[]]|]. by exists s.
    + injection Hsp as <- <-. destruct (IH q qs eq_refl) as (Hn & b & ->).
      split; [by intros [->|?]|]. by exists b.
Qed.

Lemma split_char_infix sep s : forall part,
  In part (split_char sep s) ->
  ~ In sep part /\ exists a b, s = a ++ part ++ b.
Proof.
  induction s as [|c s IH]; intros part Hin.
  { cbn in Hin. destruct Hin as [<-|[]]. split; [by intros []|].
    by exists [], []. }
  destruct (split_char sep (c :: s)) as [|p ps] eqn:Hsp; [done|].
  destruct Hin as [<-|Hin].
  { apply split_char_head in Hsp as (Hn & b & E). split; [done|].
    exists [], b. by rewrite E. }
  cbn [split_char] in Hsp.
  destruct (Ascii.eqb_spec c sep) as [->|Hne].
  - injection Hsp as _ <-. destruct (IH part Hin) as (Hn & a & b & ->).
    split; [done|]. by exists (sep :: a), b.
  - destruct (split_char sep s) as [|q qs] eqn:Hq.
    + by injection Hsp as _ <-.
    + injection Hsp as _ <-.
      destruct (IH part (or_intror Hin)) as (Hn & a & b & ->).
      split; [done|]. by exists (c :: a), b.
Qed.
End NextLink.

Section LinkHeader.

Lemma header_get_case hs : header_get "link" hs = header_get "Link" hs.
Proof. induction hs as [|[k v] hs IH]; [done|]. cbn [header_get]. by rewrite IH. Qed.

Lemma link_value hs :
  next_link_from_headers hs =
  first_next_link (split_char "," (default [] (header_get "Link" hs))).
Proof.
  unfold next_link_from_headers. rewrite header_get_case.
  by destruct (header_get "Link" hs) as [[|c v]|].
Qed.

Lemma not_ch_forallb c u : forallb (not_ch c) u = true <-> ~ In c u.
Proof.
  rewrite forallb_forall. unfold not_ch. split.
  - intros Hu Hin. specialize (Hu c Hin). by rewrite Ascii.eqb_refl in Hu.
  - intros Hn x Hx. destruct (Ascii.eqb_spec x c) as [->|_]; done.
Qed.

Lemma split_char_none sep p : ~ In sep p -> split_char sep p = [p].
Proof.
  induction p as [|c p IH]; [done|]. intros Hn. cbn [split_char].
  destruct (Ascii.eqb_spec c sep) as [->|_]; [destruct Hn; by left|].
  rewrite IH; [done|]. intros Hin. apply Hn. by right.
Qed.

Lemma split_char_app_sep sep p rest :
  ~ In sep p -> split_char sep (p ++ sep :: rest) = p :: split_char sep rest.
Proof.
  induction p as [|c p IH]; intros Hn; cbn [app split_char].
  { by rewrite Ascii.eqb_refl. }
  destruct (Ascii.eqb_spec c sep) as [->|_]; [destruct Hn; by left|].
  rewrite IH; [done|]. intros Hin. apply Hn. by right.
Qed.

Lemma split_char_join sep p ps :
  ~ In sep p ->
  exists rest, split_char sep (join [sep] (p :: ps)) = p :: rest
    /\ (ps <> [] -> rest = split_char sep (join [sep] ps)).
Proof.
  intros Hn. destruct ps as [|q ps].
  - exists []. cbn [join]. by rewrite split_char_none.
  - exists (split_char sep (join [sep] (q :: ps))).
    change (join [sep] (p :: q :: ps)) with (p ++ [sep] ++ join [sep] (q :: ps)).
    cbn [app]. by rewrite split_char_app_sep.
Qed.

Lemma contains_app_r needle a b :
  contains needle b = true -> contains needle (a ++ b) = true.
Proof.
  intros Hb. induction a as [|c a IH]; [done|].
  cbn [app contains]. rewrite IH. apply orb_true_r.
Qed.

Lemma rmatch_angle_run u rest :
  u <> [] -> ~ In ">"%char u ->
  rmatch re_angle ("<"%char :: u ++ ">"%char :: rest) Some = Some rest.
Proof.
  intros Hne Hu. unfold re_angle, cat, ch, plus. cbn [rmatch].
  rewrite Ascii.eqb_refl. apply rep_match_run.
  - by apply not_ch_forallb.
  - unfold not_ch. by rewrite Ascii.eqb_refl.
  - destruct u; [done | cbn; lia].
  - by rewrite Ascii.eqb_refl.
Qed.

Lemma re_search_angle_run u rest :
  u <> [] -> ~ In ">"%char u ->
  re_search re_angle ("<"%char :: u ++ ">"%char :: rest) =
  Some ([], "<"%char :: u ++ [">"%char], rest).
Proof.
  intros Hne Hu. cbn [re_search]. rewrite rmatch_angle_run by done.
  do 2 f_equal.
  assert (E2 : "<"%char :: u ++ ">"%char :: rest =
               ("<"%char :: u ++ [">"%char]) ++ rest).
  { cbn [app]. by rewrite <- app_assoc. }
  rewrite E2. unfold consumed. rewrite length_app.
  replace (length ("<"%char :: u ++ [">"%char]) + length rest
           - length rest)%nat
    with (length ("<"%char :: u ++ [">"%char])) by lia.
  f_equal. apply take_app_length.
Qed.

Lemma first_next_link_skip bs : forall rest,
  Forall (fun b => contains rel_next b = false) bs ->
  first_next_link (bs ++ rest) = first_next_link rest.
Proof.
  induction bs as [|b bs IH]; intros rest Hbs; [done|].
  apply Forall_cons_1 in Hbs as [Hb Hbs].
  cbn [app first_next_link]. rewrite Hb. by apply IH.
Qed.

Lemma split_join_prefix sep bs : forall p ps,
  Forall (fun b => ~ In sep b) bs -> ~ In sep p ->
  exists rest, split_char sep (join [sep] (bs ++ p :: ps)) = bs ++ p :: rest.
Proof.
  induction bs as [|b bs IH]; intros p ps Hbs Hp.
  - cbn [app]. destruct (split_char_join sep p ps Hp) as (rest & E & _).
    by exists rest.
  - apply Forall_cons_1 in Hbs as [Hb Hbs].
    destruct (split_char_join sep b (bs ++ p :: ps) Hb) as (rest & E & Hrest).
    destruct (IH p ps Hbs Hp) as (rest' & E').
    exists rest'. cbn [app]. rewrite E, Hrest, E'; [done|].
    by destruct bs.
Qed.
End LinkHeader.

(** X18. A next link is never empty.  The URL that
    [next_link_from_headers] returns is the text between [<] and [>] in one
    part of the [Link] header, whatever the case of the header's name; it
    is not empty and holds neither [>] nor a comma, so that [paginate]
    goes on exactly when a link was found. *)
Theorem next_link_shape (hs : headers) (u : str) :
  next_link_from_headers hs = Some u ->
  u <> [] /\ url_truthy (Some u) = true
  /\ ~ In ">"%char u /\ ~ In ","%char u
  /\ exists v pre post,
       header_get "Link" hs = Some v
       /\ v = pre ++ lit "<" ++ u ++ lit ">" ++ post.
Proof.
  rewrite link_value. intros Hl.
  apply first_next_link_inv in Hl
    as (part & pre & post & Hin & -> & Hne & Hu & _).
  apply split_char_infix in Hin as (Hcomma & a & b & E).
  split; [done|]. split; [by destruct u|].
  split; [by apply not_ch_forallb|]. split.
  { intros Hc. apply Hcomma. apply in_or_app. right. right.
    apply in_or_app. by left. }
  destruct (header_get "Link" hs) as [v|]; cbn [default from_option id] in E.
  - exists v, (a ++ pre), (post ++ b). split; [done|]. rewrite E.
    cbn [lit app]. rewrite <- !app_assoc. cbn [app].
    by rewrite <- !app_assoc.
  - destruct a; [destruct pre|]; discriminate.
Qed.

Lemma next_link_shape_example :
  let hs := [(lit "link", lit "<https://c/p1>; rel=" ++ dquote ++ lit "prev"
                ++ dquote ++ lit ",<https://c/p3>; " ++ rel_next)] in
  next_link_from_headers hs = Some (lit "https://c/p3")
  /\ lit "https://c/p3" <> [].
Proof.
  intros hs.
  assert (H : next_link_from_headers hs = Some (lit "https://c/p3"))
    by (vm_compute; reflexivity).
  split; [exact H|].
  exact (proj1 (next_link_shape hs "https://c/p3" H)).
Defined.

(** X19. The next link is found among the others.  In a [Link] header
    made of comma-separated parts, the URL of the first part that holds
    [rel="next"] is returned when that part starts with the URL in angle
    brackets; the parts before it are passed over, and those after it are
    not read.  The URL may hold neither [>] nor a comma. *)
Theorem next_link_found (name : str) (bs : list str) (u attrs : str)
    (rest : list str) :
  lower name = lit "link" ->
  Forall (fun b => ~ In ","%char b /\ contains rel_next b = false) bs ->
  u <> [] -> ~ In ">"%char u -> ~ In ","%char u ->
  ~ In ","%char attrs -> contains rel_next attrs = true ->
  next_link_from_headers
    [(name, join "," (bs ++ (lit "<" ++ u ++ lit ">" ++ attrs) :: rest))]
  = Some u.
Proof.
  intros Hname Hbs Hne Hu Hc Hattrs Hrel. rewrite link_value.
  cbn [header_get]. rewrite Hname.
  change (str_eqb (lit "link") (lower (lit "Link"))) with true.
  cbn [default from_option id]. change (lit ",") with [","%char].
  destruct (split_join_prefix ","%char bs (lit "<" ++ u ++ lit ">" ++ attrs) rest)
    as (more & E);
    [| |replace (split_char _ _)
          with (bs ++ (lit "<" ++ u ++ lit ">" ++ attrs) :: more)
          by (symmetry; exact E)].
  - eapply Forall_impl; [exact Hbs|]. by intros b [? _].
  - change (lit "<") with ["<"%char]. change (lit ">") with [">"%char].
    cbn [app]. intros [E|[Hin|[E|Hin]]%in_app_or]; done.
  - rewrite first_next_link_skip
      by (eapply Forall_impl; [exact Hbs|]; by intros b [_ ?]).
    change (lit "<") with ["<"%char]. change (lit ">") with [">"%char].
    cbn [first_next_link app].
    assert (Hcont : contains rel_next ("<"%char :: u ++ ">"%char :: attrs) = true).
    { change ("<"%char :: u ++ ">"%char :: attrs)
        with (("<"%char :: u) ++ ">"%char :: attrs).
      apply contains_app_r.
      change (">"%char :: attrs) with ([">"%char] ++ attrs).
      by apply contains_app_r. }
    rewrite Hcont, re_search_angle_run by done.
    cbn [tl]. by rewrite removelast_last.
Qed.

Lemma next_link_found_example :
  next_link_from_headers
    [(lit "LINK",
      join "," [lit "<https://c/p1>; rel=" ++ dquote ++ lit "prev" ++ dquote;
                lit "<https://c/p3>" ++ (lit "; " ++ rel_next);
                lit "<https://c/p9>; rel=" ++ dquote ++ lit "last" ++ dquote])]
  = Some (lit "https://c/p3").
Proof.
  apply (next_link_found "LINK"
           [lit "<https://c/p1>; rel=" ++ dquote ++ lit "prev" ++ dquote]
           "https://c/p3" (lit "; " ++ rel_next)
           [lit "<https://c/p9>; rel=" ++ dquote ++ lit "last" ++ dquote]).
  - reflexivity.
  - constructor; [|constructor]. split; [|vm_compute; reflexivity].
    vm_compute. intros H. repeat destruct H as [H|H]; try discriminate H.
    exact H.
  - discriminate.
  - vm_compute. intros H. repeat destruct H as [H|H]; try discriminate H.
    exact H.
  - vm_compute. intros H. repeat destruct H as [H|H]; try discriminate H.
    exact H.
  - vm_compute. intros H. repeat destruct H as [H|H]; try discriminate H.
    exact H.
  - vm_compute. reflexivity.
Defined.

(** ** The four formats *)

Section Formats.
Context `{DateLib}.

Lemma same_fate_sym {A B} (x : outcome A) (y : outcome B) :
  same_fate x y -> same_fate y x.
Proof. by destruct x, y. Qed.

Lemma same_fate_trans {A B C} (x : outcome A) (y : outcome B) (z : outcome C) :
  same_fate x y -> same_fate y z -> same_fate x z.
Proof. destruct x, y, z; cbn; try done. by intros -> ->. Qed.

Lemma same_fate_map {A B C} (x : outcome A) (y : outcome B) (f : A -> C) :
  same_fate x y -> same_fate (let* v := x in Ok (f v)) y.
Proof. by destruct x, y. Qed.

(** A loop fares as its checks do when each step does. *)
Lemma for_list_same_fate {A B} (body : A -> B -> outcome A)
    (check : B -> outcome unit) l :
  (forall acc x, same_fate (body acc x) (check x)) ->
  forall acc u,
    same_fate (for_list body l acc) (for_list (fun _ x => check x) l u).
Proof.
  intros Hstep. induction l as [|x l IH]; intros acc u; [done|].
  cbn [for_list]. specialize (Hstep acc x).
  destruct (body acc x) as [acc'|e], (check x) as [[]|e']; cbn [bind];
    [apply IH | done | done | done].
Qed.

Lemma text_row_fate lines a : same_fate (text_row lines a) (row_ok a).
Proof.
  unfold text_row, row_ok. destruct (due_str a); [|done]. cbn [bind].
  by destruct (assignment_name a).
Qed.

Lemma md_row_fate lines a : same_fate (md_row lines a) (row_ok a).
Proof.
  unfold md_row, row_ok. destruct (due_str a); [|done]. cbn [bind].
  by destruct (assignment_name a).
Qed.

Lemma html_row_fate parts a : same_fate (html_row parts a) (row_ok a).
Proof.
  unfold html_row, row_ok. destruct (due_str a); [|done]. cbn [bind].
  by destruct (assignment_name a).
Qed.

Lemma csv_row_fate cid cname rows a :
  same_fate (csv_row cid cname rows a) (row_ok a).
Proof.
  unfold csv_row, row_ok. destruct (due_str a); [|done]. cbn [bind].
  by destruct (assignment_name a).
Qed.

Ltac course_fate row_fate :=
  intros;
  match goal with
  | |- same_fate _ (course_ok ?abc ?course) =>
      unfold course_ok;
      destruct (py_index course "id") as [cid|]; [|done]; cbn [bind];
      destruct (py_get_none course "name") as [name|]; [|done]; cbn [bind];
      destruct (clean_course_name_of name) as [cname|]; [|done]; cbn [bind];
      destruct (assignments_of abc cid) as [l|]; [|done]; cbn [bind]
  end.

Lemma text_course_fate abc lines course :
  same_fate (text_course abc lines course) (course_ok abc course).
Proof.
  unfold text_course. course_fate text_row_fate.
  apply same_fate_map, for_list_same_fate, text_row_fate.
Qed.

Lemma md_course_fate abc lines course :
  same_fate (md_course abc lines course) (course_ok abc course).
Proof.
  unfold md_course. course_fate md_row_fate.
  apply same_fate_map, for_list_same_fate, md_row_fate.
Qed.

Lemma html_course_fate abc parts course :
  same_fate (html_course abc parts course) (course_ok abc course).
Proof.
  unfold html_course. course_fate html_row_fate.
  apply same_fate_map, for_list_same_fate, html_row_fate.
Qed.

Lemma csv_course_fate abc rows course :
  same_fate (csv_course abc rows course) (course_ok abc course).
Proof.
  unfold csv_course. course_fate csv_row_fate.
  apply for_list_same_fate. intros acc a. apply csv_row_fate.
Qed.

Lemma render_text_fate title courses abc :
  same_fate (render_text title courses abc) (data_ok courses abc).
Proof.
  unfold render_text, data_ok.
  apply same_fate_map, for_list_same_fate, text_course_fate.
Qed.

Lemma render_md_fate title courses abc :
  same_fate (render_md title courses abc) (data_ok courses abc).
Proof.
  unfold render_md, data_ok.
  apply same_fate_map, for_list_same_fate, md_course_fate.
Qed.

Lemma render_html_fate title courses abc :
  same_fate (render_html title courses abc) (data_ok courses abc).
Proof.
  unfold render_html, data_ok.
  apply same_fate_map, for_list_same_fate, html_course_fate.
Qed.

Lemma render_csv_fate title courses abc :
  same_fate (render_csv title courses abc) (data_ok courses abc).
Proof.
  unfold render_csv, csv_rows, data_ok.
  apply same_fate_map, for_list_same_fate, csv_course_fate.
Qed.
End Formats.

(** X20. The four formats accept the same data.  Whatever the format, the
    title, the courses and the dict, [build_output] returns if and only if
    [render_text] does, and raises the exception that [render_text]
    raises: the renderers look the data up in the same order.  A format
    that is none of [md], [html] and [csv] gives the text. *)
Theorem build_output_same_fate `{DateLib} (fmt title : str)
    (courses : list Json) (assignments_by_course : assignments_dict) :
  same_fate (build_output fmt title courses assignments_by_course)
            (render_text title courses assignments_by_course)
  /\ same_fate (build_output fmt title courses assignments_by_course)
               (data_ok courses assignments_by_course)
  /\ (fmt <> lit "md" -> fmt <> lit "html" -> fmt <> lit "csv" ->
      build_output fmt title courses assignments_by_course =
      render_text title courses assignments_by_course).
Proof.
  assert (Hd : same_fate (build_output fmt title courses assignments_by_course)
                 (data_ok courses assignments_by_course)).
  { unfold build_output.
    destruct (str_eqb fmt "md"); [apply render_md_fate|].
    destruct (str_eqb fmt "html"); [apply render_html_fate|].
    destruct (str_eqb fmt "csv"); [apply render_csv_fate|].
    apply render_text_fate. }
  split; [|split; [done|]].
  - eapply same_fate_trans; [exact Hd|].
    apply same_fate_sym, render_text_fate.
  - intros H1 H2 H3. unfold build_output.
    destruct (str_eqb fmt "md") eqn:E1; [by apply str_eqb_eq in E1|].
    destruct (str_eqb fmt "html") eqn:E2; [by apply str_eqb_eq in E2|].
    destruct (str_eqb fmt "csv") eqn:E3; [by apply str_eqb_eq in E3|].
    done.
Qed.

Lemma build_output_unknown_format :
  @build_output utc_dates "json" "T" [] ∅ = @render_text utc_dates "T" [] ∅.
Proof.
  assert (H1 : lit "json" <> lit "md") by discriminate.
  assert (H2 : lit "json" <> lit "html") by discriminate.
  assert (H3 : lit "json" <> lit "csv") by discriminate.
  exact (proj2 (proj2 (@build_output_same_fate utc_dates "json" "T" [] ∅))
           H1 H2 H3).
Defined.

(** ** Markup of the HTML output *)

Section Markup.
Context `{DateLib}.

Lemma count_char_concat c (l : list str) :
  count_char c (concat l) = sum_list_with (count_char c) l.
Proof.
  induction l as [|s l IH]; [done|].
  cbn [concat sum_list_with]. by rewrite count_char_app, IH.
Qed.

Lemma count_char_flat_map c (f : ascii -> str) s :
  (forall x, count_char c (f x) = O) -> count_char c (flat_map f s) = O.
Proof.
  intros Hf. induction s as [|x s IH]; [done|].
  cbn [flat_map]. by rewrite count_char_app, Hf, IH.
Qed.

Lemma flat_map_compose (f g : ascii -> str) s :
  flat_map g (flat_map f s) = flat_map (fun x => flat_map g (f x)) s.
Proof.
  induction s as [|x s IH]; [done|].
  cbn [flat_map]. by rewrite flat_map_app, IH.
Qed.

(** The five replacements act on each character by itself. *)
Lemma html_escape_chars s :
  html_escape s = flat_map (fun x => html_escape [x]) s.
Proof.
  unfold html_escape, replace_char. rewrite !flat_map_compose.
  apply flat_map_ext. intros x. cbn [flat_map].
  by rewrite app_nil_r, !flat_map_compose.
Qed.

Lemma is_markup_cases c :
  is_markup c = true ->
  c = "<"%char \/ c = ">"%char \/ c = chr 34 \/ c = "'"%char.
Proof.
  unfold is_markup. intros Hc.
  destruct (Ascii.eqb_spec c "<") as [E|_]; [by left|].
  destruct (Ascii.eqb_spec c ">") as [E|_]; [right; by left|].
  destruct (Ascii.eqb_spec c (chr 34)) as [E|_]; [right; right; by left|].
  destruct (Ascii.eqb_spec c "'") as [E|_]; [by do 3 right | done].
Qed.

Lemma html_escape_markup c s :
  is_markup c = true -> count_char c (html_escape s) = O.
Proof.
  intros Hc%is_markup_cases. rewrite html_escape_chars.
  apply count_char_flat_map. intros x.
  destruct x as [[] [] [] [] [] [] [] []];
    destruct Hc as [->|[->|[->| ->]]]; vm_compute; reflexivity.
Qed.

Lemma count_char_cons c x s :
  count_char c (x :: s) =
  ((if Ascii.eqb c x then 1 else 0) + count_char c s)%nat.
Proof. unfold count_char. cbn [List.filter]. by destruct (Ascii.eqb c x). Qed.

Lemma int_chars_markup c n :
  is_markup c = true -> count_char c (str_of_int n) = O.
Proof.
  intros Hc%is_markup_cases.
  assert (Hu : forall d, count_char c (uint_chars d) = O).
  { induction d; cbn [uint_chars]; [done | ..];
      rewrite count_char_cons, IHd;
      destruct Hc as [->|[->|[->| ->]]]; reflexivity. }
  destruct n as [|p|p]; cbn [str_of_int]; [apply Hu | apply Hu |].
  rewrite count_char_cons, Hu.
  destruct Hc as [->|[->|[->| ->]]]; reflexivity.
Qed.
End Markup.

Section MarkupCount.
Context `{DateLib}.
Variable c : ascii.
Hypothesis Hc : is_markup c = true.

Ltac count_markup :=
  repeat (rewrite count_char_cons || rewrite count_char_app);
  rewrite ?html_escape_markup, ?int_chars_markup by done;
  apply is_markup_cases in Hc as [->|[->|[->| ->]]];
  vm_compute; reflexivity.

Lemma html_row_count parts a parts' :
  html_row parts a = Ok parts' ->
  exists p, parts' = parts ++ [p]
    /\ count_char c p = count_char c (lit "<tr><td></td><td></td></tr>").
Proof.
  unfold html_row. destruct (due_str a) as [due|]; [|done]. cbn [bind].
  destruct (assignment_name a) as [aname|]; [|done]. cbn [bind].
  intros [= <-]. eexists. split; [done|]. count_markup.
Qed.

Lemma html_rows_count l : forall parts parts',
  for_list html_row l parts = Ok parts' ->
  exists new, parts' = parts ++ new
    /\ count_char c (concat new) =
       (length l * count_char c (lit "<tr><td></td><td></td></tr>"))%nat.
Proof.
  induction l as [|a l IH]; intros parts parts' Hl; cbn [for_list] in Hl.
  { injection Hl as <-. exists []. by rewrite app_nil_r. }
  destruct (html_row parts a) as [parts1|] eqn:Hrow; [|done]. cbn [bind] in Hl.
  apply html_row_count in Hrow as (p & -> & Hp).
  apply IH in Hl as (new & -> & Hnew).
  exists (p :: new). rewrite <- app_assoc. split; [done|].
  cbn [concat length]. rewrite count_char_app, Hp, Hnew. lia.
Qed.

Lemma html_course_count abc parts course parts' :
  has_int_id course = true ->
  html_course abc parts course = Ok parts' ->
  exists new, parts' = parts ++ new
    /\ count_char c (concat new) =
       (count_char c (lit "<h2>Course:  (ID: )</h2>")
        + count_char c html_table_open + count_char c html_table_close
        + course_rows abc course
          * count_char c (lit "<tr><td></td><td></td></tr>"))%nat.
Proof.
  unfold has_int_id, html_course, course_rows.
  destruct (py_index course "id") as [[| |n| | |]|]; try done. intros _.
  cbn [bind]. destruct (py_get_none course "name") as [name|]; [|done].
  cbn [bind]. destruct (clean_course_name_of name) as [cname|]; [|done].
  cbn [bind assignments_of dict_key py_format].
  destruct (for_list html_row _ _) as [parts1|] eqn:Hrows; [|done].
  cbn [bind]. intros [= <-].
  apply html_rows_count in Hrows as (new & -> & Hnew).
  eexists. rewrite <- !app_assoc. split; [done|].
  rewrite !concat_app. cbn [concat].
  rewrite !app_nil_r, !count_char_app, Hnew.
  generalize (length (default [] (abc !! KInt n))). intros rows.
  assert (Hh2 : count_char c
                  (lit "<h2>Course: " ++ html_escape cname ++ lit " (ID: "
                   ++ str_of_int n ++ lit ")</h2>") =
                count_char c (lit "<h2>Course:  (ID: )</h2>"))
    by count_markup.
  rewrite !count_char_app in Hh2. lia.
Qed.

Lemma html_courses_count abc courses : forall parts parts',
  forallb has_int_id courses = true ->
  for_list (html_course abc) courses parts = Ok parts' ->
  exists new, parts' = parts ++ new
    /\ count_char c (concat new) =
       (length courses
        * (count_char c (lit "<h2>Course:  (ID: )</h2>")
           + count_char c html_table_open + count_char c html_table_close)
        + total_rows abc courses
          * count_char c (lit "<tr><td></td><td></td></tr>"))%nat.
Proof.
  induction courses as [|course courses IH]; intros parts parts' Hids Hl;
    cbn [for_list] in Hl.
  { injection Hl as <-. exists []. by rewrite app_nil_r. }
  cbn [forallb] in Hids. apply andb_prop in Hids as [Hid Hids].
  destruct (html_course abc parts course) as [parts1|] eqn:Hcourse; [|done].
  cbn [bind] in Hl.
  apply html_course_count in Hcourse as (new1 & -> & H1); [|done].
  apply IH in Hl as (new2 & -> & H2); [|done].
  exists (new1 ++ new2). rewrite <- app_assoc. split; [done|].
  rewrite concat_app, count_char_app, H1, H2.
  unfold total_rows. cbn [sum_list_with length]. lia.
Qed.

Lemma html_head_count title :
  count_char c (html_head title) = count_char c (html_head []).
Proof.
  unfold html_head. cbn [join]. count_markup.
Qed.
End MarkupCount.

(** X21. The data put no markup into the HTML output.  For courses whose
    ids are integers, whatever the title, the names and the dates, the
    document that [render_html] returns holds as many [<] as its own tags:
    thirteen in the head and three in the foot, fourteen for a course and
    six for a row; likewise for [>], and the only quotes are the four of
    the two attributes.  All text from the data goes through
    [html.escape]. *)
Theorem render_html_markup `{DateLib} (title : str) (courses : list Json)
    (assignments_by_course : assignments_dict) (out : str) :
  forallb has_int_id courses = true ->
  render_html title courses assignments_by_course = Ok out ->
  (forall c, is_markup c = true ->
     count_char c out =
     markup_count c (length courses)
       (total_rows assignments_by_course courses))
  /\ count_char "<" out =
     (16 + 14 * length courses
      + 6 * total_rows assignments_by_course courses)%nat
  /\ count_char ">" out = count_char "<" out
  /\ count_char (chr 34) out = 4%nat
  /\ count_char "'" out = 0%nat.
Proof.
  intros Hids Hr.
  assert (Hall : forall c, is_markup c = true ->
     count_char c out =
     markup_count c (length courses)
       (total_rows assignments_by_course courses)).
  { intros c Hc. unfold render_html in Hr.
    destruct (for_list _ courses _) as [parts|] eqn:Hparts; [|done].
    cbn [bind] in Hr. injection Hr as <-.
    destruct (html_courses_count c Hc assignments_by_course courses _ _
                Hids Hparts) as (new & -> & Hnew).
    rewrite concat_app, count_char_app. cbn [app concat].
    rewrite count_char_app, Hnew, app_nil_r, (html_head_count c Hc).
    unfold markup_count. lia. }
  split; [exact Hall|].
  rewrite (Hall "<"%char eq_refl), (Hall ">"%char eq_refl),
    (Hall (chr 34) eq_refl), (Hall "'"%char eq_refl).
  unfold markup_count.
  generalize (length courses) (total_rows assignments_by_course courses).
  intros n r.
  repeat match goal with
         | |- context [count_char ?c ?s] =>
             let v := eval vm_compute in (count_char c s) in
             replace (count_char c s) with v by (vm_compute; reflexivity)
         end.
  split; [lia|]. split; [lia|]. split; lia.
Qed.

Lemma render_html_markup_example :
  let course := JObj [(lit "id", JNum 12); (lit "name", JStr "R&D <x>")] in
  let essay := assignment "<b>Essay</b>" JNull in
  exists out,
    @render_html utc_dates "T <1>" [course] {[ KInt 12 := [essay] ]} = Ok out
    /\ count_char "<" out = 36%nat.
Proof.
  intros course essay.
  destruct (@render_html utc_dates "T <1>" [course] {[ KInt 12 := [essay] ]})
    as [out|e] eqn:Hr; [|vm_compute in Hr; discriminate Hr].
  exists out. split; [reflexivity|].
  destruct (@render_html_markup utc_dates "T <1>" [course]
              {[ KInt 12 := [essay] ]} out eq_refl Hr) as (_ & H1 & _).
  rewrite H1. vm_compute. reflexivity.
Defined.

(** ** Dates written with Z *)

Lemma replace_char_app old new s t :
  replace_char old new (s ++ t) = replace_char old new s ++ replace_char old new t.
Proof. unfold replace_char. apply flat_map_app. Qed.

Lemma truthy_app_cons s c t : truthy (JStr (s ++ c :: t)) = true.
Proof. by destruct s. Qed.

(** X22. [Z] and [+00:00] are the same offset to the script.  A due date
    that ends in [Z] is parsed, shown and sorted as the same text ending
    in [+00:00], whatever the date library does with it. *)
Theorem due_date_zulu `{DateLib} (s : str)
    (fields1 fields2 : list (str * Json)) :
  fields_get "due_at" fields1 = Some (JStr (s ++ lit "Z")) ->
  fields_get "due_at" fields2 = Some (JStr (s ++ lit "+00:00")) ->
  parse_iso8601 (JStr (s ++ lit "Z")) = parse_iso8601 (JStr (s ++ lit "+00:00"))
  /\ due_str (JObj fields1) = due_str (JObj fields2)
  /\ key (JObj fields1) = key (JObj fields2).
Proof.
  intros H1 H2.
  assert (Hp : parse_iso8601 (JStr (s ++ lit "Z")) =
               parse_iso8601 (JStr (s ++ lit "+00:00"))).
  { unfold parse_iso8601.
    change (lit "Z") with ["Z"%char].
    change (lit "+00:00") with ("+"%char :: lit "00:00").
    rewrite !truthy_app_cons, !replace_char_app. reflexivity. }
  split; [exact Hp|].
  unfold due_str, key, py_get_none, py_get. cbn [bind].
  rewrite H1, H2. cbn [default from_option id]. by rewrite Hp.
Qed.

Lemma due_date_zulu_example :
  @due_str utc_dates (assignment "HW" (JStr "2025-03-01T00:00:00Z")) =
  @due_str utc_dates (assignment "Quiz" (JStr "2025-03-01T00:00:00+00:00")).
Proof.
  exact (proj1 (proj2 (@due_date_zulu utc_dates "2025-03-01T00:00:00"
                         [(lit "name", JStr "HW");
                          (lit "due_at", JStr "2025-03-01T00:00:00Z")]
                         [(lit "name", JStr "Quiz");
                          (lit "due_at", JStr "2025-03-01T00:00:00+00:00")]
                         eq_refl eq_refl))).
Defined.

(** ** The base URL *)

Section BaseUrl.

Lemma lstrip_by_repeat p c n s :
  p c = true -> lstrip_by p (repeat c n ++ s) = lstrip_by p s.
Proof. intros Hp. induction n as [|n IH]; [done|]. cbn. by rewrite Hp. Qed.

Lemma rev_repeat {A} (x : A) n : rev (repeat x n) = repeat x n.
Proof.
  induction n as [|n IH]; [done|]. cbn [repeat rev]. rewrite IH.
  clear IH. induction n as [|n IH]; [done|]. cbn. by rewrite IH.
Qed.

Lemma lstrip_by_repeat_run p s :
  (forall a b, p a = true -> p b = true -> a = b) ->
  forall c, p c = true ->
  s = repeat c (run_length p s) ++ lstrip_by p s.
Proof.
  intros Huniq c Hc. induction s as [|x s IH]; [done|].
  cbn [run_length lstrip_by]. destruct (p x) eqn:Hx; [|done].
  cbn [repeat app]. rewrite <- IH. f_equal. by apply Huniq.
Qed.
End BaseUrl.

Lemma is_slash_eq c : is_slash c = true <-> c = "/"%char.
Proof.
  unfold is_slash. cbn. rewrite orb_false_r. apply Ascii.eqb_eq.
Qed.

(** X23. Slashes at the end of the base URL do not count.  The base URL of
    the session is the given one without its trailing slashes: it does not
    end with a slash, the given URL is it followed by slashes only, and
    two URLs that differ in trailing slashes give the same session, hence
    the same requests. *)
Theorem build_session_trailing_slashes (url token : str) (n : nat) :
  build_session (url ++ repeat "/"%char n) token = build_session url token
  /\ head (rev (base_url (build_session url token))) <> Some "/"%char
  /\ exists k, url = base_url (build_session url token) ++ repeat "/"%char k.
Proof.
  unfold build_session. cbn [base_url]. unfold rstrip_chars.
  fold is_slash. split; [|split].
  - f_equal. f_equal. rewrite rev_app_distr, rev_repeat.
    apply lstrip_by_repeat. by apply is_slash_eq.
  - rewrite rev_involutive.
    pose proof (lstrip_by_head is_slash (rev url)) as Hh.
    destruct (lstrip_by is_slash (rev url)) as [|c t]; [done|].
    cbn. intros [= ->]. by rewrite (proj2 (is_slash_eq "/"%char)) in Hh.
  - exists (run_length is_slash (rev url)).
    rewrite <- (rev_repeat "/"%char), <- rev_app_distr.
    rewrite <- (lstrip_by_repeat_run is_slash (rev url));
      [by rewrite rev_involutive | | by apply is_slash_eq].
    intros a b Ha%is_slash_eq Hb%is_slash_eq. congruence.
Qed.

(** ** Courses given by id *)

Section CoursesById.
Context `{host : Host}.

Lemma py_slice_to_length {A} (l : list A) (n : Z) :
  (0 <= n -> Z.of_nat (length (py_slice_to l n)) <= n)
  /\ (n < 0 ->
      Z.of_nat (length (py_slice_to l n)) = Z.max 0 (Z.of_nat (length l) + n))
  /\ exists rest, l = py_slice_to l n ++ rest.
Proof.
  unfold py_slice_to. split; [|split].
  - intros Hn. destruct (Z.leb_spec 0 n); [|lia]. rewrite length_take. lia.
  - intros Hn. destruct (Z.leb_spec 0 n); [lia|]. rewrite length_take. lia.
  - destruct (0 <=? n); eexists; symmetry; apply take_drop.
Qed.

Lemma fetch_courses_outcome base ids : forall courses w,
  (forall e w', fetch_courses base ids courses w = (Raise e, w') ->
     forall status, e <> HTTPError status)
  /\ (forall out w', fetch_courses base ids courses w = (Ok out, w') ->
      exists new, out = courses ++ new /\ (length new <= length ids)%nat).
Proof.
  induction ids as [|cid ids IH]; intros courses w; cbn [fetch_courses].
  { split; [done|]. intros out w' [= <- <-]. exists [].
    rewrite app_nil_r. split; [done | cbn; lia]. }
  destruct (_get_with_retries _ _ _ _ w) as [[r|e] w1] eqn:Hget.
  - destruct (resp_ok r).
    + destruct (resp_json r) as [data|].
      * destruct (IH (courses ++ [data]) w1) as [H1 H2]. split; [exact H1|].
        intros out w' Hout. apply H2 in Hout as (new & -> & Hlen).
        exists (data :: new). rewrite <- app_assoc. split; [done|].
        cbn [length]. lia.
      * split; [|done]. by intros e w' [= <- <-] status.
    + destruct (IH courses w1) as [H1 H2]. split; [exact H1|].
      intros out w' Hout. apply H2 in Hout as (new & -> & Hlen).
      exists new. split; [done|]. cbn [length]. lia.
  - split; [|done]. intros e' w' [= <- <-] status ->.
    unfold _get_with_retries in Hget.
    apply retry_loop_raises_kind in Hget as [?|[?|[?|?]]]; done.
Qed.

Lemma answer_returned url query r rest lg :
  answer r = true ->
  _get_with_retries url query default_max_retries default_timeout
    (mk_world (r :: rest) lg) =
  (Ok r, mk_world rest (lg ++ [EGet url query default_timeout])).
Proof.
  unfold answer, final_response.
  intros [[H429 Ht]%andb_prop _]%andb_prop.
  apply negb_true_iff in H429, Ht. apply Z.eqb_neq in H429.
  unfold _get_with_retries. cbn [script log].
  apply retry_loop_returns; [done | by left].
Qed.

Lemma fetch_courses_answers base ids : forall rs courses rest lg,
  length rs = length ids -> forallb answer rs = true ->
  fetch_courses base ids courses (mk_world (rs ++ rest) lg) =
  (Ok (courses ++ flat_map fetched rs),
   mk_world rest
     (lg ++ map (fun cid => EGet (course_url base cid) (Some course_params)
                              default_timeout) ids)).
Proof.
  induction ids as [|cid ids IH]; intros rs courses rest lg Hlen Hrs.
  { destruct rs; [|done]. cbn. by rewrite !app_nil_r. }
  destruct rs as [|r rs]; [done|]. cbn [length] in Hlen.
  cbn [forallb] in Hrs. apply andb_prop in Hrs as [Hr Hrs].
  cbn [fetch_courses app]. rewrite answer_returned by done.
  cbn [flat_map map]. unfold fetched at 1.
  unfold answer, good_page in Hr.
  apply andb_prop in Hr as [_ Hbody].
  destruct (resp_ok r); cbn [negb orb andb] in Hbody.
  - destruct (resp_json r) as [data|]; [|done].
    rewrite IH by (done || lia). by rewrite <- !app_assoc.
  - rewrite IH by (done || lia). by rewrite <- !app_assoc.
Qed.
End CoursesById.

(** X24. The courses given by id.  Whatever the session answers, the loop
    over [args.courses[:args.max]] raises no HTTP error, since a course
    that cannot be fetched is passed over, and it fetches at most [max]
    courses when [max] is not negative.  A negative [max] counts from the
    end of the list: all the ids but the last [-max] are asked for. *)
Theorem courses_by_id_outcome `{host : Host} (s : session) (ids : list Z)
    (max : Z)
    (w w' : world) :
  (forall e, courses_by_id s ids max w = (Raise e, w') ->
     forall status, e <> HTTPError status)
  /\ (forall courses, courses_by_id s ids max w = (Ok courses, w') ->
      (length courses <= length (py_slice_to ids max))%nat
      /\ (0 <= max -> Z.of_nat (length courses) <= max)
      /\ (max < 0 -> Z.of_nat (length courses)
                     <= Z.max 0 (Z.of_nat (length ids) + max))).
Proof.
  unfold courses_by_id.
  destruct (fetch_courses_outcome (base_url s) (py_slice_to ids max) [] w)
    as [H1 H2].
  split; [intros e He; by eapply H1|].
  intros courses Hc. apply H2 in Hc as (new & -> & Hlen). cbn [app].
  destruct (py_slice_to_length ids max) as (Hpos & Hneg & _).
  split; [done|]. split; intros Hm; [specialize (Hpos Hm) | specialize (Hneg Hm)];
    lia.
Qed.

Lemma courses_by_id_two_of_three :
  let s := build_session "https://canvas/" "t" in
  let c1 := mk_response 200 [] (Some (JObj [(lit "id", JNum 1)])) in
  let c2 := mk_response 200 [] (Some (JObj [(lit "id", JNum 2)])) in
  fst (courses_by_id s [1; 2; 3] 2 (mk_world [c1; c2] []))
    = Ok [JObj [(lit "id", JNum 1)]; JObj [(lit "id", JNum 2)]]
  /\ (length [JObj [(lit "id", JNum 1)]; JObj [(lit "id", JNum 2)]]
      <= length (py_slice_to [1; 2; 3] 2))%nat.
Proof.
  intros s c1 c2. split; [vm_compute; reflexivity|].
  exact (proj1 (proj2 (courses_by_id_outcome s [1; 2; 3] 2
                         (mk_world [c1; c2] [])
                         (snd (courses_by_id s [1; 2; 3] 2
                                 (mk_world [c1; c2] []))))
                  [JObj [(lit "id", JNum 1)]; JObj [(lit "id", JNum 2)]]
                  eq_refl)).
Defined.

(** X25. A course that cannot be fetched is passed over.  When each of
    the ids asked for gets one response that is final, the courses are the
    bodies of the successful responses, in the order of the ids; a
    response of status 400 to 599 adds nothing and stops nothing.  Each
    request is for [/api/v1/courses/<id>] with [include[]=term]. *)
Theorem courses_by_id_skips_failures `{host : Host} (s : session)
    (ids : list Z) (max : Z)
    (rs rest : list response) (lg : list event) :
  length rs = length (py_slice_to ids max) ->
  forallb answer rs = true ->
  courses_by_id s ids max (mk_world (rs ++ rest) lg) =
  (Ok (flat_map fetched rs),
   mk_world rest
     (lg ++ map (fun cid => EGet (course_url (base_url s) cid)
                              (Some course_params) default_timeout)
              (py_slice_to ids max))).
Proof.
  intros Hlen Hrs. unfold courses_by_id.
  by rewrite fetch_courses_answers.
Qed.

Lemma courses_by_id_404_skipped :
  let s := build_session "https://canvas/" "t" in
  let c1 := mk_response 404 [] None in
  let c2 := mk_response 200 [] (Some (JObj [(lit "id", JNum 2)])) in
  courses_by_id s [1; 2] 2 (mk_world [c1; c2] []) =
  (Ok [JObj [(lit "id", JNum 2)]],
   mk_world []
     [EGet "https://canvas/api/v1/courses/1" (Some course_params) 20;
      EGet "https://canvas/api/v1/courses/2" (Some course_params) 20]).
Proof.
  intros s c1 c2.
  exact (courses_by_id_skips_failures s [1; 2] 2 [c1; c2] [] [] eq_refl
           eq_refl).
Defined.
